(** * ivy.core.container: a shallow embedding of [Container]

  [Container] is a [dict] subclass whose values are either nested
  containers or leaves (arrays, scalars, lists, [None]).  The embedding
  keeps the dict as the list of its items in insertion order and writes
  [sorted(self.items())] out as a sort by key; exceptions are values of
  [result]; objects mutated in place ([self], the list given to
  [from_flat_list], the h5 group) are passed through the functions as
  state. *)

From Stdlib Require Import List String Ascii ZArith Lia Bool Permutation.
From Stdlib Require Import OrderedTypeEx Sorted.
From Stdlib Require Floats Uint63.
Import ListNotations.
Open Scope string_scope.
Open Scope list_scope.

(** ** Exceptions *)

(** The exceptions the modelled methods can raise.  [TypeError] stands for
  what subscripting a leaf with a string key raises (a [TypeError] for
  scalars, lists, tuples and [None], an [IndexError] for numpy arrays):
  never a [KeyError].  [ReduceError] is the [Exception] that [reduce]
  re-raises when the reduction fails; [H5Error] is an error of the h5
  store. *)
Inductive exn : Type :=
  | KeyError
  | TypeError
  | IndexError
  | ValueError
  | ReduceError
  | H5Error.

Inductive result (A : Type) : Type :=
  | Ok (a : A)
  | Raise (e : exn).

Arguments Ok {A} a.
Arguments Raise {A} e.

Definition bind {A B : Type} (m : result A) (k : A -> result B) : result B :=
  match m with
  | Ok a => k a
  | Raise e => Raise e
  end.

Notation "x <- m ;; k" := (bind m (fun x => k))
  (at level 61, m at next level, right associativity).
Notation "' p <- m ;; k" := (bind m (fun x => let p := x in k))
  (at level 61, p pattern, m at next level, right associativity).

(** ** Key-chains *)

(** ['/' in key] *)
Fixpoint has_slash (s : string) : bool :=
  match s with
  | EmptyString => false
  | String c s' => Ascii.eqb c "/" || has_slash s'
  end.

(** [key_chain.split('/')]: never empty, [''.split('/') == ['']]. *)
Fixpoint split (s : string) : list string :=
  match s with
  | EmptyString => [EmptyString]
  | String c s' =>
    if Ascii.eqb c "/" then EmptyString :: split s'
    else match split s' with
         | seg :: segs => String c seg :: segs
         | [] => [String c EmptyString]
         end
  end.

(** [key if key_chain == '' else (key_chain + '/' + key)] *)
Definition join_chain (key_chain key : string) : string :=
  if String.eqb key_chain "" then key else key_chain ++ "/" ++ key.

(** ** Dictionaries as item lists *)

Section Items.
Context {A : Type}.

Definition keys (l : list (string * A)) : list string := List.map fst l.

(** [dict.__getitem__], [None] for a missing key. *)
Fixpoint dict_get (key : string) (l : list (string * A)) : option A :=
  match l with
  | [] => None
  | (k, v) :: r => if String.eqb key k then Some v else dict_get key r
  end.

(** [dict.__contains__] *)
Definition dict_contains (key : string) (l : list (string * A)) : bool :=
  match dict_get key l with Some _ => true | None => false end.

(** [dict.__setitem__]: an existing key keeps its position, a new key goes
    to the end. *)
Fixpoint dict_set (key : string) (v : A) (l : list (string * A))
  : list (string * A) :=
  match l with
  | [] => [(key, v)]
  | (k, w) :: r =>
      if String.eqb key k then (k, v) :: r else (k, w) :: dict_set key v r
  end.

(** [sorted(d.items())]: keys are unique in a dict, so the pairs are
    ordered by key alone; the sort is stable. *)
Fixpoint insert_item (x : string * A) (l : list (string * A))
  : list (string * A) :=
  match l with
  | [] => [x]
  | y :: r =>
      if String.leb (fst x) (fst y) then x :: l else y :: insert_item x r
  end.

Definition sorted (l : list (string * A)) : list (string * A) :=
  fold_right insert_item [] l.

End Items.

(** Keys without repetition, keys in strictly increasing order. *)
Fixpoint nodupb (ks : list string) : bool :=
  match ks with
  | [] => true
  | k :: r => negb (existsb (String.eqb k) r) && nodupb r
  end.

Fixpoint increasingb (ks : list string) : bool :=
  match ks with
  | [] => true
  | k :: r =>
    match r with
    | [] => true
    | k' :: _ => String.ltb k k' && increasingb r
    end
  end.

(** ** The tree *)

(** A value stored under a key is a leaf or a nested container
    ([isinstance(value, Container)]).  [Dict l] is the container whose items
    are [l], in insertion order. *)
#[warnings="-register-all"]
Inductive value (V C : Type) : Type :=
| Leaf (v : V)
| Sub (c : C).

Arguments Leaf {V C} v.
Arguments Sub {V C} c.

#[warnings="-register-all"]
Inductive Container (V : Type) : Type :=
| Dict (items : list (string * value V (Container V))).

Arguments Dict {V} items.

Definition node (V : Type) : Type := value V (Container V).

Definition items {V : Type} (c : Container V) : list (string * node V) :=
  match c with Dict l => l end.

(** ** Key-chain addressing *)

Section Methods.
Context {V : Type}.

(** [ret[key]] for a key that holds no ['/'] (the segments of a split
    key-chain): on a container this is [dict.__getitem__]; a leaf is not a
    mapping and subscripting it with a string raises. *)
Definition subscript (ret : node V) (key : string) : result (node V) :=
  match ret with
  | Sub c =>
      match dict_get key (items c) with
      | Some x => Ok x
      | None => Raise KeyError
      end
  | Leaf _ => Raise TypeError
  end.

(** The loop of [at_key_chain]: [for key in keys: ret = ret[key]]. *)
Fixpoint at_keys (keys : list string) (ret : node V) : result (node V) :=
  match keys with
  | [] => Ok ret
  | key :: keys' => x <- subscript ret key ;; at_keys keys' x
  end.

Definition at_key_chain (self : Container V) (key_chain : string)
  : result (node V) :=
  at_keys (split key_chain) (Sub self).

(** The loop of [has_key_chain]: only [KeyError] is caught. *)
Fixpoint has_keys (keys : list string) (ret : node V) : result bool :=
  match keys with
  | [] => Ok true
  | key :: keys' =>
      match subscript ret key with
      | Ok x => has_keys keys' x
      | Raise KeyError => Ok false
      | Raise e => Raise e
      end
  end.

Definition has_key_chain (self : Container V) (key_chain : string)
  : result bool :=
  has_keys (split key_chain) (Sub self).

(** The loop of [set_at_key_chain] over [keys[:-1]], then the assignment at
    [keys[-1]].  [cont] is mutated in place: the function returns the state
    of [cont] after the call.  When [cont[key]] is a leaf the next operation
    on it ([key not in cont], [cont[key] = ...]) raises. *)
Fixpoint set_keys (keys : list string) (last_key : string) (val : node V)
  (cont : Container V) : result (Container V) :=
  match keys with
  | [] => Ok (Dict (dict_set last_key val (items cont)))
  | key :: keys' =>
      let l :=
        if dict_contains key (items cont) then items cont
        else dict_set key (Sub (Dict [])) (items cont) in
      match dict_get key l with
      | Some (Sub child) =>
          child' <- set_keys keys' last_key val child ;;
          Ok (Dict (dict_set key (Sub child') l))
      | Some (Leaf _) => Raise TypeError
      | None => Raise KeyError
      end
  end.

(** [set_at_key_chain] returns [self], which it has mutated: the result is
    the state of [self] after the call. *)
Definition set_at_key_chain (self : Container V) (key_chain : string)
  (val : node V) : result (Container V) :=
  let keys := split key_chain in
  set_keys (removelast keys) (last keys "") val self.

(** [Container.__getitem__] for a string query. *)
Definition __getitem__ (self : Container V) (query : string) : result (node V) :=
  if has_slash query then at_key_chain self query
  else match dict_get query (items self) with
       | Some x => Ok x
       | None => Raise KeyError
       end.

(** [Container.__setitem__] *)
Definition __setitem__ (self : Container V) (query : string) (val : node V)
  : result (Container V) :=
  if has_slash query then set_at_key_chain self query val
  else Ok (Dict (dict_set query val (items self))).

(** ** Construction *)

(** [Container(dict_in)]: the items are taken in key order, nested dicts are
    wrapped, and every item is stored through [__setitem__].  The wrapped
    value is attached to each item before the sort, which looks at the keys
    only ([init_unfold] below states the loop over [sorted(items)]). *)
Fixpoint __init__ (dict_in : Container V) : result (Container V) :=
  match dict_in with
  | Dict l =>
      fold_left
        (fun acc kv =>
           self <- acc ;; val <- snd kv ;; __setitem__ self (fst kv) val)
        (sorted
           (List.map
              (fun kv =>
                 (fst kv,
                  match snd kv with
                  | Sub d => c <- __init__ d ;; Ok (Sub c)
                  | Leaf v => Ok (Leaf v)
                  end)) l))
        (Ok (Dict []))
  end.

(** ** Traversal *)

(** In the methods below the loop over [sorted(self.items())] is written as
    in [__init__]: what the body of the loop does with an item is attached
    to the item, the items are sorted, and the loop runs over the result.
    The lemmas [to_iterator_unfold], [from_flat_list_unfold] and
    [map_unfold] state each loop over [sorted l] itself. *)

(** [to_iterator]: the generator, as the list of the pairs it yields. *)
Fixpoint to_iterator (self : Container V) : list (string * V) :=
  match self with
  | Dict l =>
      flat_map snd
        (sorted
           (List.map
              (fun kv =>
                 (fst kv,
                  match snd kv with
                  | Sub c => to_iterator c
                  | Leaf v => [(fst kv, v)]
                  end)) l))
  end.

Definition to_flat_list (self : Container V) : list V :=
  List.map snd (to_iterator self).

(** [from_flat_list]: [flat_list.pop(0)] mutates the caller's list, so the
    list is threaded through and returned with the new container. *)
Fixpoint from_flat_list (self : Container V) (flat_list : list V)
  : result (Container V * list V) :=
  match self with
  | Dict l =>
      st <- fold_left
        (fun acc kv =>
           st <- acc ;;
           r <- snd kv (snd st) ;;
           Ok (dict_set (fst kv) (fst r) (fst st), snd r))
        (sorted
           (List.map
              (fun kv =>
                 (fst kv,
                  match snd kv with
                  | Sub c =>
                      fun fl =>
                        r <- from_flat_list c fl ;; Ok (Sub (fst r), snd r)
                  | Leaf _ =>
                      fun fl =>
                        match fl with
                        | [] => Raise IndexError
                        | x :: fl' => Ok (Leaf x, fl')
                        end
                  end)) l))
        (Ok ([], flat_list)) ;;
      c <- __init__ (Dict (fst st)) ;;
      Ok (c, snd st)
  end.

(** [this_key_chain in key_chains] *)
Definition in_chains (key_chain : string) (key_chains : list string) : bool :=
  existsb (String.eqb key_chain) key_chains.

(** The condition under which [map] leaves a leaf alone. *)
Definition unapplied (key_chains : option (list string)) (to_apply : bool)
  (this_key_chain : string) : bool :=
  match key_chains with
  | None => false
  | Some kcs =>
      (in_chains this_key_chain kcs && negb to_apply)
      || (negb (in_chains this_key_chain kcs) && to_apply)
  end.

(** [if ret:] on a container: a dict is true when it is not empty. *)
Definition truthy (c : Container V) : bool :=
  match items c with [] => false | _ :: _ => true end.

Fixpoint map (func : V -> string -> V) (key_chains : option (list string))
  (to_apply prune_unapplied : bool) (key_chain : string)
  (self : Container V) : result (Container V) :=
  match self with
  | Dict l =>
      return_dict <- fold_left
        (fun acc kv => return_dict <- acc ;; snd kv return_dict)
        (sorted
           (List.map
              (fun kv =>
                 let key := fst kv in
                 let this_key_chain := join_chain key_chain key in
                 (key,
                  match snd kv with
                  | Sub c =>
                      fun return_dict =>
                        ret <- map func key_chains to_apply prune_unapplied
                                 this_key_chain c ;;
                        if truthy ret
                        then Ok (dict_set key (Sub ret) return_dict)
                        else Ok return_dict
                  | Leaf v =>
                      fun return_dict =>
                        if unapplied key_chains to_apply this_key_chain
                        then
                          if prune_unapplied then Ok return_dict
                          else Ok (dict_set key (Leaf v) return_dict)
                        else
                          Ok (dict_set key (Leaf (func v this_key_chain))
                                return_dict)
                  end)) l))
        (Ok []) ;;
      __init__ (Dict return_dict)
  end.

(** [container[key]] inside [reduce], where [container] may be a leaf. *)
Definition index_by_key (container : node V) (key : string)
  : result (node V) :=
  match container with
  | Sub c => __getitem__ c key
  | Leaf _ => Raise TypeError
  end.

(** [[container[key] for container in containers]]: the first failure
    raises. *)
Fixpoint index_all (containers : list (node V)) (key : string)
  : result (list (node V)) :=
  match containers with
  | [] => Ok []
  | c :: r => x <- index_by_key c key ;; xs <- index_all r key ;; Ok (x :: xs)
  end.

(** [reduce] on a list whose first element is a leaf: the reduction is
    applied to the whole list; a failure is re-raised as [Exception], here
    [ReduceError]. *)
Definition reduce_leaves (reduction : list (node V) -> result V)
  (containers : list (node V)) : result (node V) :=
  match reduction containers with
  | Ok r => Ok (Leaf r)
  | Raise _ => Raise ReduceError
  end.

(** [reduce] on a list whose first element is the container [container0];
    [others] is [containers[1:]].  Under a key of [container0] the first
    element of the new list is the value the loop is at (keys are unique in
    a dict). *)
Fixpoint reduce_dicts (reduction : list (node V) -> result V)
  (container0 : Container V) (others : list (node V))
  : result (Container V) :=
  match container0 with
  | Dict l =>
      return_dict <- fold_left
        (fun acc kv =>
           return_dict <- acc ;;
           xs <- index_all others (fst kv) ;;
           r <- snd kv xs ;;
           Ok (dict_set (fst kv) r return_dict))
        (List.map
           (fun kv =>
              (fst kv,
               fun xs =>
                 match snd kv with
                 | Sub c =>
                     c' <- reduce_dicts reduction c xs ;; Ok (Sub c')
                 | Leaf v => reduce_leaves reduction (Leaf v :: xs)
                 end))
           l)
        (Ok []) ;;
      __init__ (Dict return_dict)
  end.

(** [Container.reduce(containers, reduction)] *)
Definition reduce (containers : list (node V))
  (reduction : list (node V) -> result V) : result (node V) :=
  match containers with
  | [] => Raise IndexError
  | Sub container0 :: others =>
      c <- reduce_dicts reduction container0 others ;; Ok (Sub c)
  | Leaf _ :: _ => reduce_leaves reduction containers
  end.

End Methods.

(** ** Consensus shape *)

(** The leaves [_get_shape] distinguishes: backend arrays (known here by
    their shape), lists and tuples, and everything else.  The function given
    to [map] returns lists of ints and [None], which are values too. *)
#[warnings="-register-all"]
Inductive pyval : Type :=
| PyNone
| PyInt (z : Z)
| PyList (xs : list pyval)
| PyArray (shape : list Z).

(** [if v] *)
Definition py_truthy (v : pyval) : bool :=
  match v with
  | PyNone => false
  | PyInt z => negb (z =? 0)%Z
  | PyList xs => match xs with [] => false | _ :: _ => true end
  | PyArray _ => true
  end.

(** [lambda x, kc: list(x.shape) if self._ivy.is_array(x)
             else ([len(x)] if isinstance(x, (list, tuple)) else None)] *)
Definition shape_or_len (x : pyval) (kc : string) : pyval :=
  match x with
  | PyArray shape => PyList (List.map PyInt shape)
  | PyList xs => PyList [PyInt (Z.of_nat (List.length xs))]
  | _ => PyNone
  end.

(** The ints of a list of ints, as numpy reads one row of [sub_shapes]. *)
Definition ints_of (v : pyval) : list Z :=
  match v with
  | PyList xs =>
      List.map (fun x => match x with PyInt z => z | _ => 0%Z end) xs
  | _ => []
  end.

(** [min(lengths)]; [min([])] raises [ValueError]. *)
Definition py_min (ns : list nat) : result nat :=
  match ns with
  | [] => Raise ValueError
  | n :: r => Ok (fold_left Nat.min r n)
  end.

(** [np.where(sub_shapes_array == 0, -1, sub_shapes_array)], on one
    entry. *)
Definition zero_to_minus_one (z : Z) : Z := if (z =? 0)%Z then (-1)%Z else z.

(** ** Binary64 arithmetic

    numpy divides the int64 array by its first row and multiplies the
    quotients in float64; the model uses Rocq's binary64 numbers, whose
    operations are those of IEEE 754. *)

(** An entry [z] of the int64 array as a float64: the nearest binary64
    number.  The entries are dimensions, below [2^63] in absolute value. *)
Definition float_of_int (z : Z) : PrimFloat.float :=
  match z with
  | Zneg p => PrimFloat.opp (PrimFloat.of_uint63 (Uint63.of_Z (Zpos p)))
  | _ => PrimFloat.of_uint63 (Uint63.of_Z z)
  end.

(** [int(i)] for a float [i]: its integer part.  [int] raises for [nan] and
    the infinities, which [_get_shape] never gives it; they are mapped to
    [0] here. *)
Definition int_of_float (i : PrimFloat.float) : Z :=
  match FloatOps.Prim2SF i with
  | SpecFloat.S754_finite s m e =>
      let a :=
        match e with
        | Zneg p => Z.shiftr (Zpos m) (Zpos p)
        | _ => Z.shiftl (Zpos m) e
        end in
      if s then Z.opp a else a
  | _ => 0%Z
  end.

(** [np.prod(column)]: the product starts from the first element and takes
    the others in order; the product of nothing is [1]. *)
Definition np_prod (column : list PrimFloat.float) : PrimFloat.float :=
  match column with
  | [] => PrimFloat.one
  | x :: r => fold_left PrimFloat.mul r x
  end.

(** One entry of the result, for the column [d] of [sub_shapes_array]:
    where [prod(column / column[0]) == 1] the entry is [column[0]], as a
    float, otherwise it is [nan]; [nan] becomes [None] and any other float
    [i] becomes [int(i)]. *)
Definition consensus_dim (sub_shapes_array : list (list Z)) (d : nat)
  : option Z :=
  let first := float_of_int (nth d (hd [] sub_shapes_array) 0%Z) in
  let ratios :=
    List.map
      (fun row => PrimFloat.div (float_of_int (nth d row 0%Z)) first)
      sub_shapes_array in
  let mask := PrimFloat.eqb (np_prod ratios) PrimFloat.one in
  let i := if mask then first else PrimFloat.nan in
  if PrimFloat.is_nan i then None else Some (int_of_float i).

Definition _get_shape (self : Container pyval) : result (list (option Z)) :=
  match items self with
  | [] => Ok [Some 0%Z]
  | _ :: _ =>
      shapes <- map shape_or_len None true false "" self ;;
      let sub_shapes :=
        List.map ints_of
          (filter py_truthy (List.map snd (to_iterator shapes))) in
      min_num_dims <- py_min (List.map (@List.length Z) sub_shapes) ;;
      let sub_shapes_array :=
        List.map
          (fun sub_shape =>
             List.map zero_to_minus_one (firstn min_num_dims sub_shape))
          sub_shapes in
      Ok (List.map (consensus_dim sub_shapes_array) (seq 0 min_num_dims))
  end.

Definition shape (self : Container pyval) : result (list (option Z)) :=
  _get_shape self.

(** ** The hierarchical binary store *)

Section Hdf5.
Context {R : Type}.

(** An h5 object: a dataset, as its rows along axis 0 ([None] where nothing
    has been written yet), or a group of named members.  A leaf of the
    container is [to_numpy(value)], as its rows along axis 0. *)
#[warnings="-register-all"]
Inductive h5 : Type :=
| H5Dataset (rows : list (option R))
| H5Group (members : list (string * h5)).

(** Python's reading of one bound of a slice on a sequence of [len]
    elements. *)
Definition clamp (len i : Z) : Z :=
  if (i <? 0)%Z then Z.max (i + len) 0 else Z.min i len.

(** [value_as_np[0:stop]] *)
Definition np_slice (rows : list R) (stop : Z) : list R :=
  firstn (Z.to_nat (clamp (Z.of_nat (List.length rows)) stop)) rows.

(** [dataset[start:stop] = vals]: the selection and the rows written must
    have the same length. *)
Definition write_rows (ds : list (option R)) (start stop : Z) (vals : list R)
  : result (list (option R)) :=
  let len := Z.of_nat (List.length ds) in
  let a := clamp len start in
  let b := Z.max a (clamp len stop) in
  if (b - a =? Z.of_nat (List.length vals))%Z
  then Ok (firstn (Z.to_nat a) ds ++ List.map Some vals
             ++ skipn (Z.to_nat b) ds)
  else Raise H5Error.

(** [h5_obj.keys()] and friends: only a group has members. *)
Definition members_of (h5_obj : h5) : result (list (string * h5)) :=
  match h5_obj with
  | H5Group ms => Ok ms
  | H5Dataset _ => Raise H5Error
  end.

(** [not max_batch_size] *)
Definition unspecified (max_batch_size : option Z) : bool :=
  match max_batch_size with
  | None => true
  | Some m => (m =? 0)%Z
  end.

(** The leaf branch of the loop of [to_disk_as_hdf5]; the local
    [max_batch_size] is assigned in it and is part of the loop state. *)
Definition write_leaf (key : string) (value_as_np : list R)
  (starting_index : Z) (st : h5 * option Z) : result (h5 * option Z) :=
  ms <- members_of (fst st) ;;
  let this_batch_size := Z.of_nat (List.length value_as_np) in
  let max_batch_size :=
    if unspecified (snd st) then (starting_index + this_batch_size)%Z
    else match snd st with Some m => m | None => 0%Z end in
  ms <- (if dict_contains key ms then Ok ms
         else if (max_batch_size <? 0)%Z then Raise H5Error
         else Ok (ms ++ [(key,
                          H5Dataset (repeat None (Z.to_nat max_batch_size)))]))
  ;;
  let space_left := (max_batch_size - starting_index)%Z in
  let amount_to_write := Z.min this_batch_size space_left in
  match dict_get key ms with
  | Some (H5Dataset ds) =>
      ds' <- write_rows ds starting_index
               (starting_index + amount_to_write)
               (np_slice value_as_np amount_to_write) ;;
      Ok (H5Group (dict_set key (H5Dataset ds') ms), Some max_batch_size)
  | Some (H5Group _) => Raise H5Error
  | None => Raise KeyError
  end.

(** [to_disk_as_hdf5(self, h5_obj, starting_index, mode, max_batch_size)] on
    an h5 object; the object is mutated in place and returned here.  The
    loop state is the object and the local [max_batch_size]; a nested
    container is written with the [max_batch_size] the loop has at that
    point. *)
Fixpoint to_disk_as_hdf5 (self : Container (list R)) (h5_obj : h5)
  (starting_index : Z) (max_batch_size : option Z) : result h5 :=
  match self with
  | Dict l =>
      st <- fold_left
        (fun acc kv => st <- acc ;; snd kv st)
        (sorted
           (List.map
              (fun kv =>
                 let key := fst kv in
                 (key,
                  match snd kv with
                  | Sub c =>
                      fun st : h5 * option Z =>
                        ms <- members_of (fst st) ;;
                        let ms' :=
                          if dict_contains key ms then ms
                          else ms ++ [(key, H5Group [])] in
                        match dict_get key ms' with
                        | Some h5_group =>
                            g <- to_disk_as_hdf5 c h5_group starting_index
                                   (snd st) ;;
                            Ok (H5Group (dict_set key g ms'), snd st)
                        | None => Raise KeyError
                        end
                  | Leaf value_as_np =>
                      write_leaf key value_as_np starting_index
                  end)) l))
        (Ok (h5_obj, max_batch_size)) ;;
      Ok (fst st)
  end.

End Hdf5.

Arguments h5 R : clear implicits.

(** ** Well-formed containers *)

Section Invariants.
Context {V : Type}.

(** What every dict-backed container satisfies: at every level the keys are
    distinct, and none holds a ['/'] ([__setitem__] sends such a key through
    [set_at_key_chain], so it is never stored). *)
Fixpoint wfb (c : Container V) : bool :=
  match c with
  | Dict l =>
      nodupb (keys l)
      && forallb
           (fun kv =>
              negb (has_slash (fst kv))
              && match snd kv with
                 | Sub c' => wfb c'
                 | Leaf _ => true
                 end) l
  end.

(** What the constructor establishes on top of that: the items of every
    level are in key order. *)
Fixpoint canonicalb (c : Container V) : bool :=
  match c with
  | Dict l =>
      increasingb (keys l)
      && forallb
           (fun kv =>
              negb (has_slash (fst kv))
              && match snd kv with
                 | Sub c' => canonicalb c'
                 | Leaf _ => true
                 end) l
  end.

(** The container with the items of every level listed in key order: the
    same keys and the same values, whatever the insertion order was. *)
Fixpoint canon (c : Container V) : Container V :=
  match c with
  | Dict l =>
      Dict
        (sorted
           (List.map
              (fun kv =>
                 (fst kv,
                  match snd kv with
                  | Sub c' => Sub (canon c')
                  | Leaf v => Leaf v
                  end)) l))
  end.

(** Two containers hold the same mapping. *)
Definition same_dict (a b : Container V) : Prop := canon a = canon b.

(** The number of leaves. *)
Fixpoint n_leaves (c : Container V) : nat :=
  match c with
  | Dict l =>
      list_sum
        (List.map
           (fun kv =>
              match snd kv with
              | Sub c' => n_leaves c'
              | Leaf _ => 1
              end) l)
  end.

(** No container below the root is left empty by [map]: every nested
    container has an item, and so on below it. *)
Fixpoint no_empty_subb (c : Container V) : bool :=
  match c with
  | Dict l =>
      forallb
        (fun kv =>
           match snd kv with
           | Sub c' => truthy c' && no_empty_subb c'
           | Leaf _ => true
           end) l
  end.

(** The leaves in the order of [to_iterator], each with the list of the keys
    that lead to it from the root. *)
Fixpoint leaf_paths (c : Container V) : list (list string * V) :=
  match c with
  | Dict l =>
      flat_map snd
        (sorted
           (List.map
              (fun kv =>
                 (fst kv,
                  match snd kv with
                  | Sub c' =>
                      List.map (fun pv => (fst kv :: fst pv, snd pv))
                        (leaf_paths c')
                  | Leaf v => [([fst kv], v)]
                  end)) l))
  end.

(** Following the spec's words for [to_iterator]: the pairs
    [(path, value)], where [path] is the key-chain of the leaf from the
    root, accumulated as [map] accumulates it. *)
Fixpoint to_iterator_chains (key_chain : string) (c : Container V)
  : list (string * V) :=
  match c with
  | Dict l =>
      flat_map snd
        (sorted
           (List.map
              (fun kv =>
                 (fst kv,
                  match snd kv with
                  | Sub c' =>
                      to_iterator_chains (join_chain key_chain (fst kv)) c'
                  | Leaf v => [(join_chain key_chain (fst kv), v)]
                  end)) l))
  end.

(** The test of [map], the other way round: the leaf at the key chain [p]
    is given to the function. *)
Definition selected (key_chains : option (list string)) (to_apply : bool)
  (p : string) : bool :=
  match key_chains with
  | None => true
  | Some kcs => Bool.eqb (in_chains p kcs) to_apply
  end.

(** What [map] makes of one leaf, with the key chain it has accumulated
    for it. *)
Definition map_leaf (func : V -> string -> V)
  (key_chains : option (list string)) (to_apply prune_unapplied : bool)
  (pv : string * V) : list (string * V) :=
  if selected key_chains to_apply (fst pv)
  then [(fst pv, func (snd pv) (fst pv))]
  else if prune_unapplied then [] else [pv].

(** [o[key]] as a lookup, for [covers]. *)
Definition child_of (o : node V) (key : string) : option (node V) :=
  match o with
  | Sub c => dict_get key (items c)
  | Leaf _ => None
  end.

(** Every key of [c0] is a key of [o], and so on below the nested
    containers of [c0]; [o] may have more keys. *)
Fixpoint covers (c0 : Container V) (o : node V) : bool :=
  match c0 with
  | Dict l =>
      forallb
        (fun kv =>
           match child_of o (fst kv) with
           | Some y =>
               match snd kv with
               | Sub c => covers c y
               | Leaf _ => true
               end
           | None => false
           end) l
  end.

(** The topology: the tree with its leaf values forgotten. *)
Fixpoint topology (c : Container V) : Container unit :=
  match c with
  | Dict l =>
      Dict
        (List.map
           (fun kv =>
              (fst kv,
               match snd kv with
               | Sub c' => Sub (topology c')
               | Leaf _ => Leaf tt
               end)) l)
  end.

End Invariants.

(** Paths in lexicographic order, key by key. *)
Fixpoint path_ltb (p q : list string) : bool :=
  match p, q with
  | [], [] => false
  | [], _ :: _ => true
  | _ :: _, [] => false
  | a :: p', b :: q' =>
      String.ltb a b || (String.eqb a b && path_ltb p' q')
  end.

(** ** Auxiliary notions for the proofs *)

(** The strict order on keys. *)
Definition slt (a b : string) : Prop := String.ltb a b = true.

(** [increasingb], as a relation between each key and all the later ones. *)
Inductive increasing : list string -> Prop :=
| increasing_nil : increasing []
| increasing_cons k r :
    Forall (slt k) r -> increasing r -> increasing (k :: r).

(** [P] holds of every container nested directly in [l]. *)
Definition nested {V : Type} (P : Container V -> Prop)
  (l : list (string * node V)) : Prop :=
  forall k c, In (k, Sub c) l -> P c.

(** What the constructor stores for one value of [dict_in]. *)
Definition wrap {V : Type} (x : node V) : result (node V) :=
  match x with
  | Sub d => c <- __init__ d ;; Ok (Sub c)
  | Leaf v => Ok (Leaf v)
  end.

(** [canon] on one value. *)
Definition canon_node {V : Type} (x : node V) : node V :=
  match x with
  | Sub c => Sub (canon c)
  | Leaf v => Leaf v
  end.


(** The bodies of the loops over [sorted(self.items())], one item at a
    time. *)
Definition iter_item {V : Type} (kv : string * node V) : list (string * V) :=
  match snd kv with
  | Sub c => to_iterator c
  | Leaf v => [(fst kv, v)]
  end.

Definition take_item {V : Type} (x : node V)
  : list V -> result (node V * list V) :=
  match x with
  | Sub c =>
      fun flat_list =>
        r <- from_flat_list c flat_list ;; Ok (Sub (fst r), snd r)
  | Leaf _ =>
      fun flat_list =>
        match flat_list with
        | [] => Raise IndexError
        | v :: flat_list' => Ok (Leaf v, flat_list')
        end
  end.

Definition take_step {V : Type}
  (acc : result (list (string * node V) * list V)) (kv : string * node V)
  : result (list (string * node V) * list V) :=
  st <- acc ;;
  r <- take_item (snd kv) (snd st) ;;
  Ok (dict_set (fst kv) (fst r) (fst st), snd r).

Definition count_item {V : Type} (kv : string * node V) : nat :=
  match snd kv with
  | Sub c => n_leaves c
  | Leaf _ => 1
  end.


(** ** Examples *)

(** The tree [{"a": {"x": [1,2,3]}, "b": [4,5]}] of the spec, with ["b"]
    inserted first. *)
Definition tree_ab : Container (list Z) :=
  Dict [("b", Leaf [4; 5]%Z); ("a", Sub (Dict [("x", Leaf [1; 2; 3]%Z)]))].


Definition path_item {V : Type} (kv : string * node V)
  : list (list string * V) :=
  match snd kv with
  | Sub c => List.map (fun pv => (fst kv :: fst pv, snd pv)) (leaf_paths c)
  | Leaf v => [([fst kv], v)]
  end.

Definition chain_item {V : Type} (key_chain : string) (kv : string * node V)
  : list (string * V) :=
  match snd kv with
  | Sub c => to_iterator_chains (join_chain key_chain (fst kv)) c
  | Leaf v => [(join_chain key_chain (fst kv), v)]
  end.

Definition path_lt (p q : list string) : Prop := path_ltb p q = true.

(** The key under which the leaf at the end of a path is stored. *)
Definition own_key {V : Type} (pv : list string * V) : string * V :=
  (last (fst pv) "", snd pv).


(** Every segment of [keys] that exists in [cont] is a container: the walk
    of [set_at_key_chain] does not run into a leaf. *)
Fixpoint branches_along {V : Type} (keys : list string) (cont : Container V)
  : bool :=
  match keys with
  | [] => true
  | key :: keys' =>
      match dict_get key (items cont) with
      | Some (Sub child) => branches_along keys' child
      | Some (Leaf _) => false
      | None => true
      end
  end.

(** The path [q] leaves the path [p] at some segment. *)
Fixpoint diverges (p q : list string) : bool :=
  match p, q with
  | a :: p', b :: q' => if String.eqb a b then diverges p' q' else true
  | _, _ => false
  end.

(** The container [{"a": 1}]. *)
Definition tree_a1 : Container Z := Dict [("a", Leaf 1%Z)].


(** The body of the loop of [map] for one item. *)
Definition map_item {V : Type} (func : V -> string -> V)
  (key_chains : option (list string)) (to_apply prune_unapplied : bool)
  (key_chain : string) (kv : string * node V)
  : list (string * node V) -> result (list (string * node V)) :=
  let key := fst kv in
  let this_key_chain := join_chain key_chain key in
  match snd kv with
  | Sub c =>
      fun return_dict =>
        ret <- map func key_chains to_apply prune_unapplied
                 this_key_chain c ;;
        if truthy ret
        then Ok (dict_set key (Sub ret) return_dict)
        else Ok return_dict
  | Leaf v =>
      fun return_dict =>
        if unapplied key_chains to_apply this_key_chain
        then
          if prune_unapplied then Ok return_dict
          else Ok (dict_set key (Leaf v) return_dict)
        else
          Ok (dict_set key (Leaf (func v this_key_chain)) return_dict)
  end.

Definition map_step {V : Type} (func : V -> string -> V)
  (key_chains : option (list string)) (to_apply prune_unapplied : bool)
  (key_chain : string) (acc : result (list (string * node V)))
  (kv : string * node V) : result (list (string * node V)) :=
  return_dict <- acc ;;
  map_item func key_chains to_apply prune_unapplied key_chain kv return_dict.

(** [lambda x, kc: x] *)
Definition identity {V : Type} (x : V) (kc : string) : V := x.

(** The container [{"a": {}}]. *)
Definition tree_hollow : Container Z := Dict [("a", Sub (Dict []))].


(** The body of the loop of [reduce] for one key of [container0]. *)
Definition reduce_item {V : Type} (reduction : list (node V) -> result V)
  (x : node V) (xs : list (node V)) : result (node V) :=
  match x with
  | Sub c => c' <- reduce_dicts reduction c xs ;; Ok (Sub c')
  | Leaf v => reduce_leaves reduction (Leaf v :: xs)
  end.

Definition reduce_step {V : Type} (reduction : list (node V) -> result V)
  (others : list (node V)) (acc : result (list (string * node V)))
  (kv : string * node V) : result (list (string * node V)) :=
  return_dict <- acc ;;
  xs <- index_all others (fst kv) ;;
  r <- reduce_item reduction (snd kv) xs ;;
  Ok (dict_set (fst kv) r return_dict).

(** The leaf [pr] of the result is the reduction of the leaf [pv] of the
    first tree and of what the other trees hold at the same path. *)
Definition reduced_leaf {V : Type} (reduction : list (node V) -> result V)
  (others : list (node V)) (pv pr : list string * V) : Prop :=
  fst pr = fst pv
  /\ exists xs,
       Forall2 (fun o x => at_keys (fst pv) o = Ok x) others xs
       /\ reduction (Leaf (snd pv) :: xs) = Ok (snd pr).

(** [sum], on a list of integer leaves. *)
Fixpoint sum_leaves (xs : list (node Z)) : result Z :=
  match xs with
  | [] => Ok 0%Z
  | Leaf z :: r => s <- sum_leaves r ;; Ok (z + s)%Z
  | Sub _ :: _ => Raise TypeError
  end.

(** [{"a": 1, "b": 3}] and [{"a": 2}]. *)
Definition tree_a1b3 : Container Z := Dict [("a", Leaf 1%Z); ("b", Leaf 3%Z)].
Definition tree_a2 : Container Z := Dict [("a", Leaf 2%Z)].


(** What the loop of [reduce] stores for the item [kv] of the first tree. *)
Definition reduced_item {V : Type} (reduction : list (node V) -> result V)
  (others : list (node V)) (kv kr : string * node V) : Prop :=
  fst kr = fst kv
  /\ (forall c, snd kr = Sub c -> canonicalb c = true)
  /\ Forall2 (reduced_leaf reduction others) (path_item kv) (path_item kr).


(** ** What the claims say about [shape] *)

(** The dimensions of a leaf that is an array or a sequence; the empty list
    for an array of rank 0 and for any other leaf. *)
Definition leaf_dims (x : pyval) : list Z :=
  match x with
  | PyArray shape => shape
  | PyList xs => [Z.of_nat (List.length xs)]
  | _ => []
  end.

Definition nonnil {A : Type} (l : list A) : bool :=
  match l with [] => false | _ :: _ => true end.

(** The shapes [_get_shape] works on: those of the array and sequence
    leaves of rank 1 or more, in the order of the iterator. *)
Definition ranked_shapes (T : Container pyval) : list (list Z) :=
  filter nonnil (List.map leaf_dims (to_flat_list T)).








(** [max_batch_size] as the loop of [to_disk_as_hdf5] has it after a leaf of
    [this_batch_size] rows. *)
Definition effective_max (starting_index : Z) (max_batch_size : option Z)
  (this_batch_size : Z) : Z :=
  if unspecified max_batch_size then (starting_index + this_batch_size)%Z
  else match max_batch_size with Some m => m | None => 0%Z end.

(** A container with one batch of three rows under ["a"]; a container with
    a batch of two rows under ["a"] and a batch of three under ["b"]. *)
Definition batch_of_3 : Container (list Z) := Dict [("a", Leaf [10; 11; 12]%Z)].

Definition batches_2_3 : Container (list Z) :=
  Dict [("a", Leaf [10; 11]%Z); ("b", Leaf [20; 21; 22]%Z)].


(** ** Further methods *)

(** [Container.__contains__] for a string key. *)
Definition __contains__ {V : Type} (self : Container V) (key : string)
  : result bool :=
  if has_slash key then has_key_chain self key
  else Ok (dict_contains key (items self)).

(** [if_exists]: [self[key]], and [None] when the lookup raises [KeyError].
    [none] is the value [None] among the leaves: what [if_exists] returns
    then is the value a leaf that holds [None] has. *)
Definition if_exists {V : Type} (none : V) (self : Container V)
  (key : string) : result (node V) :=
  match __getitem__ self key with
  | Ok x => Ok x
  | Raise KeyError => Ok (Leaf none)
  | Raise e => Raise e
  end.


(** [to_dict]: the nested plain dict of the container; a leaf stored under
    the key ['_f'] is left out.  Dicts and containers share one type
    here. *)
Fixpoint to_dict {V : Type} (self : Container V) : Container V :=
  match self with
  | Dict l =>
      Dict
        (fold_left
           (fun return_dict kv => snd kv return_dict)
           (sorted
              (List.map
                 (fun kv =>
                    let key := fst kv in
                    (key,
                     match snd kv with
                     | Sub c =>
                         fun return_dict =>
                           dict_set key (Sub (to_dict c)) return_dict
                     | Leaf v =>
                         fun return_dict =>
                           if negb (String.eqb key "_f")
                           then dict_set key (Leaf v) return_dict
                           else return_dict
                     end)) l))
           [])
  end.

(** [copy]: [Container(self.to_dict())] *)
Definition copy {V : Type} (self : Container V) : result (Container V) :=
  __init__ (to_dict self).

(** The body of the loop of [to_dict] for one item. *)
Definition to_dict_item {V : Type} (kv : string * node V)
  : list (string * node V) -> list (string * node V) :=
  let key := fst kv in
  match snd kv with
  | Sub c => fun return_dict => dict_set key (Sub (to_dict c)) return_dict
  | Leaf v =>
      fun return_dict =>
        if negb (String.eqb key "_f")
        then dict_set key (Leaf v) return_dict
        else return_dict
  end.

(** What [to_dict] keeps of one item. *)
Definition to_dict_keep {V : Type} (kv : string * node V)
  : list (string * node V) :=
  match snd kv with
  | Sub c => [(fst kv, Sub (to_dict c))]
  | Leaf v => if negb (String.eqb (fst kv) "_f") then [(fst kv, Leaf v)] else []
  end.

(** No leaf is stored under the key ['_f']. *)
Fixpoint no_f_leafb {V : Type} (c : Container V) : bool :=
  match c with
  | Dict l =>
      forallb
        (fun kv =>
           match snd kv with
           | Sub c' => no_f_leafb c'
           | Leaf _ => negb (String.eqb (fst kv) "_f")
           end) l
  end.

(** Each item is kept under its own key, or dropped. *)
Definition keeps_key {V W : Type} (keep : string * V -> list (string * W))
  (l : list (string * V)) : Prop :=
  forall kv, In kv l -> keep kv = [] \/ exists x, keep kv = [(fst kv, x)].


(** ** Pruning *)

(** [prune_empty]: [None] stands for the bare [return]. *)
Fixpoint prune_empty {V : Type} (self : Container V)
  : result (option (Container V)) :=
  match self with
  | Dict l =>
      out_dict <- fold_left
        (fun acc kv => out_dict <- acc ;; snd kv out_dict)
        (sorted
           (List.map
              (fun kv =>
                 let key := fst kv in
                 (key,
                  match snd kv with
                  | Sub value =>
                      fun out_dict =>
                        new_value <- prune_empty value ;;
                        match new_value with
                        | Some c =>
                            if truthy c
                            then Ok (dict_set key (Sub c) out_dict)
                            else Ok out_dict
                        | None => Ok out_dict
                        end
                  | Leaf v =>
                      fun out_dict => Ok (dict_set key (Leaf v) out_dict)
                  end)) l))
        (Ok []) ;;
      match out_dict with
      | [] => Ok None
      | _ :: _ => c <- __init__ (Dict out_dict) ;; Ok (Some c)
      end
  end.

(** The body of the loop of [prune_empty] for one item. *)
Definition prune_empty_item {V : Type} (kv : string * node V)
  : list (string * node V) -> result (list (string * node V)) :=
  let key := fst kv in
  match snd kv with
  | Sub value =>
      fun out_dict =>
        new_value <- prune_empty value ;;
        match new_value with
        | Some c =>
            if truthy c
            then Ok (dict_set key (Sub c) out_dict)
            else Ok out_dict
        | None => Ok out_dict
        end
  | Leaf v => fun out_dict => Ok (dict_set key (Leaf v) out_dict)
  end.

Definition prune_empty_step {V : Type}
  (acc : result (list (string * node V))) (kv : string * node V)
  : result (list (string * node V)) :=
  out_dict <- acc ;; prune_empty_item kv out_dict.

(** What [prune_empty] keeps of one item. *)
Definition prune_empty_keep {V : Type} (kv : string * node V)
  : list (string * node V) :=
  match snd kv with
  | Sub value =>
      match prune_empty value with
      | Ok (Some c) => if truthy c then [(fst kv, Sub c)] else []
      | _ => []
      end
  | Leaf v => [(fst kv, Leaf v)]
  end.

(** The container that stands for what [prune_empty] returned: the empty
    container for [None]. *)
Definition or_empty {V : Type} (r : option (Container V)) : Container V :=
  match r with
  | Some c => c
  | None => Dict []
  end.


(** What [prune_empty] returns for a container: [map] with the identity
    makes the same container of it, and a container that is returned is not
    empty, is in constructor order, has no empty container nested in it and
    holds the leaves that the container holds. *)
Definition pruned {V : Type} (c : Container V) (r : option (Container V))
  : Prop :=
  (forall kc, map identity None true false kc c = Ok (or_empty r))
  /\ match r with
     | None => to_iterator c = []
     | Some c' =>
         truthy c' = true /\ canonicalb c' = true
         /\ no_empty_subb c' = true
         /\ to_iterator c' = to_iterator c /\ to_iterator c <> []
     end.

(** A container that [prune_empty] stores under a key. *)
Definition kept_sub {V : Type} (c : Container V) : Prop :=
  truthy c = true /\ canonicalb c = true /\ no_empty_subb c = true
  /\ to_iterator c <> [].


(** [prune_key_chain]: [keys_in_chain[0]] exists, [split] is never empty;
    [len(new_val) > 0] on a container or a dict is [truthy]; the empty list
    [new_val = []] of a chain of one key is never stored. *)
Fixpoint prune_key_chain {V : Type} (self : Container V) (key_chain : string)
  : result (Container V) :=
  match self with
  | Dict l =>
      let keys_in_chain := split key_chain in
      out_dict <- fold_left
        (fun acc kv => out_dict <- acc ;; snd kv out_dict)
        (sorted
           (List.map
              (fun kv =>
                 let key := fst kv in
                 (key,
                  match snd kv with
                  | Sub value =>
                      fun out_dict =>
                        if String.eqb key (hd "" keys_in_chain) then
                          if Nat.eqb (List.length keys_in_chain) 1
                          then Ok out_dict
                          else
                            new_val <- prune_key_chain value
                                         (String.concat "/"
                                            (tl keys_in_chain)) ;;
                            if truthy new_val
                            then Ok (dict_set key (Sub new_val) out_dict)
                            else Ok out_dict
                        else
                          let new_val := to_dict value in
                          if truthy new_val
                          then Ok (dict_set key (Sub (to_dict value)) out_dict)
                          else Ok out_dict
                  | Leaf v =>
                      fun out_dict =>
                        if negb (Nat.eqb (List.length keys_in_chain) 1)
                           || negb (String.eqb key (hd "" keys_in_chain))
                        then Ok (dict_set key (Leaf v) out_dict)
                        else Ok out_dict
                  end)) l))
        (Ok []) ;;
      __init__ (Dict out_dict)
  end.

(** The body of the loop of [prune_key_chain] for one item. *)
Definition prune_key_chain_item {V : Type} (keys_in_chain : list string)
  (kv : string * node V)
  : list (string * node V) -> result (list (string * node V)) :=
  let key := fst kv in
  match snd kv with
  | Sub value =>
      fun out_dict =>
        if String.eqb key (hd "" keys_in_chain) then
          if Nat.eqb (List.length keys_in_chain) 1
          then Ok out_dict
          else
            new_val <- prune_key_chain value
                         (String.concat "/" (tl keys_in_chain)) ;;
            if truthy new_val
            then Ok (dict_set key (Sub new_val) out_dict)
            else Ok out_dict
        else
          let new_val := to_dict value in
          if truthy new_val
          then Ok (dict_set key (Sub (to_dict value)) out_dict)
          else Ok out_dict
  | Leaf v =>
      fun out_dict =>
        if negb (Nat.eqb (List.length keys_in_chain) 1)
           || negb (String.eqb key (hd "" keys_in_chain))
        then Ok (dict_set key (Leaf v) out_dict)
        else Ok out_dict
  end.

Definition prune_key_chain_step {V : Type} (keys_in_chain : list string)
  (acc : result (list (string * node V))) (kv : string * node V)
  : result (list (string * node V)) :=
  out_dict <- acc ;; prune_key_chain_item keys_in_chain kv out_dict.

(** What [prune_key_chain] keeps of one item. *)
Definition prune_key_chain_keep {V : Type} (keys_in_chain : list string)
  (kv : string * node V) : list (string * node V) :=
  let key := fst kv in
  match snd kv with
  | Sub value =>
      if String.eqb key (hd "" keys_in_chain) then
        if Nat.eqb (List.length keys_in_chain) 1 then []
        else
          match prune_key_chain value (String.concat "/" (tl keys_in_chain))
          with
          | Ok new_val => if truthy new_val then [(key, Sub new_val)] else []
          | Raise _ => []
          end
      else if truthy (to_dict value) then [(key, Sub (to_dict value))] else []
  | Leaf v =>
      if negb (Nat.eqb (List.length keys_in_chain) 1)
         || negb (String.eqb key (hd "" keys_in_chain))
      then [(key, Leaf v)]
      else []
  end.

(** The key chain [keys] is not in what was made of [c]: looking it up
    raises, with a [KeyError] when it was in [c]. *)
Definition chain_pruned {V : Type} (keys : list string) (c c' : Container V)
  : Prop :=
  canonicalb c' = true
  /\ (exists e, at_keys keys (Sub c') = Raise e)
  /\ (forall x, at_keys keys (Sub c) = Ok x ->
                at_keys keys (Sub c') = Raise KeyError).

Definition tree_abc : Container Z :=
  Dict [("a", Sub (Dict [("b", Sub (Dict [("c", Leaf 1%Z)])); ("d", Leaf 2%Z)]));
        ("e", Leaf 3%Z)].


(** The path [path] of a leaf begins with the keys [keys] of a chain. *)
Fixpoint under_chain (keys path : list string) : bool :=
  match keys, path with
  | [], _ => true
  | k :: keys', p :: path' => String.eqb k p && under_chain keys' path'
  | _ :: _, [] => false
  end.

(** The leaves that are not below a key chain. *)
Definition outside {V : Type} (keys : list string) (pv : list string * V)
  : bool :=
  negb (under_chain keys (fst pv)).


(** ** Sub-containers at key chains *)

(** [_at_key_chains_input_as_seq]: each key chain is looked up in [self] and
    stored at the same key chain of a container that starts empty. *)
Definition _at_key_chains_input_as_seq {V : Type} (self : Container V)
  (key_chains : list string) : result (Container V) :=
  fold_left
    (fun acc kc =>
       return_cont <- acc ;;
       x <- at_key_chain self kc ;;
       set_at_key_chain return_cont kc x)
    key_chains (Ok (Dict [])).


(** ** Reading the hierarchical binary store *)

(** [list(value[slice_obj])] on a dataset, for a slice object
    [slice(start, stop)] with [None] for a bound that is left out: the rows
    selected, a row that was never written reading as the fill value of the
    dataset. *)
Definition read_rows {R : Type} (fill : R) (ds : list (option R))
  (slice_obj : option Z * option Z) : list R :=
  let len := Z.of_nat (List.length ds) in
  let a := match fst slice_obj with Some i => clamp len i | None => 0%Z end in
  let b := match snd slice_obj with Some i => clamp len i | None => len end in
  List.map (fun r => match r with Some x => x | None => fill end)
    (skipn (Z.to_nat a) (firstn (Z.to_nat b) ds)).

(** [from_disk_as_hdf5] on an h5 object: a group is read as a container, a
    dataset as a leaf; the items are read in key order and the dict is
    given to the constructor.  An h5 object here has groups and datasets
    only, and only a group has items. *)
Fixpoint from_disk_as_hdf5 {R : Type} (fill : R) (h5_obj : h5 R)
  (slice_obj : option Z * option Z) : result (Container (list R)) :=
  match h5_obj with
  | H5Group ms =>
      container_dict <- fold_left
        (fun acc kv =>
           container_dict <- acc ;;
           x <- snd kv ;;
           Ok (dict_set (fst kv) x container_dict))
        (sorted
           (List.map
              (fun kv =>
                 (fst kv,
                  match snd kv with
                  | H5Group _ =>
                      c <- from_disk_as_hdf5 fill (snd kv) slice_obj ;;
                      Ok (Sub c)
                  | H5Dataset rows =>
                      Ok (Leaf (read_rows fill rows slice_obj))
                  end)) ms))
        (Ok []) ;;
      __init__ (Dict container_dict)
  | H5Dataset _ => Raise H5Error
  end.

(** The body of the loop of [from_disk_as_hdf5] for one item. *)
Definition from_disk_item {R : Type} (fill : R)
  (slice_obj : option Z * option Z) (kv : string * h5 R)
  : result (node (list R)) :=
  match snd kv with
  | H5Group _ => c <- from_disk_as_hdf5 fill (snd kv) slice_obj ;; Ok (Sub c)
  | H5Dataset rows => Ok (Leaf (read_rows fill rows slice_obj))
  end.

Definition from_disk_step {R : Type} (fill : R)
  (slice_obj : option Z * option Z)
  (acc : result (list (string * node (list R)))) (kv : string * h5 R)
  : result (list (string * node (list R))) :=
  container_dict <- acc ;;
  x <- from_disk_item fill slice_obj kv ;;
  Ok (dict_set (fst kv) x container_dict).

(** The body of the loop of [to_disk_as_hdf5] for one item. *)
Definition to_disk_item {R : Type} (starting_index : Z)
  (kv : string * node (list R)) : h5 R * option Z -> result (h5 R * option Z) :=
  let key := fst kv in
  match snd kv with
  | Sub c =>
      fun st : h5 R * option Z =>
        ms <- members_of (fst st) ;;
        let ms' :=
          if dict_contains key ms then ms
          else ms ++ [(key, H5Group [])] in
        match dict_get key ms' with
        | Some h5_group =>
            g <- to_disk_as_hdf5 c h5_group starting_index (snd st) ;;
            Ok (H5Group (dict_set key g ms'), snd st)
        | None => Raise KeyError
        end
  | Leaf value_as_np => write_leaf key value_as_np starting_index
  end.

Definition to_disk_step {R : Type} (starting_index : Z)
  (acc : result (h5 R * option Z)) (kv : string * node (list R))
  : result (h5 R * option Z) :=
  st <- acc ;; to_disk_item starting_index kv st.

(** The h5 object that holds a container whose batches are written in
    full: a group for each container, a dataset with the rows of the batch
    for each leaf, in key order. *)
Fixpoint h5_of {R : Type} (c : Container (list R)) : h5 R :=
  match c with
  | Dict l =>
      H5Group
        (sorted
           (List.map
              (fun kv =>
                 (fst kv,
                  match snd kv with
                  | Sub c' => h5_of c'
                  | Leaf rows => H5Dataset (List.map Some rows)
                  end)) l))
  end.

Definition h5_item {R : Type} (kv : string * node (list R)) : h5 R :=
  match snd kv with
  | Sub c' => h5_of c'
  | Leaf rows => H5Dataset (List.map Some rows)
  end.

(** [max_batch_size] is not given, or is the size of every batch. *)
Definition fits (n : nat) (max_batch_size : option Z) : Prop :=
  unspecified max_batch_size = true \/ max_batch_size = Some (Z.of_nat n).


(** [_prune_key_chains_input_as_seq]: the key chains are pruned one after
    the other from a copy of the container. *)
Definition _prune_key_chains_input_as_seq {V : Type} (self : Container V)
  (key_chains : list string) : result (Container V) :=
  return_cont <- copy self ;;
  fold_left
    (fun acc kc => return_cont <- acc ;; prune_key_chain return_cont kc)
    key_chains (Ok return_cont).

(** The leaves that are below none of the key chains. *)
Definition outside_all {V : Type} (key_chains : list string)
  (pv : list string * V) : bool :=
  forallb (fun kc => outside (split kc) pv) key_chains.

(** No leaf is stored under ['_f'], said of the paths of the leaves. *)
Definition no_f_path {V : Type} (pv : list string * V) : Prop :=
  last (fst pv) "" <> "_f".


(** ** Slicing at a key *)

(** [slice_via_key]: the loop returns the value stored under [slice_key] as
    soon as it meets the key; the state of the loop is [return_dict] and
    the value returned, if the loop has returned. *)
Fixpoint slice_via_key {V : Type} (self : Container V) (slice_key : string)
  : result (node V) :=
  match self with
  | Dict l =>
      st <- fold_left
        (fun acc kv =>
           st <- acc ;;
           match snd st with
           | Some _ => Ok st
           | None => snd kv (fst st)
           end)
        (sorted
           (List.map
              (fun kv =>
                 let key := fst kv in
                 (key,
                  match snd kv with
                  | Sub value =>
                      fun return_dict : list (string * node V) =>
                        if String.eqb key slice_key
                        then Ok (return_dict, Some (Sub value))
                        else
                          r <- slice_via_key value slice_key ;;
                          Ok (dict_set key r return_dict, None)
                  | Leaf v =>
                      fun return_dict : list (string * node V) =>
                        if String.eqb key slice_key
                        then Ok (return_dict, Some (Leaf v))
                        else Ok (dict_set key (Leaf v) return_dict, None)
                  end)) l))
        (Ok ([], None)) ;;
      match snd st with
      | Some value => Ok value
      | None => c <- __init__ (Dict (fst st)) ;; Ok (Sub c)
      end
  end.

(** The body of the loop of [slice_via_key] for one item. *)
Definition slice_item {V : Type} (slice_key : string) (kv : string * node V)
  : list (string * node V)
    -> result (list (string * node V) * option (node V)) :=
  let key := fst kv in
  match snd kv with
  | Sub value =>
      fun return_dict : list (string * node V) =>
        if String.eqb key slice_key
        then Ok (return_dict, Some (Sub value))
        else
          r <- slice_via_key value slice_key ;;
          Ok (dict_set key r return_dict, None)
  | Leaf v =>
      fun return_dict : list (string * node V) =>
        if String.eqb key slice_key
        then Ok (return_dict, Some (Leaf v))
        else Ok (dict_set key (Leaf v) return_dict, None)
  end.

Definition slice_step {V : Type} (slice_key : string)
  (acc : result (list (string * node V) * option (node V)))
  (kv : string * node V)
  : result (list (string * node V) * option (node V)) :=
  st <- acc ;;
  match snd st with
  | Some _ => Ok st
  | None => slice_item slice_key kv (fst st)
  end.

(** The key is the key of no item, in the container or below it. *)
Fixpoint absentb {V : Type} (key : string) (c : Container V) : bool :=
  match c with
  | Dict l =>
      forallb
        (fun kv =>
           negb (String.eqb (fst kv) key)
           && match snd kv with
              | Sub c' => absentb key c'
              | Leaf _ => true
              end) l
  end.

Definition absent_item {V : Type} (key : string) (kv : string * node V)
  : bool :=
  negb (String.eqb (fst kv) key)
  && match snd kv with
     | Sub c' => absentb key c'
     | Leaf _ => true
     end.

(** What [slice_via_key] returns for a container: the item stored under the
    key when the container has the key, and the container in constructor
    order when the key is nowhere in it. *)
Definition sliced {V : Type} (key : string) (c : Container V) (r : node V)
  : Prop :=
  (forall c', r = Sub c' -> wfb c' = true)
  /\ (forall x, dict_get key (items c) = Some x -> r = x)
  /\ (absentb key c = true -> r = Sub (canon c)).


(** ** What the claims say about the selection policy *)

(** Following the spec's words for the selection at a leaf reached at the
    accumulated path [p]: every leaf is operated on when [key_chains] is
    [None]; otherwise [matched = p ∈ key_chains] and the leaf is operated on
    iff [matched == to_apply]. *)
Definition operated (key_chains : option (list string)) (to_apply : bool)
  (p : string) : bool :=
  match key_chains with
  | None => true
  | Some kcs =>
      Bool.eqb (if in_dec String.string_dec p kcs then true else false)
        to_apply
  end.

(** Following the spec's words for what becomes of one leaf, reached through
    the keys [prefix ++ path] and so at the accumulated path
    [k1/k2/.../kn]: the function is given the leaf and its path when the
    leaf is operated on; a leaf that is skipped is omitted when
    [prune_unapplied] is true and copied through unchanged otherwise. *)
Definition selection_policy {V : Type} (func : V -> string -> V)
  (key_chains : option (list string)) (to_apply prune_unapplied : bool)
  (prefix : list string) (pv : list string * V) : list (list string * V) :=
  let p := String.concat "/" (prefix ++ fst pv) in
  if operated key_chains to_apply p then [(fst pv, func (snd pv) p)]
  else if prune_unapplied then [] else [pv].

(** What [map] keeps of one item. *)
Definition map_keep {V : Type} (func : V -> string -> V)
  (key_chains : option (list string)) (to_apply prune_unapplied : bool)
  (key_chain : string) (kv : string * node V) : list (string * node V) :=
  let key := fst kv in
  let this_key_chain := join_chain key_chain key in
  match snd kv with
  | Sub c =>
      match map func key_chains to_apply prune_unapplied this_key_chain c with
      | Ok ret => if truthy ret then [(key, Sub ret)] else []
      | Raise _ => []
      end
  | Leaf v =>
      if unapplied key_chains to_apply this_key_chain
      then if prune_unapplied then [] else [(key, Leaf v)]
      else [(key, Leaf (func v this_key_chain))]
  end.


(** The container [{"a": {"x": "u"}, "b": "v"}], with strings for leaves. *)
Definition tree_names : Container string :=
  Dict [("a", Sub (Dict [("x", Leaf "u")])); ("b", Leaf "v")].


(** The reduction does not raise at any leaf position of the first tree:
    it returns a value on the leaf of the first tree with the values that
    the other trees hold at the same path. *)
Definition reduces_at {V : Type} (reduction : list (node V) -> result V)
  (c : Container V) (others : list (node V)) : Prop :=
  forall pv, In pv (leaf_paths c) ->
  forall xs,
    Forall2 (fun o x => at_keys (fst pv) o = Ok x) others xs ->
    exists r, reduction (Leaf (snd pv) :: xs) = Ok r.

(** The same for the leaves at and below the item [kv]. *)
Definition reduces_item {V : Type} (reduction : list (node V) -> result V)
  (kv : string * node V) (others : list (node V)) : Prop :=
  forall pv, In pv (path_item kv) ->
  forall xs,
    Forall2 (fun o x => at_keys (fst pv) o = Ok x) others xs ->
    exists r, reduction (Leaf (snd pv) :: xs) = Ok r.

(** * Properties *)

(** ** The error monad *)

Lemma bind_ok {A B : Type} (m : result A) (k : A -> result B) (b : B) :
  bind m k = Ok b -> exists a, m = Ok a /\ k a = Ok b.
Proof.
  destruct m as [a|e]; simpl; intros H; [exists a; auto | discriminate].
Qed.

Lemma fold_left_raise {A B : Type} (step : result A -> B -> result A)
  (Hstep : forall e b, step (Raise e) b = Raise e) (l : list B) (e : exn) :
  fold_left step l (Raise e) = Raise e.
Proof.
  induction l as [|b l IH]; simpl; [reflexivity|]. now rewrite Hstep.
Qed.

(** ** The order on keys *)

Lemma ltb_lt (a b : string) : String.ltb a b = true <-> String_as_OT.lt a b.
Proof.
  unfold String.ltb. rewrite <- String_as_OT.cmp_lt.
  unfold String_as_OT.cmp. destruct (String.compare a b); split; congruence.
Qed.

Lemma slt_trans (a b c : string) : slt a b -> slt b c -> slt a c.
Proof.
  unfold slt. rewrite !ltb_lt. apply String_as_OT.lt_trans.
Qed.

Lemma slt_irrefl (a : string) : ~ slt a a.
Proof.
  unfold slt. rewrite ltb_lt. intros H.
  exact (String_as_OT.lt_not_eq _ _ H eq_refl).
Qed.

Lemma leb_false_slt (a b : string) : String.leb a b = false -> slt b a.
Proof.
  unfold String.leb, slt, String.ltb. rewrite (String.compare_antisym b a).
  destruct (String.compare a b); simpl; congruence.
Qed.

Lemma leb_neq_slt (a b : string) : String.leb a b = true -> a <> b -> slt a b.
Proof.
  unfold String.leb, slt, String.ltb. intros H N.
  destruct (String.compare a b) eqn:E; try congruence.
  apply String.compare_eq_iff in E. contradiction.
Qed.

Lemma slt_leb (a b : string) : slt a b -> String.leb a b = true.
Proof.
  unfold String.leb, slt, String.ltb.
  destruct (String.compare a b); congruence.
Qed.

Lemma existsb_eqb_In (k : string) (ks : list string) :
  existsb (String.eqb k) ks = true <-> In k ks.
Proof.
  rewrite existsb_exists. split.
  - intros [x [Hx E]]. apply String.eqb_eq in E. now subst.
  - intros H. exists k. split; [assumption | apply String.eqb_refl].
Qed.

Lemma nodupb_NoDup (ks : list string) : nodupb ks = true <-> NoDup ks.
Proof.
  induction ks as [|k r IH]; simpl.
  - split; [constructor | reflexivity].
  - rewrite andb_true_iff, negb_true_iff, IH. split.
    + intros [H1 H2]. constructor; [|assumption].
      rewrite <- existsb_eqb_In. congruence.
    + intros H. inversion H; subst. split; [|assumption].
      destruct (existsb (String.eqb k) r) eqn:E; [|reflexivity].
      apply existsb_eqb_In in E. contradiction.
Qed.

Lemma increasingb_increasing (ks : list string) :
  increasingb ks = true <-> increasing ks.
Proof.
  induction ks as [|k r IH].
  - split; [constructor | reflexivity].
  - destruct r as [|k' r'].
    + split; [repeat constructor | reflexivity].
    + change (increasingb (k :: k' :: r'))
        with (String.ltb k k' && increasingb (k' :: r')).
      rewrite andb_true_iff, IH. split.
      * intros [H1 H2]. constructor; [|assumption].
        constructor; [exact H1|].
        inversion H2; subst.
        eapply Forall_impl; [|eassumption].
        intros x Hx. eapply slt_trans; eassumption.
      * intros H. inversion H as [|? ? HF Hr]; subst.
        inversion HF; subst. split; assumption.
Qed.

Lemma increasing_NoDup (ks : list string) : increasing ks -> NoDup ks.
Proof.
  induction 1 as [|k r HF _ IH]; constructor; [|assumption].
  intros Hin. rewrite Forall_forall in HF.
  exact (slt_irrefl _ (HF _ Hin)).
Qed.

(** ** Sorting the items *)

Section SortFacts.
Context {A : Type}.
Implicit Types (l : list (string * A)) (x : string * A).

Lemma insert_item_perm x l : Permutation (insert_item x l) (x :: l).
Proof.
  induction l as [|y r IH]; simpl; [reflexivity|].
  destruct (String.leb (fst x) (fst y)); [reflexivity|].
  rewrite IH. apply perm_swap.
Qed.

Lemma sorted_perm l : Permutation (sorted l) l.
Proof.
  induction l as [|x r IH]; simpl; [reflexivity|].
  rewrite insert_item_perm. now constructor.
Qed.

Lemma sorted_In x l : In x (sorted l) <-> In x l.
Proof.
  split; apply Permutation_in;
    [apply sorted_perm | apply Permutation_sym, sorted_perm].
Qed.

Lemma sorted_In1 x l : In x (sorted l) -> In x l.
Proof. apply sorted_In. Qed.

Lemma keys_sorted_perm l : Permutation (keys (sorted l)) (keys l).
Proof. unfold keys. apply Permutation_map, sorted_perm. Qed.

Lemma insert_item_increasing x l :
  increasing (keys l) -> ~ In (fst x) (keys l) ->
  increasing (keys (insert_item x l)).
Proof.
  induction l as [|y r IH]; simpl; intros Hs Hn.
  - repeat constructor.
  - inversion Hs as [|? ? HF Hr]; subst.
    destruct (String.leb (fst x) (fst y)) eqn:E; simpl.
    + assert (Hxy : slt (fst x) (fst y)).
      { apply leb_neq_slt; [assumption|]. intros Heq. apply Hn. now left. }
      constructor; [|assumption].
      constructor; [assumption|].
      eapply Forall_impl; [|exact HF].
      intros z Hz. eapply slt_trans; eassumption.
    + constructor.
      * change (Forall (slt (fst y)) (keys (insert_item x r))).
        rewrite Forall_forall. intros k Hk.
        assert (Hp : In k (keys (x :: r))).
        { eapply Permutation_in; [|exact Hk].
          unfold keys. apply Permutation_map, insert_item_perm. }
        destruct Hp as [<-|Hp]; [now apply leb_false_slt|].
        rewrite Forall_forall in HF. now apply HF.
      * apply IH; [assumption|]. intros Hin. apply Hn. now right.
Qed.

Lemma sorted_increasing l : NoDup (keys l) -> increasing (keys (sorted l)).
Proof.
  induction l as [|x r IH]; simpl; intros Hn; [constructor|].
  inversion Hn; subst.
  apply insert_item_increasing; [now apply IH|].
  intros Hin. apply (Permutation_in _ (keys_sorted_perm r)) in Hin.
  contradiction.
Qed.

Lemma increasing_sorted l : increasing (keys l) -> sorted l = l.
Proof.
  induction l as [|x r IH]; simpl; intros Hs; [reflexivity|].
  inversion Hs as [|? ? HF Hr]; subst. rewrite (IH Hr).
  destruct r as [|y r']; simpl; [reflexivity|].
  inversion HF; subst. now rewrite slt_leb.
Qed.

End SortFacts.

Lemma insert_item_map {A B : Type} (f : string * A -> B) (x : string * A)
  (l : list (string * A)) :
  insert_item (fst x, f x) (List.map (fun kv => (fst kv, f kv)) l)
  = List.map (fun kv => (fst kv, f kv)) (insert_item x l).
Proof.
  induction l as [|y r IH]; simpl; [reflexivity|].
  destruct (String.leb (fst x) (fst y)); simpl; [reflexivity|].
  now rewrite IH.
Qed.

(** The sort looks at the keys only: what is attached to the items can be
    attached before or after it. *)
Lemma sorted_map {A B : Type} (f : string * A -> B) (l : list (string * A)) :
  sorted (List.map (fun kv => (fst kv, f kv)) l)
  = List.map (fun kv => (fst kv, f kv)) (sorted l).
Proof.
  induction l as [|x r IH]; simpl; [reflexivity|].
  change (fold_right insert_item [] (List.map (fun kv => (fst kv, f kv)) r))
    with (sorted (List.map (fun kv => (fst kv, f kv)) r)).
  rewrite IH. apply insert_item_map.
Qed.

(** ** Dictionaries *)

Section DictFacts.
Context {A : Type}.
Implicit Types (l : list (string * A)).

Lemma dict_set_fresh k v l : ~ In k (keys l) -> dict_set k v l = l ++ [(k, v)].
Proof.
  induction l as [|[k' v'] r IH]; simpl; intros Hn; [reflexivity|].
  destruct (String.eqb_spec k k') as [->|N]; [exfalso; apply Hn; now left|].
  rewrite IH; [reflexivity | tauto].
Qed.

Lemma dict_get_set_same k v l : dict_get k (dict_set k v l) = Some v.
Proof.
  induction l as [|[k' v'] r IH]; simpl.
  - now rewrite String.eqb_refl.
  - destruct (String.eqb_spec k k') as [->|N]; simpl.
    + now rewrite String.eqb_refl.
    + destruct (String.eqb_spec k k'); [contradiction | exact IH].
Qed.

Lemma dict_get_set_other k k' v l :
  k' <> k -> dict_get k' (dict_set k v l) = dict_get k' l.
Proof.
  intros N. induction l as [|[k0 v0] r IH]; simpl.
  - destruct (String.eqb_spec k' k); [contradiction | reflexivity].
  - destruct (String.eqb_spec k k0) as [->|N0]; simpl.
    + destruct (String.eqb_spec k' k0); [contradiction | reflexivity].
    + destruct (String.eqb_spec k' k0); [reflexivity | exact IH].
Qed.

End DictFacts.

Lemma fold_left_map {A B C : Type} (step : C -> B -> C) (f : A -> B)
  (l : list A) (c : C) :
  fold_left step (List.map f l) c = fold_left (fun c a => step c (f a)) l c.
Proof.
  revert c. induction l as [|a l IH]; simpl; intros c; [reflexivity|].
  apply IH.
Qed.

(** ** Induction on containers *)

Section TreeFacts.
Context {V : Type}.
Implicit Types (c : Container V) (l : list (string * node V)).

Lemma Container_nested_ind (P : Container V -> Prop) :
  (forall l, nested P l -> P (Dict l)) -> forall c, P c.
Proof.
  intros H.
  refine (fix IH c : P c :=
            match c with
            | Dict l => H l ((fix IHl l : nested P l :=
                match l with
                | [] => fun k c Hin => match Hin with end
                | (k0, x) :: r => _
                end) l)
            end).
  intros k c0 [E|Hin].
  - destruct x as [v|c1]; [discriminate|].
    injection E as _ E. rewrite <- E. apply IH.
  - exact (IHl r k c0 Hin).
Qed.

Lemma wfb_inv l :
  wfb (Dict l) = true <->
  NoDup (keys l)
  /\ (forall kv, In kv l -> has_slash (fst kv) = false)
  /\ nested (fun c => wfb c = true) l.
Proof.
  simpl. rewrite andb_true_iff, nodupb_NoDup, forallb_forall. split.
  - intros [Hn Hf]. split; [assumption|]. split.
    + intros kv Hin. apply Hf in Hin. apply andb_true_iff in Hin.
      now apply negb_true_iff.
    + intros k c Hin. apply Hf in Hin. apply andb_true_iff in Hin. tauto.
  - intros [Hn [Hs Hc]]. split; [assumption|].
    intros [k x] Hin. generalize (Hs _ Hin). simpl. intros ->. simpl.
    destruct x as [v|c]; [reflexivity | now apply (Hc k)].
Qed.

Lemma canonicalb_inv l :
  canonicalb (Dict l) = true <->
  increasing (keys l)
  /\ (forall kv, In kv l -> has_slash (fst kv) = false)
  /\ nested (fun c => canonicalb c = true) l.
Proof.
  simpl. rewrite andb_true_iff, increasingb_increasing, forallb_forall. split.
  - intros [Hn Hf]. split; [assumption|]. split.
    + intros kv Hin. apply Hf in Hin. apply andb_true_iff in Hin.
      now apply negb_true_iff.
    + intros k c Hin. apply Hf in Hin. apply andb_true_iff in Hin. tauto.
  - intros [Hn [Hs Hc]]. split; [assumption|].
    intros [k x] Hin. generalize (Hs _ Hin). simpl. intros ->. simpl.
    destruct x as [v|c]; [reflexivity | now apply (Hc k)].
Qed.

Lemma canonical_wf c : canonicalb c = true -> wfb c = true.
Proof.
  induction c as [l IH] using Container_nested_ind.
  rewrite canonicalb_inv, wfb_inv. intros [Hi [Hs Hc]].
  split; [now apply increasing_NoDup|]. split; [assumption|].
  intros k c Hin. apply (IH k c Hin). now apply (Hc k).
Qed.

Lemma nested_sorted (P : Container V -> Prop) l :
  nested P l -> nested P (sorted l).
Proof. intros H k c Hin. apply (H k). now apply sorted_In. Qed.

End TreeFacts.

(** ** The constructor *)

Section InitFacts.
Context {V : Type}.
Implicit Types (c : Container V) (l : list (string * node V)).

(** The constructor, as the loop over [sorted(dict_in.items())]. *)
Lemma init_unfold l :
  __init__ (Dict l)
  = fold_left
      (fun acc kv =>
         self <- acc ;; val <- wrap (snd kv) ;; __setitem__ self (fst kv) val)
      (sorted l) (Ok (Dict [])).
Proof.
  change (__init__ (Dict l))
    with (fold_left
            (fun acc (kv : string * result (node V)) =>
               self <- acc ;; val <- snd kv ;; __setitem__ self (fst kv) val)
            (sorted
               (List.map
                  (fun kv => (fst kv, (fun kv => wrap (snd kv)) kv)) l))
            (Ok (Dict []))).
  rewrite sorted_map, fold_left_map. reflexivity.
Qed.

(** Storing items under new keys without ['/'] appends them. *)
Lemma init_loop (g : node V -> node V) l acc :
  (forall kv, In kv l -> wrap (snd kv) = Ok (g (snd kv))) ->
  (forall kv, In kv l -> has_slash (fst kv) = false) ->
  NoDup (keys acc ++ keys l) ->
  fold_left
    (fun acc kv =>
       self <- acc ;; val <- wrap (snd kv) ;; __setitem__ self (fst kv) val)
    l (Ok (Dict acc))
  = Ok (Dict (acc ++ List.map (fun kv => (fst kv, g (snd kv))) l)).
Proof.
  revert acc. induction l as [|[k x] r IH]; intros acc Hw Hs Hn; simpl.
  - now rewrite app_nil_r.
  - generalize (Hw (k, x) (or_introl eq_refl)). simpl. intros ->. simpl.
    unfold __setitem__. generalize (Hs (k, x) (or_introl eq_refl)).
    simpl. intros ->. simpl.
    assert (Hk : ~ In k (keys acc)).
    { apply NoDup_remove_2 in Hn. intros Hin. apply Hn.
      apply in_or_app. now left. }
    rewrite dict_set_fresh by exact Hk.
    rewrite IH.
    + now rewrite <- app_assoc.
    + intros kv Hin. apply Hw. now right.
    + intros kv Hin. apply Hs. now right.
    + unfold keys in *. rewrite map_app. simpl.
      rewrite <- app_assoc. exact Hn.
Qed.

Lemma canon_unfold l :
  canon (Dict l)
  = Dict (List.map (fun kv => (fst kv, canon_node (snd kv))) (sorted l)).
Proof.
  change (canon (Dict l))
    with (Dict
            (sorted
               (List.map
                  (fun kv => (fst kv, (fun kv => canon_node (snd kv)) kv))
                  l))).
  now rewrite sorted_map.
Qed.

Lemma keys_map_snd {B : Type} (g : node V -> B) l :
  keys (List.map (fun kv => (fst kv, g (snd kv))) l) = keys l.
Proof. unfold keys. rewrite map_map. reflexivity. Qed.

(** On a well-formed dict the constructor only puts the items in order. *)
Lemma init_canon c : wfb c = true -> __init__ c = Ok (canon c).
Proof.
  induction c as [l IH] using Container_nested_ind.
  rewrite wfb_inv. intros [Hn [Hs Hc]].
  rewrite init_unfold, canon_unfold.
  rewrite (init_loop canon_node (sorted l) []); [reflexivity| | |].
  - intros [k x] Hin. apply sorted_In1 in Hin.
    destruct x as [v|c]; simpl; [reflexivity|].
    rewrite (IH k c Hin); [reflexivity | now apply (Hc k)].
  - intros kv Hin. apply Hs. now apply sorted_In.
  - simpl. apply (Permutation_NoDup (Permutation_sym (keys_sorted_perm l))).
    exact Hn.
Qed.

Lemma canon_canonical c : wfb c = true -> canonicalb (canon c) = true.
Proof.
  induction c as [l IH] using Container_nested_ind.
  rewrite wfb_inv. intros [Hn [Hs Hc]].
  rewrite canon_unfold, canonicalb_inv. rewrite keys_map_snd.
  split; [now apply sorted_increasing|]. split.
  - intros kv Hin. apply in_map_iff in Hin. destruct Hin as [kv' [<- Hin]].
    simpl. apply Hs. now apply sorted_In.
  - intros k c Hin. apply in_map_iff in Hin.
    destruct Hin as [[k' x] [E Hin]]. apply sorted_In1 in Hin.
    simpl in E. destruct x as [v|c']; simpl in E; [discriminate|].
    injection E as -> <-. apply (IH k c' Hin). now apply (Hc k).
Qed.

Lemma canon_fixed c : canonicalb c = true -> canon c = c.
Proof.
  induction c as [l IH] using Container_nested_ind.
  rewrite canonicalb_inv. intros [Hi [Hs Hc]].
  rewrite canon_unfold, (increasing_sorted _ Hi). f_equal.
  rewrite <- (map_id l) at 2. apply map_ext_in.
  intros [k x] Hin. simpl. destruct x as [v|c]; simpl; [reflexivity|].
  rewrite (IH k c Hin); [reflexivity | now apply (Hc k)].
Qed.

Lemma init_canonical c : canonicalb c = true -> __init__ c = Ok c.
Proof.
  intros H. rewrite (init_canon _ (canonical_wf _ H)). now rewrite canon_fixed.
Qed.

Lemma canon_idem c : wfb c = true -> canon (canon c) = canon c.
Proof. intros H. apply canon_fixed. now apply canon_canonical. Qed.

End InitFacts.

(** ** The same mapping *)

Lemma dict_get_perm {A : Type} (l l' : list (string * A)) (k : string) :
  NoDup (keys l) -> Permutation l l' -> dict_get k l = dict_get k l'.
Proof.
  intros Hn Hp.
  induction Hp as [|x r r' Hp IH|x y r|r r' r'' Hp1 IH1 Hp2 IH2].
  - reflexivity.
  - destruct x as [k0 v0]. simpl. inversion Hn; subst. now rewrite IH.
  - destruct x as [k1 v1], y as [k2 v2]. simpl.
    destruct (String.eqb_spec k k1) as [E1|N1];
      destruct (String.eqb_spec k k2) as [E2|N2]; try reflexivity.
    exfalso. subst k1 k2. inversion Hn as [|? ? H1 H2]; subst.
    apply H1. now left.
  - rewrite IH1 by assumption. apply IH2.
    apply (Permutation_NoDup (Permutation_map fst Hp1) Hn).
Qed.

Lemma dict_get_map {A B : Type} (g : A -> B) (l : list (string * A))
  (k : string) :
  dict_get k (List.map (fun kv => (fst kv, g (snd kv))) l)
  = option_map g (dict_get k l).
Proof.
  induction l as [|[k' v] r IH]; simpl; [reflexivity|].
  now destruct (String.eqb k k').
Qed.

(** [canon] keeps every key with its value: the lookups of [canon c] are
    those of [c]. *)
Lemma canon_lookup {V : Type} (c : Container V) (k : string) :
  wfb c = true ->
  dict_get k (items (canon c)) = option_map canon_node (dict_get k (items c)).
Proof.
  destruct c as [l]. intros Hwf. apply wfb_inv in Hwf. destruct Hwf as [Hn _].
  rewrite canon_unfold. cbn [items]. rewrite dict_get_map. f_equal.
  symmetry. apply dict_get_perm; [assumption|].
  apply Permutation_sym, sorted_perm.
Qed.

(** ** Flattening and refilling *)

Lemma flat_map_map {A B C : Type} (f : A -> B) (g : B -> list C)
  (l : list A) :
  flat_map g (List.map f l) = flat_map (fun a => g (f a)) l.
Proof.
  induction l as [|a l IH]; simpl; [reflexivity | now rewrite IH].
Qed.

Lemma flat_map_ext_in {A B : Type} (f g : A -> list B) (l : list A) :
  (forall a, In a l -> f a = g a) -> flat_map f l = flat_map g l.
Proof.
  induction l as [|a l IH]; simpl; intros H; [reflexivity|].
  rewrite H by now left. f_equal. apply IH. intros a' Hin. apply H. now right.
Qed.

Lemma list_sum_perm (l l' : list nat) :
  Permutation l l' -> list_sum l = list_sum l'.
Proof. induction 1; simpl; lia. Qed.

Section FlatFacts.
Context {V : Type}.
Implicit Types (c : Container V) (l : list (string * node V)).

Lemma to_iterator_unfold l :
  to_iterator (Dict l) = flat_map iter_item (sorted l).
Proof.
  change (to_iterator (Dict l))
    with (flat_map snd
            (sorted (List.map (fun kv => (fst kv, iter_item kv)) l))).
  now rewrite sorted_map, flat_map_map.
Qed.

Lemma from_flat_list_unfold l flat_list :
  from_flat_list (Dict l) flat_list
  = (st <- fold_left take_step (sorted l) (Ok ([], flat_list)) ;;
     c <- __init__ (Dict (fst st)) ;;
     Ok (c, snd st)).
Proof.
  change (from_flat_list (Dict l) flat_list)
    with (st <- fold_left
            (fun acc (kv : string * (list V -> result (node V * list V))) =>
               st <- acc ;;
               r <- snd kv (snd st) ;;
               Ok (dict_set (fst kv) (fst r) (fst st), snd r))
            (sorted
               (List.map
                  (fun kv => (fst kv, (fun kv => take_item (snd kv)) kv)) l))
            (Ok ([], flat_list)) ;;
          c <- __init__ (Dict (fst st)) ;;
          Ok (c, snd st)).
  rewrite sorted_map, fold_left_map. reflexivity.
Qed.

Lemma n_leaves_unfold l :
  n_leaves (Dict l) = list_sum (List.map count_item (sorted l)).
Proof.
  change (n_leaves (Dict l)) with (list_sum (List.map count_item l)).
  apply list_sum_perm, Permutation_map, Permutation_sym, sorted_perm.
Qed.

(** One pair per leaf. *)
Lemma to_iterator_length c : List.length (to_iterator c) = n_leaves c.
Proof.
  induction c as [l IH] using Container_nested_ind.
  rewrite to_iterator_unfold, n_leaves_unfold.
  apply nested_sorted in IH. induction (sorted l) as [|[k x] r IHr]; simpl.
  - reflexivity.
  - rewrite length_app, IHr.
    + f_equal. destruct x as [v|c]; [reflexivity|].
      apply (IH k). now left.
    + intros k' c' Hin. apply (IH k'). now right.
Qed.

Lemma to_flat_list_length c : List.length (to_flat_list c) = n_leaves c.
Proof. unfold to_flat_list. rewrite length_map. apply to_iterator_length. Qed.

Lemma take_step_ok (kv : string * node V) acc fl x' fl' :
  take_item (snd kv) fl = Ok (x', fl') ->
  take_step (Ok (acc, fl)) kv = Ok (dict_set (fst kv) x' acc, fl').
Proof. unfold take_step. simpl. now intros ->. Qed.

Lemma NoDup_keys_head {A : Type} (acc r : list (string * A)) k x :
  NoDup (keys acc ++ keys ((k, x) :: r)) -> ~ In k (keys acc).
Proof.
  intros Hn. apply NoDup_remove_2 in Hn. intros Hin. apply Hn.
  apply in_or_app. now left.
Qed.

Lemma NoDup_keys_shift {A : Type} (acc r : list (string * A)) k x y :
  NoDup (keys acc ++ keys ((k, x) :: r)) ->
  NoDup (keys (acc ++ [(k, y)]) ++ keys r).
Proof.
  unfold keys. rewrite map_app. simpl. now rewrite <- app_assoc.
Qed.

(** The loop of [from_flat_list], fed with the values of the items it
    visits. *)
Lemma refill_loop l acc rest :
  nested (fun c => forall rest,
            from_flat_list c (to_flat_list c ++ rest) = Ok (canon c, rest)) l ->
  NoDup (keys acc ++ keys l) ->
  fold_left take_step l
    (Ok (acc, List.map snd (flat_map iter_item l) ++ rest))
  = Ok (acc ++ List.map (fun kv => (fst kv, canon_node (snd kv))) l, rest).
Proof.
  revert acc. induction l as [|[k x] r IHr]; intros acc IH Hn.
  - simpl. now rewrite app_nil_r.
  - cbn [fold_left flat_map List.map].
    assert (Hx : take_item (snd (k, x))
                   (List.map snd (iter_item (k, x) ++ flat_map iter_item r)
                      ++ rest)
                 = Ok (canon_node x,
                       List.map snd (flat_map iter_item r) ++ rest)).
    { rewrite map_app, <- app_assoc. destruct x as [v|c]; simpl.
      - reflexivity.
      - unfold iter_item. simpl.
        change (List.map snd (to_iterator c)) with (to_flat_list c).
        rewrite (IH k c (or_introl eq_refl)). reflexivity. }
    rewrite (take_step_ok (k, x) acc _ _ _ Hx). cbn [fst snd].
    rewrite dict_set_fresh by exact (NoDup_keys_head _ _ _ _ Hn).
    rewrite IHr.
    + now rewrite <- app_assoc.
    + intros k' c' Hin. apply (IH k'). now right.
    + exact (NoDup_keys_shift _ _ _ _ _ Hn).
Qed.

Lemma NoDup_keys_sorted {A : Type} (l : list (string * A)) :
  NoDup (keys l) -> NoDup (keys (@nil (string * A)) ++ keys (sorted l)).
Proof.
  simpl. apply Permutation_NoDup, Permutation_sym, keys_sorted_perm.
Qed.

Lemma refill_canon c rest :
  wfb c = true ->
  from_flat_list c (to_flat_list c ++ rest) = Ok (canon c, rest).
Proof.
  revert rest. induction c as [l IH] using Container_nested_ind.
  intros rest Hwf. assert (Hwf' := Hwf).
  apply wfb_inv in Hwf. destruct Hwf as [Hn [Hs Hc]].
  rewrite from_flat_list_unfold. unfold to_flat_list.
  rewrite to_iterator_unfold.
  rewrite (refill_loop (sorted l) [] rest).
  - cbn [bind fst snd app]. rewrite <- canon_unfold.
    rewrite init_canonical by now apply canon_canonical. reflexivity.
  - intros k c Hin rest'. apply sorted_In1 in Hin.
    apply (IH k c Hin). now apply (Hc k).
  - now apply NoDup_keys_sorted.
Qed.

End FlatFacts.

Lemma firstn_plus {A : Type} (a b : nat) (l : list A) :
  firstn (a + b) l = firstn a l ++ firstn b (skipn a l).
Proof.
  revert l. induction a as [|a IH]; intros l; simpl; [reflexivity|].
  destruct l as [|x l]; simpl; [now rewrite firstn_nil | now rewrite IH].
Qed.

Lemma skipn_plus {A : Type} (a b : nat) (l : list A) :
  skipn (a + b) l = skipn b (skipn a l).
Proof.
  revert l. induction a as [|a IH]; intros l; simpl; [reflexivity|].
  destruct l as [|x l]; simpl; [now rewrite skipn_nil | apply IH].
Qed.

Section RefillFacts.
Context {V : Type}.
Implicit Types (c : Container V) (l : list (string * node V)).

Lemma iter_item_canon_node k (x : node V) :
  (forall c, x = Sub c -> to_iterator (canon c) = to_iterator c) ->
  iter_item (k, canon_node x) = iter_item (k, x).
Proof.
  intros H. destruct x as [v|c]; [reflexivity|].
  unfold iter_item. simpl. now apply H.
Qed.

(** Listing the items in key order does not change what the iterator
    yields. *)
Lemma to_iterator_canon c : wfb c = true -> to_iterator (canon c) = to_iterator c.
Proof.
  induction c as [l IH] using Container_nested_ind.
  rewrite wfb_inv. intros [Hn [Hs Hc]].
  rewrite canon_unfold, !to_iterator_unfold.
  rewrite increasing_sorted
    by (rewrite keys_map_snd; now apply sorted_increasing).
  rewrite flat_map_map. apply flat_map_ext_in.
  intros [k x] Hin. apply sorted_In1 in Hin. simpl.
  apply iter_item_canon_node. intros c ->.
  apply (IH k c Hin). now apply (Hc k).
Qed.

(** The loop of [from_flat_list] on a list that is long enough. *)
Lemma pop_loop l acc fl :
  nested (fun c => forall fl,
            n_leaves c <= List.length fl ->
            exists c',
              from_flat_list c fl = Ok (c', skipn (n_leaves c) fl)
              /\ canonicalb c' = true
              /\ to_flat_list c' = firstn (n_leaves c) fl) l ->
  NoDup (keys acc ++ keys l) ->
  list_sum (List.map count_item l) <= List.length fl ->
  exists l',
    fold_left take_step l (Ok (acc, fl))
    = Ok (acc ++ l', skipn (list_sum (List.map count_item l)) fl)
    /\ keys l' = keys l
    /\ nested (fun c => canonicalb c = true) l'
    /\ List.map snd (flat_map iter_item l')
       = firstn (list_sum (List.map count_item l)) fl.
Proof.
  revert acc fl. induction l as [|[k x] r IHr]; intros acc fl IH Hn Hlen.
  - exists []. simpl. rewrite app_nil_r. repeat split.
    intros k c [].
  - cbn [fold_left List.map] in *.
    change (list_sum (count_item (k, x) :: List.map count_item r))
      with (count_item (k, x) + list_sum (List.map count_item r)) in *.
    assert (Hx : exists x',
               take_item (snd (k, x)) fl
               = Ok (x', skipn (count_item (k, x)) fl)
               /\ (forall c, x' = Sub c -> canonicalb c = true)
               /\ List.map snd (iter_item (k, x'))
                  = firstn (count_item (k, x)) fl).
    { destruct x as [v|c]; simpl.
      - destruct fl as [|v0 fl]; [simpl in Hlen; lia|].
        exists (Leaf v0). repeat split. intros c E. discriminate.
      - destruct (IH k c (or_introl eq_refl) fl) as [c' [E [Hc' Hf]]].
        { unfold count_item in Hlen. simpl in Hlen. lia. }
        exists (Sub c'). unfold count_item. simpl. rewrite E. simpl.
        repeat split; [|exact Hf].
        intros c0 E0. now injection E0 as <-. }
    destruct Hx as [x' [Ex [Hcx Hfx]]].
    rewrite (take_step_ok (k, x) acc _ _ _ Ex). cbn [fst snd].
    rewrite dict_set_fresh by exact (NoDup_keys_head _ _ _ _ Hn).
    destruct (IHr (acc ++ [(k, x')]) (skipn (count_item (k, x)) fl))
      as [l' [E [Hk [Hc Hf]]]].
    + intros k' c' Hin. apply (IH k'). now right.
    + exact (NoDup_keys_shift _ _ _ _ _ Hn).
    + rewrite length_skipn. lia.
    + exists ((k, x') :: l'). rewrite E, <- app_assoc, skipn_plus.
      repeat split.
      * simpl. now rewrite Hk.
      * intros k0 c0 [E0|Hin]; [|now apply (Hc k0)].
        apply Hcx. now injection E0 as _ ->.
      * simpl. rewrite map_app, Hfx, Hf. now rewrite firstn_plus.
Qed.

Lemma pop_enough c fl :
  wfb c = true ->
  n_leaves c <= List.length fl ->
  exists c',
    from_flat_list c fl = Ok (c', skipn (n_leaves c) fl)
    /\ canonicalb c' = true
    /\ to_flat_list c' = firstn (n_leaves c) fl.
Proof.
  revert fl. induction c as [l IH] using Container_nested_ind.
  intros fl Hwf Hlen. apply wfb_inv in Hwf. destruct Hwf as [Hn [Hs Hc]].
  rewrite n_leaves_unfold in *. rewrite from_flat_list_unfold.
  destruct (pop_loop (sorted l) [] fl) as [l' [E [Hk [Hc' Hf]]]].
  - intros k c Hin fl' Hlen'. apply sorted_In1 in Hin.
    apply (IH k c Hin); [now apply (Hc k) | assumption].
  - now apply NoDup_keys_sorted.
  - assumption.
  - assert (Hcan : canonicalb (Dict l') = true).
    { apply canonicalb_inv. rewrite Hk. split; [now apply sorted_increasing|].
      split; [|assumption].
      intros kv Hin.
      assert (Hin' : In (fst kv) (keys (sorted l))).
      { rewrite <- Hk. now apply in_map. }
      apply in_map_iff in Hin'. destruct Hin' as [kv' [<- Hin']].
      apply Hs. now apply sorted_In1. }
    exists (Dict l'). rewrite E. cbn [bind fst snd app].
    rewrite init_canonical by assumption. repeat split; [assumption|].
    unfold to_flat_list. rewrite to_iterator_unfold.
    rewrite increasing_sorted; [assumption|].
    apply canonicalb_inv in Hcan. tauto.
Qed.

(** C1: for every container [T], [T.from_flat_list(T.to_flat_list())]
    returns a container equal to [T]: it holds the same mapping, yields the
    same values in the same order, and is [T] itself when the items of [T]
    are in the order in which the constructor stores them.  The list is
    used up. *)
Theorem from_flat_list_to_flat_list (T : Container V) :
  wfb T = true ->
  exists T',
    from_flat_list T (to_flat_list T) = Ok (T', [])
    /\ same_dict T' T
    /\ to_iterator T' = to_iterator T
    /\ (canonicalb T = true -> T' = T).
Proof.
  intros Hwf. exists (canon T).
  pose proof (refill_canon T [] Hwf) as H. rewrite app_nil_r in H.
  split; [exact H|]. split; [now apply canon_idem|].
  split; [now apply to_iterator_canon | apply canon_fixed].
Qed.


End RefillFacts.

Lemma from_flat_list_to_flat_list_witness :
  wfb tree_ab = true
  /\ exists T',
       from_flat_list tree_ab (to_flat_list tree_ab) = Ok (T', [])
       /\ same_dict T' tree_ab
       /\ to_iterator T' = to_iterator tree_ab
       /\ (canonicalb tree_ab = true -> T' = tree_ab).
Proof.
  split; [reflexivity|].
  apply (from_flat_list_to_flat_list tree_ab). reflexivity.
Defined.


(** ** The iterator *)

Lemma StronglySorted_app {A : Type} (R : A -> A -> Prop) (l1 l2 : list A) :
  StronglySorted R l1 -> StronglySorted R l2 ->
  (forall a b, In a l1 -> In b l2 -> R a b) ->
  StronglySorted R (l1 ++ l2).
Proof.
  induction l1 as [|a l1 IH]; simpl; intros H1 H2 H; [assumption|].
  inversion H1; subst. constructor.
  - apply IH; [assumption | assumption |].
    intros a' b Ha Hb. apply H; [now right | assumption].
  - apply Forall_app. split; [assumption|].
    rewrite Forall_forall. intros b Hb. apply H; [now left | assumption].
Qed.

Lemma path_ltb_cons (k : string) (p q : list string) :
  path_ltb (k :: p) (k :: q) = path_ltb p q.
Proof.
  simpl. rewrite String.eqb_refl.
  destruct (String.ltb k k) eqn:E; [|reflexivity].
  exfalso. exact (slt_irrefl _ E).
Qed.

Lemma path_lt_heads (k k' : string) (p q : list string) :
  slt k k' -> path_lt (k :: p) (k' :: q).
Proof. unfold path_lt, slt. simpl. now intros ->. Qed.

Lemma StronglySorted_cons_paths (k : string) (ps : list (list string)) :
  StronglySorted path_lt ps ->
  StronglySorted path_lt (List.map (cons k) ps).
Proof.
  induction 1 as [|p ps Hs IH HF]; simpl; constructor; [assumption|].
  rewrite Forall_forall in *. intros q Hq.
  apply in_map_iff in Hq. destruct Hq as [q' [<- Hq']].
  unfold path_lt. rewrite path_ltb_cons. now apply HF.
Qed.

Section IterFacts.
Context {V : Type}.
Implicit Types (c : Container V) (l : list (string * node V)).

Lemma leaf_paths_unfold l : leaf_paths (Dict l) = flat_map path_item (sorted l).
Proof.
  change (leaf_paths (Dict l))
    with (flat_map snd
            (sorted (List.map (fun kv => (fst kv, path_item kv)) l))).
  now rewrite sorted_map, flat_map_map.
Qed.

Lemma to_iterator_chains_unfold key_chain l :
  to_iterator_chains key_chain (Dict l)
  = flat_map (chain_item key_chain) (sorted l).
Proof.
  change (to_iterator_chains key_chain (Dict l))
    with (flat_map snd
            (sorted
               (List.map (fun kv => (fst kv, chain_item key_chain kv)) l))).
  now rewrite sorted_map, flat_map_map.
Qed.

Lemma leaf_paths_nonempty c (pv : list string * V) :
  In pv (leaf_paths c) -> fst pv <> [].
Proof.
  destruct c as [l]. rewrite leaf_paths_unfold. intros Hin.
  apply in_flat_map in Hin. destruct Hin as [[k x] [_ Hin]].
  unfold path_item in Hin. destruct x as [v|c]; simpl in Hin.
  - destruct Hin as [<-|[]]. discriminate.
  - apply in_map_iff in Hin. destruct Hin as [pv' [<- _]]. discriminate.
Qed.

(** The key the iterator yields with a leaf is the key under which the leaf
    is stored, the last one of its path. *)
Lemma to_iterator_own_key c :
  to_iterator c = List.map own_key (leaf_paths c).
Proof.
  induction c as [l IH] using Container_nested_ind.
  rewrite to_iterator_unfold, leaf_paths_unfold.
  apply nested_sorted in IH. induction (sorted l) as [|[k x] r IHr].
  - reflexivity.
  - simpl. rewrite map_app. f_equal.
    + destruct x as [v|c]; [reflexivity|].
      unfold iter_item, path_item. simpl.
      rewrite (IH k c (or_introl eq_refl)), map_map.
      apply map_ext_in. intros [p v] Hin. unfold own_key. simpl.
      apply leaf_paths_nonempty in Hin. simpl in Hin.
      destruct p; [contradiction | reflexivity].
    + apply IHr. intros k' c' Hin. apply (IH k'). now right.
Qed.

Lemma path_item_head (kv : string * node V) (pv : list string * V) :
  In pv (path_item kv) -> exists p, fst pv = fst kv :: p.
Proof.
  destruct kv as [k x]. unfold path_item. destruct x as [v|c]; simpl.
  - intros [<-|[]]. now exists [].
  - intros Hin. apply in_map_iff in Hin. destruct Hin as [pv' [<- _]].
    now exists (fst pv').
Qed.

Lemma paths_loop l :
  increasing (keys l) ->
  nested (fun c => StronglySorted path_lt (List.map fst (leaf_paths c))) l ->
  StronglySorted path_lt (List.map fst (flat_map path_item l)).
Proof.
  induction l as [|[k x] r IHr]; simpl; intros Hi IH; [constructor|].
  inversion Hi as [|? ? HF Hr]; subst.
  rewrite map_app. apply StronglySorted_app.
  - destruct x as [v|c]; unfold path_item; simpl.
    + repeat constructor.
    + rewrite map_map. simpl.
      rewrite <- (map_map fst (cons k)).
      apply StronglySorted_cons_paths. apply (IH k). now left.
  - apply IHr; [assumption|]. intros k' c' Hin. apply (IH k'). now right.
  - intros a b Ha Hb.
    apply in_map_iff in Ha. destruct Ha as [pa [<- Ha]].
    apply in_map_iff in Hb. destruct Hb as [pb [<- Hb]].
    apply path_item_head in Ha. destruct Ha as [p ->]. simpl.
    apply in_flat_map in Hb. destruct Hb as [kv [Hkv Hb]].
    apply path_item_head in Hb. destruct Hb as [q ->].
    apply path_lt_heads. rewrite Forall_forall in HF. apply HF.
    unfold keys. now apply in_map.
Qed.

(** The leaves come in the lexicographic order of their paths. *)
Lemma leaf_paths_sorted c :
  wfb c = true -> StronglySorted path_lt (List.map fst (leaf_paths c)).
Proof.
  induction c as [l IH] using Container_nested_ind.
  rewrite wfb_inv. intros [Hn [Hs Hc]]. rewrite leaf_paths_unfold.
  apply paths_loop; [now apply sorted_increasing|].
  intros k c Hin. apply sorted_In1 in Hin.
  apply (IH k c Hin). now apply (Hc k).
Qed.

End IterFacts.

(** C6, as the code has it: [to_iterator] yields one pair per leaf, depth
    first, the leaves in the lexicographic order of their paths; the key of
    a pair is the key under which the leaf is stored, not its key-chain
    from the root.  On the tree of the spec [to_flat_list] yields
    [[1,2,3]] (at ["a/x"]) before [[4,5]] (at ["b"]). *)
Theorem to_iterator_own_keys {V : Type} (T : Container V) :
  wfb T = true ->
  to_iterator T = List.map own_key (leaf_paths T)
  /\ List.length (to_iterator T) = n_leaves T
  /\ StronglySorted path_lt (List.map fst (leaf_paths T))
  /\ to_flat_list tree_ab = [[1; 2; 3]; [4; 5]]%Z.
Proof.
  intros Hwf. split; [apply to_iterator_own_key|].
  split; [apply to_iterator_length|].
  split; [now apply leaf_paths_sorted | reflexivity].
Qed.

Lemma to_iterator_own_keys_witness :
  wfb tree_ab = true
  /\ to_iterator tree_ab = List.map own_key (leaf_paths tree_ab)
  /\ List.length (to_iterator tree_ab) = n_leaves tree_ab
  /\ StronglySorted path_lt (List.map fst (leaf_paths tree_ab))
  /\ to_flat_list tree_ab = [[1; 2; 3]; [4; 5]]%Z.
Proof.
  split; [reflexivity|]. apply (to_iterator_own_keys tree_ab). reflexivity.
Defined.

(** C6 as the spec states it fails: the first component of the pair of the
    leaf at ["a/x"] is ["x"]. *)
Lemma to_iterator_not_key_chains :
  to_iterator tree_ab <> to_iterator_chains "" tree_ab.
Proof. vm_compute. discriminate. Qed.

(** ** Key-chains *)

Lemma split_nonempty (s : string) : split s <> [].
Proof.
  destruct s as [|c s]; simpl; [discriminate|].
  destruct (Ascii.eqb c "/"); [discriminate|].
  destruct (split s); discriminate.
Qed.

Section KeyChainFacts.
Context {V : Type}.
Implicit Types (cont self : Container V) (ret val : node V).

(** [has_key_chain] follows [at_key_chain] and turns a [KeyError], and only
    a [KeyError], into [False]. *)
Lemma has_keys_at_keys (ks : list string) ret :
  has_keys ks ret
  = match at_keys ks ret with
    | Ok _ => Ok true
    | Raise KeyError => Ok false
    | Raise e => Raise e
    end.
Proof.
  revert ret. induction ks as [|k ks IH]; intros ret; simpl; [reflexivity|].
  destruct (subscript ret k) as [x|e]; simpl; [apply IH|].
  destruct e; reflexivity.
Qed.

Lemma has_key_chain_at_key_chain self (key_chain : string) :
  has_key_chain self key_chain
  = match at_key_chain self key_chain with
    | Ok _ => Ok true
    | Raise KeyError => Ok false
    | Raise e => Raise e
    end.
Proof. apply has_keys_at_keys. Qed.

(** A segment that resolves to a leaf, with a segment after it: the next
    subscript is on the leaf, and what it raises is not caught. *)
Lemma has_keys_through_leaf (k k' : string) (ks : list string) cont (v : V) :
  dict_get k (items cont) = Some (Leaf v) ->
  has_keys (k :: k' :: ks) (Sub cont) = Raise TypeError.
Proof. intros H. simpl. now rewrite H. Qed.

Lemma set_keys_sets (ks : list string) (last_key : string) val cont :
  branches_along ks cont = true ->
  exists cont',
    set_keys ks last_key val cont = Ok cont'
    /\ at_keys (ks ++ [last_key]) (Sub cont') = Ok val.
Proof.
  revert cont. induction ks as [|k ks IH]; intros cont Hb; simpl.
  - eexists. split; [reflexivity|]. simpl.
    now rewrite dict_get_set_same.
  - simpl in Hb. unfold dict_contains.
    destruct (dict_get k (items cont)) as [[v|child]|] eqn:E.
    + discriminate.
    + rewrite E. destruct (IH child Hb) as [child' [Es Ha]].
      rewrite Es. simpl. eexists. split; [reflexivity|].
      simpl. now rewrite dict_get_set_same.
    + rewrite dict_get_set_same.
      destruct (IH (Dict []) ) as [child' [Es Ha]].
      { destruct ks; reflexivity. }
      rewrite Es. simpl. eexists. split; [reflexivity|].
      simpl. now rewrite dict_get_set_same.
Qed.

Lemma at_keys_empty (q : list string) :
  q <> [] -> at_keys q (Sub (Dict (V := V) [])) = Raise KeyError.
Proof. destruct q; [contradiction | reflexivity]. Qed.

Lemma diverges_nonempty (p q : list string) : diverges p q = true -> q <> [].
Proof. destruct p, q; simpl; congruence. Qed.

(** Nothing off the path is touched. *)
Lemma set_keys_frame (ks : list string) (last_key : string) val cont cont'
  (q : list string) :
  set_keys ks last_key val cont = Ok cont' ->
  diverges (ks ++ [last_key]) q = true ->
  at_keys q (Sub cont') = at_keys q (Sub cont).
Proof.
  revert cont cont' q.
  induction ks as [|k ks IH]; intros cont cont' q Hs Hd; simpl in Hs.
  - injection Hs as <-. destruct q as [|b q]; [discriminate|].
    simpl in Hd. destruct (String.eqb_spec last_key b) as [->|N].
    + destruct q; discriminate.
    + simpl. rewrite dict_get_set_other by congruence. reflexivity.
  - destruct q as [|b q]; [discriminate|]. simpl in Hd.
    unfold dict_contains in Hs.
    destruct (dict_get k (items cont)) as [[v|child]|] eqn:E.
    + rewrite E in Hs. discriminate.
    + rewrite E in Hs. apply bind_ok in Hs.
      destruct Hs as [child' [Es Hs]]. injection Hs as <-.
      destruct (String.eqb_spec k b) as [->|N]; simpl.
      * rewrite dict_get_set_same, E. simpl. now apply (IH child).
      * rewrite dict_get_set_other by congruence. reflexivity.
    + rewrite dict_get_set_same in Hs. apply bind_ok in Hs.
      destruct Hs as [child' [Es Hs]]. injection Hs as <-.
      destruct (String.eqb_spec k b) as [->|N]; simpl.
      * rewrite dict_get_set_same, E. simpl.
        rewrite (IH _ _ _ Es Hd).
        apply at_keys_empty. now apply diverges_nonempty in Hd.
      * rewrite !dict_get_set_other by congruence. reflexivity.
Qed.

End KeyChainFacts.

(** C8: [set_at_key_chain(path, value)] walks the segments of [path] that
    exist, makes an empty container for each missing one, and assigns
    [value] at the last segment: the tree it returns (the mutated [self])
    has [value] at [path] and is unchanged off the path.  On the empty
    container, ["c/d"] and [9] give [{"c": {"d": 9}}]. *)
Theorem set_at_key_chain_sets {V : Type} (self : Container V)
  (key_chain : string) (val : node V) :
  branches_along (removelast (split key_chain)) self = true ->
  exists self',
    set_at_key_chain self key_chain val = Ok self'
    /\ at_key_chain self' key_chain = Ok val
    /\ (forall q, diverges (split key_chain) q = true ->
                  at_keys q (Sub self') = at_keys q (Sub self))
    /\ set_at_key_chain (Dict []) "c/d" (Leaf 9%Z)
       = Ok (Dict [("c", Sub (Dict [("d", Leaf 9%Z)]))]).
Proof.
  intros Hb. unfold set_at_key_chain, at_key_chain.
  destruct (set_keys_sets _ (last (split key_chain) "") val _ Hb)
    as [self' [Es Ha]].
  rewrite <- app_removelast_last in Ha by apply split_nonempty.
  exists self'. split; [exact Es|]. split; [exact Ha|].
  split; [|reflexivity].
  intros q Hd. apply (set_keys_frame _ _ _ _ _ q Es).
  now rewrite <- app_removelast_last by apply split_nonempty.
Qed.

Lemma set_at_key_chain_sets_witness :
  branches_along (removelast (split "a/y/z")) tree_ab = true
  /\ exists self',
       set_at_key_chain tree_ab "a/y/z" (Leaf [0]%Z) = Ok self'
       /\ at_key_chain self' "a/y/z" = Ok (Leaf [0]%Z)
       /\ (forall q, diverges (split "a/y/z") q = true ->
                     at_keys q (Sub self') = at_keys q (Sub tree_ab))
       /\ set_at_key_chain (Dict []) "c/d" (Leaf 9%Z)
          = Ok (Dict [("c", Sub (Dict [("d", Leaf 9%Z)]))]).
Proof.
  split; [reflexivity|].
  apply (set_at_key_chain_sets tree_ab "a/y/z" (Leaf [0]%Z)). reflexivity.
Defined.

(** C7 fails on the code: the second segment of ["a/b"] is looked up in the
    leaf [1] stored at ["a"], which raises; [has_key_chain] does not return
    [False]. *)
Theorem has_key_chain_leaf_raises :
  has_key_chain tree_a1 "a/b" = Raise TypeError.
Proof. reflexivity. Qed.

(** ** Map *)

Section MapFacts.
Context {V : Type}.
Implicit Types (c : Container V) (l : list (string * node V)).
Variable func : V -> string -> V.
Variable key_chains : option (list string).
Variables to_apply prune_unapplied : bool.

Lemma map_unfold key_chain l :
  map func key_chains to_apply prune_unapplied key_chain (Dict l)
  = (return_dict <-
       fold_left
         (map_step func key_chains to_apply prune_unapplied key_chain)
         (sorted l) (Ok []) ;;
     __init__ (Dict return_dict)).
Proof.
  change (map func key_chains to_apply prune_unapplied key_chain (Dict l))
    with (return_dict <-
            fold_left
              (fun acc
                 (kv : string
                       * (list (string * node V)
                          -> result (list (string * node V)))) =>
                 return_dict <- acc ;; snd kv return_dict)
              (sorted
                 (List.map
                    (fun kv =>
                       (fst kv,
                        (fun kv =>
                           map_item func key_chains to_apply prune_unapplied
                             key_chain kv) kv)) l))
              (Ok []) ;;
          __init__ (Dict return_dict)).
  rewrite sorted_map, fold_left_map. reflexivity.
Qed.

(** The test of the code and the policy of the spec are the same test. *)
Lemma unapplied_selected (p : string) :
  unapplied key_chains to_apply p = negb (selected key_chains to_apply p).
Proof.
  unfold unapplied, selected. destruct key_chains as [kcs|]; [|reflexivity].
  destruct (in_chains p kcs), to_apply; reflexivity.
Qed.

Lemma canonical_items l' l :
  keys l' = keys l \/ (incl (keys l') (keys l)
                       /\ (increasing (keys l) -> increasing (keys l'))) ->
  increasing (keys l) ->
  (forall kv, In kv l -> has_slash (fst kv) = false) ->
  nested (fun c => canonicalb c = true) l' ->
  canonicalb (Dict l') = true.
Proof.
  intros Hk Hi Hs Hc. apply canonicalb_inv.
  assert (Hincl : incl (keys l') (keys l)).
  { destruct Hk as [->|[H _]]; [apply incl_refl | exact H]. }
  split; [destruct Hk as [->|[_ H]]; auto|]. split; [|assumption].
  intros kv Hin.
  assert (Hin' : In (fst kv) (keys l)) by (apply Hincl; now apply in_map).
  apply in_map_iff in Hin'. destruct Hin' as [kv' [<- Hin']]. now apply Hs.
Qed.

(** The loop of [map]: what it stores, and the leaves of what it stores. *)
Lemma map_loop key_chain l acc :
  nested (fun c => forall kc,
            exists c',
              map func key_chains to_apply prune_unapplied kc c = Ok c'
              /\ canonicalb c' = true
              /\ to_iterator_chains kc c'
                 = flat_map
                     (map_leaf func key_chains to_apply prune_unapplied)
                     (to_iterator_chains kc c)) l ->
  NoDup (keys acc ++ keys l) ->
  exists l',
    fold_left (map_step func key_chains to_apply prune_unapplied key_chain)
      l (Ok acc) = Ok (acc ++ l')
    /\ incl (keys l') (keys l)
    /\ (increasing (keys l) -> increasing (keys l'))
    /\ nested (fun c => canonicalb c = true) l'
    /\ flat_map (chain_item key_chain) l'
       = flat_map (map_leaf func key_chains to_apply prune_unapplied)
           (flat_map (chain_item key_chain) l).
Proof.
  revert acc. induction l as [|[k x] r IHr]; intros acc IH Hn.
  - exists []. simpl. rewrite app_nil_r. repeat split; auto using incl_refl.
    intros k c [].
  - cbn [fold_left flat_map].
    assert (Hx : exists xs,
               map_item func key_chains to_apply prune_unapplied key_chain
                 (k, x) acc = Ok (acc ++ xs)
               /\ (xs = [] \/ exists x', xs = [(k, x')])
               /\ nested (fun c => canonicalb c = true) xs
               /\ flat_map (chain_item key_chain) xs
                  = flat_map
                      (map_leaf func key_chains to_apply prune_unapplied)
                      (chain_item key_chain (k, x))).
    { assert (Hk := NoDup_keys_head _ _ _ _ Hn).
      destruct x as [v|c]; unfold map_item, chain_item; cbn [fst snd].
      - cbn [flat_map]. unfold map_leaf at 1. cbn [fst snd].
        rewrite unapplied_selected, app_nil_r.
        destruct (selected key_chains to_apply (join_chain key_chain k));
          cbn [negb].
        + exists [(k, Leaf (func v (join_chain key_chain k)))].
          rewrite dict_set_fresh by exact Hk.
          split; [reflexivity|]. split; [right; eauto|].
          split; [|reflexivity].
          intros k0 c0 [E|[]]; discriminate.
        + destruct prune_unapplied.
          * exists []. rewrite app_nil_r.
            split; [reflexivity|]. split; [now left|].
            split; [|reflexivity]. intros k0 c0 [].
          * exists [(k, Leaf v)]. rewrite dict_set_fresh by exact Hk.
            split; [reflexivity|]. split; [right; eauto|].
            split; [|reflexivity].
            intros k0 c0 [E|[]]; discriminate.
      - destruct (IH k c (or_introl eq_refl) (join_chain key_chain k))
          as [c' [E [Hc Hf]]].
        rewrite E. cbn [bind]. rewrite <- Hf.
        destruct c' as [l']. unfold truthy. simpl items.
        destruct l' as [|i l'].
        + exists []. rewrite app_nil_r.
          split; [reflexivity|]. split; [now left|].
          split; [|reflexivity]. intros k0 c0 [].
        + exists [(k, Sub (Dict (i :: l')))].
          rewrite dict_set_fresh by exact Hk.
          split; [reflexivity|]. split; [right; eauto|]. split.
          * intros k0 c0 [E0|[]]. now injection E0 as _ <-.
          * cbn [flat_map]. unfold chain_item. cbn [fst snd].
            now rewrite app_nil_r. }
    destruct Hx as [xs [Ex [Hxs [Hcx Hfx]]]].
    unfold map_step at 2. cbn [bind]. rewrite Ex.
    destruct (IHr (acc ++ xs)) as [l' [E [Hincl [Hinc [Hc Hf]]]]].
    + intros k' c' Hin. apply (IH k'). now right.
    + destruct Hxs as [->|[x' ->]].
      * rewrite app_nil_r. unfold keys in *. simpl in Hn.
        now apply NoDup_remove_1 in Hn.
      * exact (NoDup_keys_shift _ _ _ _ _ Hn).
    + exists (xs ++ l'). rewrite E, <- app_assoc. split; [reflexivity|].
      assert (Hkx : incl (keys xs) [k]).
      { destruct Hxs as [->|[x' ->]]; simpl; auto using incl_nil_l, incl_refl. }
      split; [|split; [|split]].
      * unfold keys in *. rewrite map_app. simpl.
        apply incl_app; [|now apply incl_tl].
        intros a Ha. apply Hkx in Ha. destruct Ha as [<-|[]]. now left.
      * intros Hi. simpl in Hi. inversion Hi as [|? ? HF Hr]; subst.
        destruct Hxs as [->|[x' ->]]; simpl; [now apply Hinc|].
        constructor; [|now apply Hinc].
        rewrite Forall_forall in *. intros a Ha. apply HF. now apply Hincl.
      * intros k0 c0 Hin. apply in_app_or in Hin.
        destruct Hin as [Hin|Hin]; [now apply (Hcx k0) | now apply (Hc k0)].
      * rewrite !flat_map_app, Hfx, Hf. reflexivity.
Qed.

Lemma map_leaves c key_chain :
  wfb c = true ->
  exists c',
    map func key_chains to_apply prune_unapplied key_chain c = Ok c'
    /\ canonicalb c' = true
    /\ to_iterator_chains key_chain c'
       = flat_map (map_leaf func key_chains to_apply prune_unapplied)
           (to_iterator_chains key_chain c).
Proof.
  revert key_chain. induction c as [l IH] using Container_nested_ind.
  intros key_chain Hwf. apply wfb_inv in Hwf. destruct Hwf as [Hn [Hs Hc]].
  rewrite map_unfold.
  destruct (map_loop key_chain (sorted l) [])
    as [l' [E [Hincl [Hinc [Hc' Hf]]]]].
  - intros k c Hin kc. apply sorted_In1 in Hin.
    apply (IH k c Hin). now apply (Hc k).
  - now apply NoDup_keys_sorted.
  - assert (Hcan : canonicalb (Dict l') = true).
    { apply (canonical_items l' (sorted l)); auto.
      - now apply sorted_increasing.
      - intros kv Hin. apply Hs. now apply sorted_In1. }
    exists (Dict l'). rewrite E. cbn [bind app].
    rewrite init_canonical by assumption. repeat split; [assumption|].
    rewrite !to_iterator_chains_unfold, <- Hf.
    rewrite increasing_sorted; [reflexivity|].
    apply canonicalb_inv in Hcan. tauto.
Qed.

End MapFacts.

Section MapIdentity.
Context {V : Type}.
Implicit Types (c : Container V) (l : list (string * node V)).

Lemma no_empty_subb_inv l :
  no_empty_subb (Dict l) = true <->
  nested (fun c => truthy c = true /\ no_empty_subb c = true) l.
Proof.
  simpl. rewrite forallb_forall. split.
  - intros H k c Hin. apply H in Hin. simpl in Hin.
    now apply andb_true_iff in Hin.
  - intros H [k x] Hin. destruct x as [v|c]; simpl; [reflexivity|].
    apply andb_true_iff. now apply (H k).
Qed.

Lemma sorted_nil_inv {A : Type} (l : list (string * A)) :
  sorted l = [] -> l = [].
Proof.
  intros H. apply Permutation_nil. rewrite <- H. apply sorted_perm.
Qed.

Lemma sorted_nonempty {A : Type} (l : list (string * A)) :
  match sorted l with [] => false | _ :: _ => true end
  = match l with [] => false | _ :: _ => true end.
Proof.
  destruct (sorted l) as [|p l0] eqn:E.
  - apply sorted_nil_inv in E. now subst.
  - destruct l; [discriminate E | reflexivity].
Qed.

Lemma map_nonempty {A B : Type} (f : A -> B) (l : list A) :
  match List.map f l with [] => false | _ :: _ => true end
  = match l with [] => false | _ :: _ => true end.
Proof. now destruct l. Qed.

Lemma truthy_canon c : truthy (canon c) = truthy c.
Proof.
  destruct c as [l]. rewrite canon_unfold. unfold truthy. cbn [items].
  etransitivity; [exact (map_nonempty _ (sorted l)) | exact (sorted_nonempty l)].
Qed.

Lemma map_identity_loop key_chain l acc :
  nested (fun c => forall kc,
            map identity None true false kc c = Ok (canon c)) l ->
  nested (fun c => truthy c = true) l ->
  NoDup (keys acc ++ keys l) ->
  fold_left (map_step identity None true false key_chain) l (Ok acc)
  = Ok (acc ++ List.map (fun kv => (fst kv, canon_node (snd kv))) l).
Proof.
  revert acc. induction l as [|[k x] r IHr]; intros acc IH Ht Hn.
  - simpl. now rewrite app_nil_r.
  - cbn [fold_left List.map fst snd].
    assert (Hx : map_item identity None true false key_chain (k, x) acc
                 = Ok (acc ++ [(k, canon_node x)])).
    { assert (Hk := NoDup_keys_head _ _ _ _ Hn).
      destruct x as [v|c]; unfold map_item; cbn [fst snd].
      - simpl unapplied. cbv iota. unfold identity.
        now rewrite dict_set_fresh by exact Hk.
      - rewrite (IH k c (or_introl eq_refl)). cbn [bind].
        rewrite truthy_canon, (Ht k c (or_introl eq_refl)).
        now rewrite dict_set_fresh by exact Hk. }
    unfold map_step at 2. cbn [bind]. rewrite Hx.
    rewrite IHr.
    + now rewrite <- app_assoc.
    + intros k' c' Hin. apply (IH k'). now right.
    + intros k' c' Hin. apply (Ht k'). now right.
    + exact (NoDup_keys_shift _ _ _ _ _ Hn).
Qed.

Lemma map_identity_canon c key_chain :
  wfb c = true -> no_empty_subb c = true ->
  map identity None true false key_chain c = Ok (canon c).
Proof.
  revert key_chain. induction c as [l IH] using Container_nested_ind.
  intros key_chain Hwf Hne. assert (Hwf' := Hwf).
  apply wfb_inv in Hwf. destruct Hwf as [Hn [Hs Hc]].
  apply no_empty_subb_inv in Hne.
  rewrite map_unfold.
  rewrite (map_identity_loop key_chain (sorted l) []).
  - cbn [bind app]. rewrite <- canon_unfold.
    apply init_canonical. now apply canon_canonical.
  - intros k c Hin kc. apply sorted_In1 in Hin.
    apply (IH k c Hin); [now apply (Hc k) | now apply (Hne k)].
  - intros k c Hin. apply sorted_In1 in Hin. now apply (Hne k).
  - now apply NoDup_keys_sorted.
Qed.

End MapIdentity.

(** C4, as the code has it: [T.map(identity)] returns a container equal to
    [T] when no container nested in [T] is empty; [map] keeps a nested
    container only when what it made of it is not empty. *)
Theorem map_identity {V : Type} (T : Container V) :
  wfb T = true ->
  no_empty_subb T = true ->
  exists T',
    map identity None true false "" T = Ok T'
    /\ same_dict T' T
    /\ to_iterator T' = to_iterator T
    /\ (canonicalb T = true -> T' = T).
Proof.
  intros Hwf Hne. exists (canon T).
  split; [now apply map_identity_canon|]. split; [now apply canon_idem|].
  split; [now apply to_iterator_canon | apply canon_fixed].
Qed.

Lemma map_identity_witness :
  wfb tree_ab = true
  /\ no_empty_subb tree_ab = true
  /\ exists T',
       map identity None true false "" tree_ab = Ok T'
       /\ same_dict T' tree_ab
       /\ to_iterator T' = to_iterator tree_ab
       /\ (canonicalb tree_ab = true -> T' = tree_ab).
Proof.
  split; [reflexivity|]. split; [reflexivity|].
  apply (map_identity tree_ab); reflexivity.
Defined.

(** C4 as the spec states it fails on [{"a": {}}]: the empty container under
    ["a"] is dropped. *)
Lemma map_identity_drops_empty :
  map identity None true false "" tree_hollow = Ok (Dict [])
  /\ ~ (exists T',
          map identity None true false "" tree_hollow = Ok T'
          /\ same_dict T' tree_hollow).
Proof.
  split; [reflexivity|].
  intros [T' [E H]]. vm_compute in E. injection E as <-.
  vm_compute in H. discriminate.
Qed.

(** ** Reduce *)

Lemma Forall2_In_l {A B : Type} (R : A -> B -> Prop) (l1 : list A)
  (l2 : list B) (a : A) :
  Forall2 R l1 l2 -> In a l1 -> exists b, In b l2 /\ R a b.
Proof.
  induction 1 as [|x y l1 l2 Hxy _ IH]; intros Hin; [destruct Hin|].
  destruct Hin as [<-|Hin].
  - exists y. split; [now left | assumption].
  - destruct (IH Hin) as [b [Hb Hab]]. exists b. split; [now right | assumption].
Qed.

Section ReduceFacts.
Context {V : Type}.
Implicit Types (c : Container V) (l : list (string * node V)).
Variable reduction : list (node V) -> result V.

Lemma reduce_dicts_unfold l (others : list (node V)) :
  reduce_dicts reduction (Dict l) others
  = (return_dict <- fold_left (reduce_step reduction others) l (Ok []) ;;
     __init__ (Dict return_dict)).
Proof.
  change (reduce_dicts reduction (Dict l) others)
    with (return_dict <-
            fold_left
              (fun acc (kv : string * (list (node V) -> result (node V))) =>
                 return_dict <- acc ;;
                 xs <- index_all others (fst kv) ;;
                 r <- snd kv xs ;;
                 Ok (dict_set (fst kv) r return_dict))
              (List.map
                 (fun kv =>
                    (fst kv, fun xs => reduce_item reduction (snd kv) xs)) l)
              (Ok []) ;;
          __init__ (Dict return_dict)).
  rewrite fold_left_map. reflexivity.
Qed.

(** Under a key without ['/'], [container[key]] is the child of that
    name. *)
Lemma index_all_children (others xs : list (node V)) (key : string) :
  has_slash key = false ->
  index_all others key = Ok xs <->
  Forall2 (fun o x => child_of o key = Some x) others xs.
Proof.
  intros Hs. revert xs. induction others as [|o r IH]; intros xs; simpl.
  - split; intros H; [injection H as <-; constructor | now inversion H].
  - split.
    + intros H. apply bind_ok in H. destruct H as [x [Ex H]].
      apply bind_ok in H. destruct H as [xs' [Exs H]]. injection H as <-.
      constructor; [|now apply IH].
      destruct o as [v|c]; simpl in *; [discriminate|].
      unfold __getitem__ in Ex. rewrite Hs in Ex.
      destruct (dict_get key (items c)); [congruence | discriminate].
    + intros H. inversion H as [|? x ? xs' Hx Hr]; subst.
      apply IH in Hr. rewrite Hr.
      destruct o as [v|c]; simpl in *; [discriminate|].
      unfold __getitem__. rewrite Hs, Hx. reflexivity.
Qed.

Lemma reduce_step_raise (others : list (node V)) e kv :
  reduce_step reduction others (Raise e) kv = Raise e.
Proof. reflexivity. Qed.

(** When the loop of [reduce] succeeds, each of its steps has. *)
Lemma reduce_loop_ok l (others : list (node V)) acc rd :
  fold_left (reduce_step reduction others) l (Ok acc) = Ok rd ->
  forall kv, In kv l ->
    exists xs r,
      index_all others (fst kv) = Ok xs
      /\ reduce_item reduction (snd kv) xs = Ok r.
Proof.
  revert acc. induction l as [|kv0 l IH]; intros acc H kv Hin.
  - destruct Hin.
  - cbn [fold_left] in H.
    destruct (reduce_step reduction others (Ok acc) kv0) as [acc'|e] eqn:E.
    + destruct Hin as [<-|Hin]; [|now apply (IH acc')].
      unfold reduce_step in E. cbn [bind] in E.
      apply bind_ok in E. destruct E as [xs [Exs E]].
      apply bind_ok in E. destruct E as [r [Er _]].
      now exists xs, r.
    + rewrite fold_left_raise in H by apply reduce_step_raise. discriminate.
Qed.

(** A key of the first tree that a later tree lacks, at any level, makes
    [reduce] fail: if it succeeds, every other tree covers the first. *)
Lemma reduce_dicts_covers c (others : list (node V)) c' :
  wfb c = true ->
  reduce_dicts reduction c others = Ok c' ->
  Forall (fun o => covers c o = true) others.
Proof.
  revert others c'. induction c as [l IH] using Container_nested_ind.
  intros others c' Hwf H. apply wfb_inv in Hwf. destruct Hwf as [Hn [Hs Hc]].
  rewrite reduce_dicts_unfold in H. apply bind_ok in H.
  destruct H as [rd [Hloop _]].
  pose proof (reduce_loop_ok l others [] rd Hloop) as Hsteps.
  rewrite Forall_forall. intros o Ho. simpl. rewrite forallb_forall.
  intros [k x] Hin. destruct (Hsteps _ Hin) as [xs [r [Exs Er]]].
  simpl in Exs, Er.
  apply (index_all_children others xs k (Hs _ Hin)) in Exs.
  destruct (Forall2_In_l _ _ _ o Exs Ho) as [y [Hy Hoy]].
  cbn [fst snd]. rewrite Hoy. destruct x as [v|c]; [reflexivity|].
  simpl in Er. apply bind_ok in Er. destruct Er as [c1 [Er _]].
  pose proof (IH k c Hin xs c1 (Hc k c Hin) Er) as Hcov.
  rewrite Forall_forall in Hcov. now apply Hcov.
Qed.

End ReduceFacts.

Lemma Forall_exists_Forall2 {A B : Type} (R : A -> B -> Prop) (l : list A) :
  Forall (fun a => exists b, R a b) l -> exists l', Forall2 R l l'.
Proof.
  induction 1 as [|a l [b Hb] _ [l' IH]].
  - exists []. constructor.
  - exists (b :: l'). now constructor.
Qed.

Lemma Forall2_weaken {A B : Type} (R R' : A -> B -> Prop) (l : list A)
  (l' : list B) :
  (forall a b, R a b -> R' a b) -> Forall2 R l l' -> Forall2 R' l l'.
Proof. intros H. induction 1; constructor; auto. Qed.

Lemma Forall2_through {A B C : Type} (R : A -> B -> Prop)
  (S : B -> C -> Prop) (T : A -> C -> Prop) (l1 : list A) (l2 : list B)
  (l3 : list C) :
  (forall a b c, R a b -> S b c -> T a c) ->
  Forall2 R l1 l2 -> Forall2 S l2 l3 -> Forall2 T l1 l3.
Proof.
  intros H H1. revert l3. induction H1 as [|a b l1 l2 Hab _ IH]; intros l3 H2.
  - inversion H2. constructor.
  - inversion H2; subst. constructor; eauto.
Qed.

Lemma Forall2_maps {A B A' B' : Type} (R : A' -> B' -> Prop) (f : A -> A')
  (g : B -> B') (l : list A) (l' : list B) :
  Forall2 (fun a b => R (f a) (g b)) l l' ->
  Forall2 R (List.map f l) (List.map g l').
Proof. induction 1; simpl; constructor; auto. Qed.

Lemma Forall2_flat_maps {A B A' B' : Type} (R : A -> B -> Prop)
  (R' : A' -> B' -> Prop) (f : A -> list A') (g : B -> list B')
  (l : list A) (l' : list B) :
  (forall a b, R a b -> Forall2 R' (f a) (g b)) ->
  Forall2 R l l' -> Forall2 R' (flat_map f l) (flat_map g l').
Proof.
  intros H. induction 1; simpl; [constructor|].
  apply Forall2_app; auto.
Qed.

Lemma Forall2_insert_item {A B : Type} (R : string * A -> string * B -> Prop)
  (x : string * A) (y : string * B) (l : list (string * A))
  (l' : list (string * B)) :
  (forall a b, R a b -> fst b = fst a) ->
  R x y -> Forall2 R l l' -> Forall2 R (insert_item x l) (insert_item y l').
Proof.
  intros Hk Hxy. induction 1 as [|a b l l' Hab Hl IH]; simpl.
  - repeat constructor. assumption.
  - rewrite (Hk _ _ Hxy), (Hk _ _ Hab).
    destruct (String.leb (fst x) (fst a)); repeat constructor; assumption.
Qed.

(** Items that agree on their keys are sorted alike. *)
Lemma Forall2_sorted {A B : Type} (R : string * A -> string * B -> Prop)
  (l : list (string * A)) (l' : list (string * B)) :
  (forall a b, R a b -> fst b = fst a) ->
  Forall2 R l l' -> Forall2 R (sorted l) (sorted l').
Proof.
  intros Hk. induction 1; simpl; [constructor|].
  now apply Forall2_insert_item.
Qed.

Lemma Forall2_keys {A B : Type} (R : string * A -> string * B -> Prop)
  (l : list (string * A)) (l' : list (string * B)) :
  (forall a b, R a b -> fst b = fst a) -> Forall2 R l l' -> keys l' = keys l.
Proof.
  intros Hk. induction 1; simpl; [reflexivity|]. f_equal; auto.
Qed.

Section ReduceLeaves.
Context {V : Type}.
Implicit Types (c : Container V) (l : list (string * node V)).
Variable reduction : list (node V) -> result V.

Lemma path_item_canon_node k (x : node V) :
  (forall c, x = Sub c -> leaf_paths (canon c) = leaf_paths c) ->
  path_item (k, canon_node x) = path_item (k, x).
Proof.
  intros H. destruct x as [v|c]; [reflexivity|].
  unfold path_item. simpl. now rewrite H.
Qed.

Lemma leaf_paths_canon c : wfb c = true -> leaf_paths (canon c) = leaf_paths c.
Proof.
  induction c as [l IH] using Container_nested_ind.
  rewrite wfb_inv. intros [Hn [Hs Hc]].
  rewrite canon_unfold, !leaf_paths_unfold.
  rewrite increasing_sorted
    by (rewrite keys_map_snd; now apply sorted_increasing).
  rewrite flat_map_map. apply flat_map_ext_in.
  intros [k x] Hin. apply sorted_In1 in Hin. simpl.
  apply path_item_canon_node. intros c ->.
  apply (IH k c Hin). now apply (Hc k).
Qed.

Lemma child_subscript (o y : node V) (k : string) :
  child_of o k = Some y -> subscript o k = Ok y.
Proof. destruct o as [v|c]; simpl; [discriminate | now intros ->]. Qed.

Lemma covers_inv l (o : node V) :
  covers (Dict l) o = true ->
  forall k x, In (k, x) l ->
    exists y, child_of o k = Some y
              /\ (forall c, x = Sub c -> covers c y = true).
Proof.
  simpl. rewrite forallb_forall. intros H k x Hin.
  apply H in Hin. cbn [fst snd] in Hin.
  destruct (child_of o k) as [y|]; [|discriminate].
  exists y. split; [reflexivity|]. now intros c ->.
Qed.

Lemma reduced_leaf_under (k : string) (others xs : list (node V))
  (pv pr : list string * V) :
  Forall2 (fun o x => child_of o k = Some x) others xs ->
  reduced_leaf reduction xs pv pr ->
  reduced_leaf reduction others (k :: fst pv, snd pv) (k :: fst pr, snd pr).
Proof.
  intros Hch [Hp [zs [Hzs Hr]]]. split; [simpl; now rewrite Hp|].
  exists zs. split; [|exact Hr].
  eapply Forall2_through; [|exact Hch|exact Hzs].
  intros o x z H1 H2. simpl. rewrite (child_subscript _ _ _ H1). exact H2.
Qed.

(** The leaves below the item [(k, Sub c)], seen from [c]. *)
Lemma reduces_item_under (k : string) c (others xs : list (node V)) :
  Forall2 (fun o x => child_of o k = Some x) others xs ->
  reduces_item reduction (k, Sub c) others ->
  reduces_at reduction c xs.
Proof.
  intros Hch Hred pv Hin zs Hzs.
  apply (Hred (k :: fst pv, snd pv)).
  - unfold path_item. cbn [fst snd]. apply in_map_iff. now exists pv.
  - eapply Forall2_through; [|exact Hch|exact Hzs].
    intros o x z H1 H2. cbn [fst]. simpl.
    rewrite (child_subscript _ _ _ H1). exact H2.
Qed.

(** One step of the loop of [reduce]. *)
Lemma reduce_item_ok (k : string) (x : node V) (others : list (node V)) :
  has_slash k = false ->
  (forall c, x = Sub c ->
     forall xs, Forall (fun o => covers c o = true) xs ->
       reduces_at reduction c xs ->
       exists c',
         reduce_dicts reduction c xs = Ok c'
         /\ canonicalb c' = true
         /\ Forall2 (reduced_leaf reduction xs) (leaf_paths c)
              (leaf_paths c')) ->
  reduces_item reduction (k, x) others ->
  Forall (fun o => exists y, child_of o k = Some y
                             /\ (forall c, x = Sub c -> covers c y = true))
    others ->
  exists xs r,
    index_all others k = Ok xs
    /\ reduce_item reduction x xs = Ok r
    /\ reduced_item reduction others (k, x) (k, r).
Proof.
  intros Hs IH Hred Hcov.
  apply Forall_exists_Forall2 in Hcov. destruct Hcov as [xs Hxs].
  assert (Hch : Forall2 (fun o y => child_of o k = Some y) others xs).
  { eapply Forall2_weaken; [|exact Hxs]. simpl. tauto. }
  exists xs. destruct x as [v|c].
  - assert (Hat : Forall2 (fun o y => at_keys [k] o = Ok y) others xs).
    { eapply Forall2_weaken; [|exact Hch].
      intros o y Hy. simpl. now rewrite (child_subscript _ _ _ Hy). }
    destruct (Hred ([k], v) (or_introl eq_refl) xs Hat) as [r Er].
    cbn [snd] in Er.
    exists (Leaf r). split; [now apply index_all_children|].
    split; [simpl; unfold reduce_leaves; now rewrite Er|].
    split; [reflexivity|]. split; [discriminate|].
    unfold path_item. cbn [fst snd]. constructor; [|constructor].
    split; [reflexivity|]. exists xs. split; [exact Hat | exact Er].
  - destruct (IH c eq_refl xs) as [c' [E [Hc Hf]]].
    { clear -Hxs. induction Hxs as [|o y others xs [_ Hy] _ IH];
        constructor; auto. }
    { exact (reduces_item_under k c others xs Hch Hred). }
    exists (Sub c'). split; [now apply index_all_children|].
    split; [simpl; now rewrite E|].
    split; [reflexivity|]. split.
    + intros c0 E0. simpl in E0. now injection E0 as <-.
    + unfold path_item. cbn [fst snd]. apply Forall2_maps.
      eapply Forall2_weaken; [|exact Hf].
      intros pv pr. now apply reduced_leaf_under.
Qed.

Lemma reduce_loop l (others : list (node V)) acc :
  nested (fun c => forall xs,
            Forall (fun o => covers c o = true) xs ->
            reduces_at reduction c xs ->
            exists c',
              reduce_dicts reduction c xs = Ok c'
              /\ canonicalb c' = true
              /\ Forall2 (reduced_leaf reduction xs) (leaf_paths c)
                   (leaf_paths c')) l ->
  (forall kv, In kv l -> has_slash (fst kv) = false) ->
  (forall kv, In kv l -> reduces_item reduction kv others) ->
  Forall (fun o => covers (Dict l) o = true) others ->
  NoDup (keys acc ++ keys l) ->
  exists l',
    fold_left (reduce_step reduction others) l (Ok acc) = Ok (acc ++ l')
    /\ Forall2 (reduced_item reduction others) l l'.
Proof.
  revert acc. induction l as [|[k x] r IHr]; intros acc IH Hs Hred Hcov Hn.
  - exists []. simpl. rewrite app_nil_r. split; [reflexivity | constructor].
  - destruct (reduce_item_ok k x others) as [xs [y [Exs [Ey Hy]]]].
    + apply (Hs (k, x)). now left.
    + intros c -> xs. apply (IH k c). now left.
    + apply Hred. now left.
    + eapply Forall_impl; [|exact Hcov]. intros o Ho.
      apply (covers_inv _ _ Ho). now left.
    + cbn [fold_left]. unfold reduce_step at 2. cbn [bind fst snd].
      rewrite Exs. cbn [bind]. rewrite Ey. cbn [bind].
      rewrite dict_set_fresh by exact (NoDup_keys_head _ _ _ _ Hn).
      destruct (IHr (acc ++ [(k, y)])) as [l' [E Hf]].
      * intros k' c' Hin. apply (IH k'). now right.
      * intros kv Hin. apply Hs. now right.
      * intros kv Hin. apply Hred. now right.
      * eapply Forall_impl; [|exact Hcov]. intros o Ho.
        simpl in Ho. apply andb_true_iff in Ho. apply Ho.
      * exact (NoDup_keys_shift _ _ _ _ _ Hn).
      * exists ((k, y) :: l'). rewrite E, <- app_assoc.
        split; [reflexivity | now constructor].
Qed.

Lemma reduced_item_key (others : list (node V)) (a b : string * node V) :
  reduced_item reduction others a b -> fst b = fst a.
Proof. now intros [H _]. Qed.

(** When every other tree covers the first and the reduction does not
    fail at the leaves of the first, [reduce] succeeds, and each leaf of
    the result is the reduction of the values at the path of the leaf. *)
Lemma reduce_dicts_leaves c (others : list (node V)) :
  wfb c = true ->
  Forall (fun o => covers c o = true) others ->
  reduces_at reduction c others ->
  exists c',
    reduce_dicts reduction c others = Ok c'
    /\ canonicalb c' = true
    /\ Forall2 (reduced_leaf reduction others) (leaf_paths c)
         (leaf_paths c').
Proof.
  revert others. induction c as [l IH] using Container_nested_ind.
  intros others Hwf Hcov Hred. apply wfb_inv in Hwf.
  destruct Hwf as [Hn [Hs Hc]].
  destruct (reduce_loop l others []) as [l' [E Hf]]; auto.
  - intros k c Hin xs Hxs Hr.
    apply (IH k c Hin); [now apply (Hc k) | assumption | assumption].
  - intros kv Hin pv Hpv. apply Hred. rewrite leaf_paths_unfold.
    apply in_flat_map. exists kv. split; [now apply sorted_In | exact Hpv].
  - pose proof (Forall2_keys _ _ _ (reduced_item_key others) Hf) as Hk.
    assert (Hwf' : wfb (Dict l') = true).
    { apply wfb_inv. rewrite Hk. split; [assumption|]. split.
      - intros kv Hin.
        assert (Hin' : In (fst kv) (keys l)).
        { rewrite <- Hk. now apply in_map. }
        apply in_map_iff in Hin'. destruct Hin' as [kv' [<- Hin']].
        now apply Hs.
      - intros k c Hin. apply canonical_wf.
        apply Forall2_flip in Hf.
        destruct (Forall2_In_l _ _ _ _ Hf Hin) as [kv [_ [_ [Hcan _]]]].
        now apply Hcan. }
    exists (canon (Dict l')).
    rewrite reduce_dicts_unfold, E. cbn [bind app].
    split; [now apply init_canon|].
    split; [now apply canon_canonical|].
    rewrite leaf_paths_canon by assumption. rewrite !leaf_paths_unfold.
    apply (Forall2_flat_maps (reduced_item reduction others)).
    + now intros a b [_ [_ H]].
    + apply Forall2_sorted; [apply reduced_item_key | assumption].
Qed.

End ReduceLeaves.

(** C3, as the code has it: [reduce] walks the keys of the first tree.  It
    raises when one of them is missing from a later tree, at any level;
    when every later tree covers the first, as when the topologies agree,
    and the reduction does not raise at the leaves of the first tree, it
    succeeds and applies the reduction at every leaf of the first tree to
    the values the trees hold there.  Keys that only later trees have play
    no part. *)
Theorem reduce_first_tree {V : Type} (reduction : list (node V) -> result V)
  (container0 : Container V) (others : list (node V)) :
  wfb container0 = true ->
  (Exists (fun o => covers container0 o = false) others ->
   exists e, reduce (Sub container0 :: others) reduction = Raise e)
  /\ (Forall (fun o => covers container0 o = true) others ->
      reduces_at reduction container0 others ->
      exists c',
        reduce (Sub container0 :: others) reduction = Ok (Sub c')
        /\ Forall2 (reduced_leaf reduction others) (leaf_paths container0)
             (leaf_paths c')).
Proof.
  intros Hwf. split.
  - intros Hex.
    destruct (reduce (Sub container0 :: others) reduction) as [r|e] eqn:H;
      [|now exists e].
    exfalso. simpl in H. apply bind_ok in H. destruct H as [c' [H _]].
    pose proof (reduce_dicts_covers reduction container0 others c' Hwf H)
      as Hcov.
    apply Exists_exists in Hex. destruct Hex as [o [Ho Hf]].
    rewrite Forall_forall in Hcov. rewrite (Hcov o Ho) in Hf. discriminate.
  - intros Hcov Hred.
    destruct (reduce_dicts_leaves reduction container0 others Hwf Hcov Hred)
      as [c' [E [_ Hf]]].
    exists c'. simpl. rewrite E. split; [reflexivity | exact Hf].
Qed.

Lemma reduce_first_tree_witness :
  wfb tree_a2 = true
  /\ Forall (fun o => covers tree_a2 o = true) [Sub tree_a1b3]
  /\ reduces_at sum_leaves tree_a2 [Sub tree_a1b3]
  /\ exists c',
       reduce [Sub tree_a2; Sub tree_a1b3] sum_leaves = Ok (Sub c')
       /\ Forall2 (reduced_leaf sum_leaves [Sub tree_a1b3])
            (leaf_paths tree_a2) (leaf_paths c').
Proof.
  assert (Hred : reduces_at sum_leaves tree_a2 [Sub tree_a1b3]).
  { intros pv [<-|[]] xs Hxs.
    inversion Hxs as [|o x os xs' Hx Hr]; subst.
    inversion Hr; subst. vm_compute in Hx. injection Hx as <-.
    eexists. reflexivity. }
  split; [reflexivity|]. split; [repeat constructor|]. split; [exact Hred|].
  apply (reduce_first_tree sum_leaves tree_a2 [Sub tree_a1b3]).
  - reflexivity.
  - repeat constructor.
  - exact Hred.
Defined.

(** A key of the first tree that a later tree lacks makes [reduce] raise:
    here ["b"], which the second tree does not have. *)
Example reduce_missing_key_raises :
  Exists (fun o => covers tree_a1b3 o = false) [Sub tree_a2]
  /\ exists e, reduce [Sub tree_a1b3; Sub tree_a2] sum_leaves = Raise e.
Proof. split; [left; reflexivity | eexists; reflexivity]. Qed.

(** A key of the first tree that the second lacks: [KeyError]. *)
Example reduce_missing_key :
  reduce [Sub tree_a1b3; Sub tree_a2] sum_leaves = Raise KeyError.
Proof. reflexivity. Qed.

(** C3 as the spec states it fails: the topologies differ, ["b"] being a
    key of the second tree only, and [reduce] returns [{"a": 3}]. *)
Lemma reduce_ignores_extra_keys :
  topology tree_a2 <> topology tree_a1b3
  /\ reduce [Sub tree_a2; Sub tree_a1b3] sum_leaves
     = Ok (Sub (Dict [("a", Leaf 3%Z)])).
Proof. split; [discriminate | reflexivity]. Qed.

(** ** Consensus shape *)

Section ChainValues.
Context {V : Type}.

(** The iterator and its key-chain variant yield the same values. *)
Lemma to_iterator_chains_values (c : Container V) (key_chain : string) :
  List.map snd (to_iterator_chains key_chain c) = to_flat_list c.
Proof.
  revert key_chain. unfold to_flat_list.
  induction c as [l IH] using Container_nested_ind. intros key_chain.
  rewrite to_iterator_chains_unfold, to_iterator_unfold.
  apply nested_sorted in IH. induction (sorted l) as [|[k x] r IHr].
  - reflexivity.
  - simpl. rewrite !map_app. f_equal.
    + destruct x as [v|c]; [reflexivity|].
      unfold chain_item, iter_item. simpl. apply (IH k). now left.
    + apply IHr. intros k' c' Hin. apply (IH k'). now right.
Qed.

End ChainValues.

Lemma shape_or_len_dims (x : pyval) (kc : string) :
  ints_of (shape_or_len x kc) = leaf_dims x
  /\ py_truthy (shape_or_len x kc) = nonnil (leaf_dims x).
Proof.
  destruct x as [|z|xs|sh]; simpl; try (split; reflexivity).
  split.
  - rewrite map_map. simpl. apply map_id.
  - now destruct sh.
Qed.

Lemma sub_shapes_ranked (pvs : list (string * pyval)) :
  List.map ints_of
    (filter py_truthy
       (List.map snd
          (flat_map (map_leaf shape_or_len None true false) pvs)))
  = filter nonnil (List.map leaf_dims (List.map snd pvs)).
Proof.
  induction pvs as [|[p v] r IH]; [reflexivity|].
  cbn [flat_map List.map]. unfold map_leaf at 1. cbn [selected fst snd app].
  cbn [List.map filter snd].
  destruct (shape_or_len_dims v p) as [Hd Ht]. rewrite Ht.
  destruct (nonnil (leaf_dims v)); cbn [List.map]; now rewrite IH, ?Hd.
Qed.

(** [_get_shape] on a container with keys, in terms of the shapes of its
    leaves. *)
Lemma get_shape_ranked (T : Container pyval) :
  wfb T = true -> items T <> [] ->
  _get_shape T
  = (min_num_dims <- py_min (List.map (@List.length Z) (ranked_shapes T)) ;;
     Ok (List.map
           (consensus_dim
              (List.map
                 (fun sub_shape =>
                    List.map zero_to_minus_one (firstn min_num_dims sub_shape))
                 (ranked_shapes T)))
           (seq 0 min_num_dims))).
Proof.
  intros Hwf Hne. unfold _get_shape.
  destruct (items T) as [|i l] eqn:E; [contradiction|].
  destruct (map_leaves shape_or_len None true false T "" Hwf)
    as [T' [Em [_ Hf]]].
  rewrite Em. cbn [bind].
  assert (Hsub : List.map ints_of
                   (filter py_truthy (List.map snd (to_iterator T')))
                 = ranked_shapes T).
  { change (List.map snd (to_iterator T')) with (to_flat_list T').
    rewrite <- (to_iterator_chains_values T' ""), Hf, sub_shapes_ranked.
    unfold ranked_shapes. now rewrite to_iterator_chains_values. }
  rewrite Hsub. reflexivity.
Qed.

Lemma fold_min_le (ns : list nat) (n : nat) :
  fold_left Nat.min ns n <= n
  /\ Forall (fun m => fold_left Nat.min ns n <= m) ns
  /\ (fold_left Nat.min ns n = n \/ In (fold_left Nat.min ns n) ns).
Proof.
  revert n. induction ns as [|m ns IH]; intros n; simpl.
  - split; [lia|]. split; [constructor | now left].
  - destruct (IH (Nat.min n m)) as [H1 [H2 H3]]. split; [lia|].
    split; [constructor; [lia | assumption]|].
    destruct H3 as [H3|H3]; [|right; now right].
    rewrite H3. destruct (Nat.min_dec n m) as [->| ->]; [now left|].
    right. now left.
Qed.

Lemma py_min_spec (ns : list nat) :
  ns <> [] ->
  exists n,
    py_min ns = Ok n /\ Forall (fun m => n <= m) ns /\ In n ns.
Proof.
  destruct ns as [|n0 ns]; [contradiction|]. intros _.
  exists (fold_left Nat.min ns n0). split; [reflexivity|].
  destruct (fold_min_le ns n0) as [H1 [H2 H3]].
  split; [now constructor|].
  destruct H3 as [->|H3]; [now left | now right].
Qed.

(** *** Binary64: a finite number divided by itself *)

Lemma div_eucl_self (m : positive) :
  Z.div_eucl (Z.shiftl (Zpos m) 53) (Zpos m) = (Z.pow 2 53, 0%Z).
Proof.
  destruct (Z.div_eucl (Z.shiftl (Zpos m) 53) (Zpos m)) as [q r] eqn:E.
  assert (Hq : q = Z.div (Z.shiftl (Zpos m) 53) (Zpos m))
    by (unfold Z.div; now rewrite E).
  assert (Hr : r = Z.modulo (Z.shiftl (Zpos m) 53) (Zpos m))
    by (unfold Z.modulo; now rewrite E).
  rewrite Z.shiftl_mul_pow2 in Hq, Hr by lia.
  rewrite Z.mul_comm in Hq, Hr.
  rewrite Z.div_mul in Hq by lia. rewrite Z.mod_mul in Hr by lia.
  now subst.
Qed.

(** The quotient of the mantissas is [2^53] with no remainder, which rounds
    to [1.0] exactly. *)
Lemma SF64div_self (s : bool) (m : positive) (e : Z) :
  FloatAxioms.SF64div (SpecFloat.S754_finite s m e)
    (SpecFloat.S754_finite s m e)
  = SpecFloat.S754_finite false 4503599627370496 (-52).
Proof.
  unfold FloatAxioms.SF64div, SpecFloat.SFdiv, SpecFloat.SFdiv_core_binary.
  rewrite !Z.sub_diag.
  change (IntDef.Z.min (SpecFloat.fexp FloatOps.prec FloatOps.emax 0) 0)
    with (-53)%Z.
  change (0 - -53)%Z with 53%Z. cbv beta iota zeta.
  rewrite div_eucl_self.
  unfold SpecFloat.new_location, SpecFloat.new_location_even,
    SpecFloat.new_location_odd.
  rewrite xorb_nilpotent.
  destruct (Z.even (Zpos m)); reflexivity.
Qed.

Lemma float_div_self (x : PrimFloat.float) (s : bool) (m : positive) (e : Z) :
  FloatOps.Prim2SF x = SpecFloat.S754_finite s m e ->
  PrimFloat.div x x = PrimFloat.one.
Proof.
  intros H. apply FloatAxioms.Prim2SF_inj.
  rewrite FloatAxioms.div_spec, H, SF64div_self. reflexivity.
Qed.

Lemma float_finite_not_nan (x : PrimFloat.float) (s : bool) (m : positive)
  (e : Z) :
  FloatOps.Prim2SF x = SpecFloat.S754_finite s m e ->
  PrimFloat.is_nan x = false.
Proof.
  intros H. unfold PrimFloat.is_nan.
  rewrite FloatAxioms.eqb_spec, H.
  unfold SpecFloat.SFeqb, SpecFloat.SFcompare.
  rewrite Z.compare_refl, Pos.compare_cont_refl.
  now destruct s.
Qed.

(** *** Binary64: the integers below [2^53] are held exactly *)










(** A non-zero integer that the conversion to float64 and back returns
    is held by a finite float. *)
Lemma float_of_int_finite (v : Z) :
  v <> 0%Z -> int_of_float (float_of_int v) = v ->
  exists s m e,
    FloatOps.Prim2SF (float_of_int v) = SpecFloat.S754_finite s m e.
Proof.
  unfold int_of_float. intros Hv H.
  destruct (FloatOps.Prim2SF (float_of_int v)) as [s0|s0| |s0 m0 e0];
    try congruence.
  now exists s0, m0, e0.
Qed.

Lemma np_prod_ones (column : list PrimFloat.float) :
  Forall (fun x => x = PrimFloat.one) column ->
  np_prod column = PrimFloat.one.
Proof.
  destruct column as [|x r]; [reflexivity|]. intros H.
  inversion H as [|? ? Hx Hr]; subst. cbn [np_prod]. clear H.
  induction Hr as [|y r Hy _ IH]; [reflexivity|].
  subst y. exact IH.
Qed.

(** A column whose entries are all the same non-zero integer, one that
    float64 holds exactly. *)
Lemma consensus_dim_column (array : list (list Z)) (d : nat) (w : Z) :
  array <> [] -> w <> 0%Z -> int_of_float (float_of_int w) = w ->
  Forall (fun row => nth d row 0%Z = w) array ->
  consensus_dim array d = Some w.
Proof.
  intros Hne Hw Hex Hcol. unfold consensus_dim.
  destruct (float_of_int_finite w Hw Hex) as [s [m [e Hfin]]].
  assert (Hfirst : nth d (hd [] array) 0%Z = w).
  { destruct array as [|row0 r]; [contradiction|].
    now inversion Hcol. }
  rewrite Hfirst.
  rewrite np_prod_ones.
  - change (PrimFloat.eqb PrimFloat.one PrimFloat.one) with true.
    cbv iota. rewrite (float_finite_not_nan _ s m e Hfin).
    now rewrite Hex.
  - rewrite Forall_forall in *. intros x Hx.
    apply in_map_iff in Hx. destruct Hx as [row [<- Hrow]].
    rewrite (Hcol row Hrow). exact (float_div_self _ s m e Hfin).
Qed.



Lemma nth_error_map_seq {A : Type} (f : nat -> A) (n d : nat) :
  d < n -> nth_error (List.map f (seq 0 n)) d = Some (f d).
Proof.
  intros Hd.
  rewrite (nth_error_nth' _ (f 0)) by (rewrite length_map, length_seq; lia).
  rewrite map_nth, seq_nth by lia. reflexivity.
Qed.




(** The test of [_get_shape] is a product of ratios, in float64.  Leaves of
    lengths [1], [0] and [0] give [[1]]: the zeros count as [-1] and
    [(-1) * (-1)] is [1].  Leaves of lengths [49], [1] and [2401] give
    [[None]], though the exact product of [1/49] and [49] is [1]: the
    float64 product is [0.9999999999999999]. *)
Example shape_product_test :
  shape (Dict [("a", Leaf (PyArray [1]%Z)); ("b", Leaf (PyArray [0]%Z));
               ("c", Leaf (PyArray [0]%Z))]) = Ok [Some 1%Z]
  /\ shape (Dict [("a", Leaf (PyArray [49]%Z)); ("b", Leaf (PyArray [1]%Z));
                  ("c", Leaf (PyArray [2401]%Z))]) = Ok [None].
Proof. split; reflexivity. Qed.

(** ** The hierarchical binary store *)

Lemma firstn_repeat_le {A : Type} (x : A) (a n : nat) :
  a <= n -> firstn a (repeat x n) = repeat x a.
Proof.
  revert n. induction a as [|a IH]; intros n H; [reflexivity|].
  destruct n as [|n]; [lia|]. simpl. f_equal. apply IH. lia.
Qed.

Lemma skipn_repeat_le {A : Type} (x : A) (b n : nat) :
  skipn b (repeat x n) = repeat x (n - b).
Proof.
  revert n. induction b as [|b IH]; intros n; simpl.
  - now rewrite Nat.sub_0_r.
  - destruct n as [|n]; [reflexivity|]. simpl. apply IH.
Qed.

Section Hdf5Facts.
Context {R : Type}.
Implicit Types (ms : list (string * h5 R)) (rows : list R).

Lemma dict_get_app_fresh {A : Type} (k : string) (v : A)
  (l : list (string * A)) :
  dict_contains k l = false -> dict_get k (l ++ [(k, v)]) = Some v.
Proof.
  unfold dict_contains. induction l as [|[k' v'] r IH]; simpl.
  - now rewrite String.eqb_refl.
  - destruct (String.eqb k k'); [discriminate | exact IH].
Qed.

Lemma dict_set_app_fresh {A : Type} (k : string) (v w : A)
  (l : list (string * A)) :
  dict_contains k l = false ->
  dict_set k w (l ++ [(k, v)]) = l ++ [(k, w)].
Proof.
  unfold dict_contains. induction l as [|[k' v'] r IH]; simpl.
  - now rewrite String.eqb_refl.
  - destruct (String.eqb k k'); [discriminate|]. intros H. now rewrite IH.
Qed.

(** Writing a batch under a key the group does not have yet: the dataset is
    created with [max_batch_size] rows (or [starting_index] plus the size of
    the batch), and the first
    [min(this_batch_size, max_batch_size - starting_index)] rows of the
    batch go to the positions from [starting_index] on. *)
Lemma write_leaf_fresh (key : string) rows (starting_index : Z)
  (max_batch_size : option Z) ms :
  let this_batch_size := Z.of_nat (List.length rows) in
  let m := effective_max starting_index max_batch_size this_batch_size in
  let amount_to_write := Z.min this_batch_size (m - starting_index) in
  dict_contains key ms = false ->
  (0 <= starting_index <= m)%Z ->
  write_leaf key rows starting_index (H5Group ms, max_batch_size)
  = Ok (H5Group
          (ms ++ [(key,
                   H5Dataset
                     (repeat None (Z.to_nat starting_index)
                      ++ List.map Some
                           (firstn (Z.to_nat amount_to_write) rows)
                      ++ repeat None
                           (Z.to_nat (m - starting_index - amount_to_write))))]),
        Some m).
Proof.
  intros this_batch_size m amount_to_write Hfresh Hrange.
  unfold write_leaf. cbn [fst snd members_of bind].
  fold this_batch_size. fold (effective_max starting_index max_batch_size
                                this_batch_size). fold m.
  rewrite Hfresh.
  destruct (Z.ltb_spec m 0) as [Hneg|_]; [lia|]. cbn [bind].
  rewrite dict_get_app_fresh by exact Hfresh.
  fold amount_to_write.
  assert (Ha : (0 <= amount_to_write <= this_batch_size)%Z)
    by (unfold amount_to_write, this_batch_size; lia).
  assert (Hb : (starting_index + amount_to_write <= m)%Z)
    by (unfold amount_to_write; lia).
  unfold write_rows, np_slice, clamp.
  rewrite repeat_length, Z2Nat.id by lia.
  fold this_batch_size.
  destruct (Z.ltb_spec starting_index 0) as [|_]; [lia|].
  destruct (Z.ltb_spec (starting_index + amount_to_write) 0) as [|_]; [lia|].
  destruct (Z.ltb_spec amount_to_write 0) as [|_]; [lia|].
  rewrite (Z.min_l starting_index m) by lia.
  rewrite (Z.min_l (starting_index + amount_to_write) m) by lia.
  rewrite (Z.min_l amount_to_write this_batch_size) by lia.
  rewrite Z.max_r by lia.
  rewrite length_firstn.
  replace (Z.of_nat (Nat.min (Z.to_nat amount_to_write) (List.length rows)))
    with amount_to_write by (unfold this_batch_size in Ha; lia).
  replace (starting_index + amount_to_write - starting_index)%Z
    with amount_to_write by lia.
  rewrite Z.eqb_refl. cbn [bind].
  rewrite dict_set_app_fresh by exact Hfresh.
  rewrite firstn_repeat_le by lia. rewrite skipn_repeat_le.
  replace (Z.to_nat m - Z.to_nat (starting_index + amount_to_write))
    with (Z.to_nat (m - starting_index - amount_to_write)) by lia.
  reflexivity.
Qed.

End Hdf5Facts.

(** The scenario of the spec: a batch of 3 rows, [starting_index=2] and
    [max_batch_size=4]; the dataset has 4 rows and only the first 2 rows of
    the batch are written, at rows 2 and 3. *)
Example to_disk_batch_of_3 :
  to_disk_as_hdf5 batch_of_3 (H5Group []) 2 (Some 4%Z)
  = Ok (H5Group [("a", H5Dataset [None; None; Some 10%Z; Some 11%Z])]).
Proof. reflexivity. Qed.

(** C9 fails on the code: with [max_batch_size] left unspecified, the
    dataset of the second leaf is created with the 2 rows of the first
    leaf's batch, not with the 3 of its own, and its third row is dropped. *)
Theorem to_disk_second_leaf_capped :
  to_disk_as_hdf5 batches_2_3 (H5Group []) 0 None
  = Ok (H5Group [("a", H5Dataset [Some 10%Z; Some 11%Z]);
                 ("b", H5Dataset [Some 20%Z; Some 21%Z])])
  /\ to_disk_as_hdf5 (Dict [("b", Leaf [20; 21; 22]%Z)]) (H5Group []) 0 None
     = Ok (H5Group [("b", H5Dataset [Some 20%Z; Some 21%Z; Some 22%Z])]).
Proof. split; reflexivity. Qed.

(** * Further properties *)

(** ** Construction *)

(** X1: The constructor, on a dict with distinct keys without ['/'], succeeds;
    the container it builds has its items in key order at every level, the
    lookups and the leaves of the dict, and is returned unchanged when it is
    given to the constructor again. *)
Theorem init_idempotent {V : Type} (dict_in : Container V) :
  wfb dict_in = true ->
  exists c,
    __init__ dict_in = Ok c
    /\ canonicalb c = true
    /\ (forall k, dict_get k (items c)
                  = option_map canon_node (dict_get k (items dict_in)))
    /\ to_iterator c = to_iterator dict_in
    /\ __init__ c = Ok c.
Proof.
  intros Hwf. exists (canon dict_in).
  split; [now apply init_canon|].
  split; [now apply canon_canonical|].
  split; [intros k; now apply canon_lookup|].
  split; [now apply to_iterator_canon|].
  apply init_canonical. now apply canon_canonical.
Qed.

Lemma init_idempotent_witness :
  wfb tree_ab = true
  /\ exists c,
       __init__ tree_ab = Ok c
       /\ canonicalb c = true
       /\ (forall k, dict_get k (items c)
                     = option_map canon_node (dict_get k (items tree_ab)))
       /\ to_iterator c = to_iterator tree_ab
       /\ __init__ c = Ok c.
Proof.
  split; [reflexivity|]. apply (init_idempotent tree_ab). reflexivity.
Defined.

(** X2: Two containers that hold the same mapping are iterated alike: the order
    of [to_iterator] and [to_flat_list] does not depend on the order in
    which the keys were inserted. *)
Theorem to_iterator_insertion_order {V : Type} (a b : Container V) :
  wfb a = true -> wfb b = true -> same_dict a b ->
  to_iterator a = to_iterator b /\ to_flat_list a = to_flat_list b.
Proof.
  intros Ha Hb E. unfold same_dict in E.
  assert (H : to_iterator a = to_iterator b).
  { rewrite <- (to_iterator_canon a Ha), <- (to_iterator_canon b Hb).
    now rewrite E. }
  split; [exact H|]. unfold to_flat_list. now rewrite H.
Qed.

Lemma to_iterator_insertion_order_witness :
  wfb tree_ab = true
  /\ wfb (canon tree_ab) = true
  /\ same_dict tree_ab (canon tree_ab)
  /\ to_iterator tree_ab = to_iterator (canon tree_ab)
  /\ to_flat_list tree_ab = to_flat_list (canon tree_ab).
Proof.
  split; [reflexivity|]. split; [reflexivity|]. split; [reflexivity|].
  apply (to_iterator_insertion_order tree_ab (canon tree_ab)); reflexivity.
Defined.

(** ** A list that is too short *)

Section ShortList.
Context {V : Type}.
Implicit Types (c : Container V) (l : list (string * node V)).

Lemma take_step_raise (e : exn) (kv : string * node V) :
  take_step (Raise e) kv = Raise e.
Proof. reflexivity. Qed.

Lemma short_loop l acc (fl : list V) :
  nested (fun c => wfb c = true) l ->
  nested (fun c => forall fl, List.length fl < n_leaves c ->
                     from_flat_list c fl = Raise IndexError) l ->
  List.length fl < list_sum (List.map count_item l) ->
  fold_left take_step l (Ok (acc, fl)) = Raise IndexError.
Proof.
  revert acc fl. induction l as [|[k x] r IHr]; intros acc fl Hwf IH Hlen.
  - simpl in Hlen. lia.
  - cbn [fold_left List.map] in *.
    change (list_sum (count_item (k, x) :: List.map count_item r))
      with (count_item (k, x) + list_sum (List.map count_item r)) in Hlen.
    destruct (Nat.ltb_spec (List.length fl) (count_item (k, x))) as [Hlt|Hge].
    + assert (Hx : take_step (Ok (acc, fl)) (k, x) = Raise IndexError).
      { unfold take_step. cbn [bind fst snd].
        destruct x as [v|c]; simpl.
        - destruct fl; [reflexivity | simpl in Hlt; unfold count_item in Hlt;
                                      simpl in Hlt; lia].
        - rewrite (IH k c (or_introl eq_refl) fl Hlt). reflexivity. }
      rewrite Hx. apply fold_left_raise. apply take_step_raise.
    + assert (Hx : exists x', take_item (snd (k, x)) fl
                              = Ok (x', skipn (count_item (k, x)) fl)).
      { destruct x as [v|c]; simpl.
        - destruct fl as [|v0 fl]; [unfold count_item in Hge; simpl in Hge; lia|].
          now exists (Leaf v0).
        - destruct (pop_enough c fl (Hwf k c (or_introl eq_refl)) Hge)
            as [c' [E _]].
          exists (Sub c'). unfold count_item. simpl. now rewrite E. }
      destruct Hx as [x' Ex].
      rewrite (take_step_ok (k, x) acc _ _ _ Ex).
      apply IHr.
      * intros k' c' Hin. apply (Hwf k'). now right.
      * intros k' c' Hin. apply (IH k'). now right.
      * rewrite length_skipn. lia.
Qed.

End ShortList.

(** X3: [from_flat_list] on a list with fewer values than the container has
    leaves raises the [IndexError] of [pop] on an empty list. *)
Theorem from_flat_list_short {V : Type} (T : Container V) (flat_list : list V) :
  wfb T = true ->
  List.length flat_list < n_leaves T ->
  from_flat_list T flat_list = Raise IndexError.
Proof.
  revert flat_list. induction T as [l IH] using Container_nested_ind.
  intros fl Hwf Hlen. apply wfb_inv in Hwf. destruct Hwf as [Hn [Hs Hc]].
  rewrite n_leaves_unfold in Hlen. rewrite from_flat_list_unfold.
  rewrite (short_loop (sorted l) [] fl); [reflexivity| | |assumption].
  - now apply nested_sorted.
  - intros k c Hin fl' Hlen'. apply sorted_In1 in Hin.
    apply (IH k c Hin); [now apply (Hc k) | assumption].
Qed.

Lemma from_flat_list_short_witness :
  wfb tree_ab = true
  /\ List.length [[7]%Z] < n_leaves tree_ab
  /\ from_flat_list tree_ab [[7]%Z] = Raise IndexError.
Proof.
  split; [reflexivity|]. split; [simpl; lia|].
  apply (from_flat_list_short tree_ab [[7]%Z]); [reflexivity | simpl; lia].
Defined.

(** ** Item access *)

Section ItemFacts.
Context {V : Type}.
Implicit Types (cont self : Container V) (val : node V).

Lemma set_keys_through_leaf (ks : list string) (last_key : string) val cont :
  branches_along ks cont = false ->
  set_keys ks last_key val cont = Raise TypeError.
Proof.
  revert cont. induction ks as [|k ks IH]; intros cont Hb; simpl in *.
  - discriminate.
  - unfold dict_contains.
    destruct (dict_get k (items cont)) as [[v|child]|] eqn:E.
    + rewrite E. reflexivity.
    + rewrite E, (IH child Hb). reflexivity.
    + discriminate.
Qed.

(** A successful [set_keys] has put the value at the end of the path. *)
Lemma set_keys_ok_get (ks : list string) (last_key : string) val cont cont' :
  set_keys ks last_key val cont = Ok cont' ->
  at_keys (ks ++ [last_key]) (Sub cont') = Ok val.
Proof.
  intros H.
  destruct (branches_along ks cont) eqn:Hb.
  - destruct (set_keys_sets ks last_key val cont Hb) as [c [E Ha]].
    rewrite E in H. now injection H as <-.
  - rewrite (set_keys_through_leaf ks last_key val cont Hb) in H.
    discriminate.
Qed.

End ItemFacts.



(** X5: Item assignment and item access agree, for a plain key and for a
    key-chain alike: after a successful [self[query] = val], [self[query]]
    is [val] and [query in self] is true. *)
Theorem setitem_getitem {V : Type} (self self' : Container V)
  (query : string) (val : node V) :
  __setitem__ self query val = Ok self' ->
  __getitem__ self' query = Ok val /\ __contains__ self' query = Ok true.
Proof.
  unfold __setitem__, __getitem__, __contains__.
  destruct (has_slash query) eqn:Hs; intros H.
  - unfold set_at_key_chain in H. apply set_keys_ok_get in H.
    rewrite <- app_removelast_last in H by apply split_nonempty.
    unfold at_key_chain, has_key_chain. rewrite has_keys_at_keys, H.
    now split.
  - injection H as <-. cbn [items]. unfold dict_contains.
    rewrite dict_get_set_same. now split.
Qed.

Lemma setitem_getitem_witness :
  __setitem__ tree_ab "a/y/z" (Leaf [0]%Z)
  = Ok (Dict [("b", Leaf [4; 5]%Z);
              ("a", Sub (Dict [("x", Leaf [1; 2; 3]%Z);
                               ("y", Sub (Dict [("z", Leaf [0]%Z)]))]))])
  /\ __getitem__
       (Dict [("b", Leaf [4; 5]%Z);
              ("a", Sub (Dict [("x", Leaf [1; 2; 3]%Z);
                               ("y", Sub (Dict [("z", Leaf [0]%Z)]))]))])
       "a/y/z" = Ok (Leaf [0]%Z)
  /\ __contains__
       (Dict [("b", Leaf [4; 5]%Z);
              ("a", Sub (Dict [("x", Leaf [1; 2; 3]%Z);
                               ("y", Sub (Dict [("z", Leaf [0]%Z)]))]))])
       "a/y/z" = Ok true.
Proof.
  split; [reflexivity|].
  apply (setitem_getitem tree_ab _ "a/y/z" (Leaf [0]%Z)). reflexivity.
Defined.

(** X6: Membership follows item access: [key in self] is true when [self[key]]
    returns a value and false when it raises [KeyError]; any other
    exception of [self[key]] is raised by [key in self] too.  [if_exists]
    returns [None] when [key in self] is false and the stored item when it
    is true; the stored item can be [None] itself, as in [{"a": None}], so
    that [None] does not tell the two apart. *)
Theorem contains_getitem {V : Type} (none : V) (self : Container V)
  (key : string) :
  __contains__ self key
  = match __getitem__ self key with
    | Ok _ => Ok true
    | Raise KeyError => Ok false
    | Raise e => Raise e
    end
  /\ (__contains__ self key = Ok false ->
      if_exists none self key = Ok (Leaf none))
  /\ (__contains__ self key = Ok true ->
      if_exists none self key = __getitem__ self key)
  /\ (if_exists PyNone (Dict [("a", Leaf PyNone)]) "a" = Ok (Leaf PyNone)
      /\ __contains__ (Dict [("a", Leaf PyNone)]) "a" = Ok true).
Proof.
  assert (H : __contains__ self key
              = match __getitem__ self key with
                | Ok _ => Ok true
                | Raise KeyError => Ok false
                | Raise e => Raise e
                end).
  { unfold __contains__, __getitem__. destruct (has_slash key).
    - apply has_key_chain_at_key_chain.
    - unfold dict_contains. now destruct (dict_get key (items self)). }
  split; [exact H|]. rewrite H. unfold if_exists.
  split; [|split; [|split; reflexivity]].
  - destruct (__getitem__ self key) as [x|e]; [discriminate|].
    destruct e; intros E; try reflexivity; discriminate.
  - destruct (__getitem__ self key) as [x|e]; [reflexivity|].
    destruct e; intros E; discriminate.
Qed.

Lemma contains_getitem_witness :
  __contains__ tree_a1 "b" = Ok false
  /\ if_exists 0%Z tree_a1 "b" = Ok (Leaf 0%Z).
Proof.
  split; [reflexivity|].
  apply (proj1 (proj2 (contains_getitem 0%Z tree_a1 "b"))). reflexivity.
Defined.

(** ** More on the consensus shape *)

(** A position at which all rows hold [0]: the [-1] that replaced it is what
    comes out. *)
Lemma consensus_dim_zero (shapes : list (list Z)) (n d : nat) :
  shapes <> [] -> d < n ->
  Forall (fun sh => n <= List.length sh) shapes ->
  Forall (fun sh => nth d sh 0%Z = 0%Z) shapes ->
  consensus_dim
    (List.map (fun sh => List.map zero_to_minus_one (firstn n sh)) shapes) d
  = Some (-1)%Z.
Proof.
  intros Hne Hd Hlen Hv.
  apply consensus_dim_column.
  - intros E. apply map_eq_nil in E. contradiction.
  - discriminate.
  - reflexivity.
  - rewrite Forall_forall in *. intros row Hrow.
    apply in_map_iff in Hrow. destruct Hrow as [sh [<- Hsh]].
    rewrite (nth_indep _ 0%Z (zero_to_minus_one 0%Z))
      by (rewrite length_map, length_firstn; specialize (Hlen sh Hsh); lia).
    rewrite map_nth, nth_firstn.
    destruct (Nat.ltb_spec d n) as [_|]; [|lia].
    now rewrite (Hv sh Hsh).
Qed.

(** X7: [shape] raises the [ValueError] of [min([])] on a container that has
    keys but no leaf with a shape of rank 1 or more: no list or tuple, which
    count with their length even when they are empty, and no array but of
    rank 0 (scalars, [None], arrays of rank 0, empty nested containers). *)
Theorem shape_no_ranked_leaf (T : Container pyval) :
  wfb T = true -> items T <> [] -> ranked_shapes T = [] ->
  shape T = Raise ValueError.
Proof.
  intros Hwf Hne Hr. unfold shape.
  rewrite (get_shape_ranked T Hwf Hne), Hr. reflexivity.
Qed.

Lemma shape_no_ranked_leaf_witness :
  wfb (Dict [("a", Leaf (PyInt 3)); ("b", Leaf (PyArray []))]) = true
  /\ items (Dict [("a", Leaf (PyInt 3)); ("b", Leaf (PyArray []))]) <> []
  /\ ranked_shapes (Dict [("a", Leaf (PyInt 3)); ("b", Leaf (PyArray []))])
     = []
  /\ shape (Dict [("a", Leaf (PyInt 3)); ("b", Leaf (PyArray []))])
     = Raise ValueError.
Proof.
  split; [reflexivity|]. split; [discriminate|]. split; [reflexivity|].
  apply (shape_no_ranked_leaf
           (Dict [("a", Leaf (PyInt 3)); ("b", Leaf (PyArray []))]));
    [reflexivity | discriminate | reflexivity].
Defined.

(** X8: A leading dimension that is [0] in every array and sequence leaf is
    reported as [-1], the value that stands for [0] in the comparison. *)
Theorem shape_zero_dimension (T : Container pyval) (d : nat) :
  wfb T = true -> items T <> [] -> ranked_shapes T <> [] ->
  Forall (fun sh => d < List.length sh) (ranked_shapes T) ->
  Forall (fun sh => nth d sh 0%Z = 0%Z) (ranked_shapes T) ->
  exists s, shape T = Ok s /\ nth_error s d = Some (Some (-1)%Z).
Proof.
  intros Hwf Hne Hr Hd Hz. unfold shape.
  rewrite (get_shape_ranked T Hwf Hne).
  destruct (py_min_spec (List.map (@List.length Z) (ranked_shapes T)))
    as [n [En [Hmin Hin]]].
  { intros E. apply map_eq_nil in E. contradiction. }
  rewrite En. cbn [bind]. eexists. split; [reflexivity|].
  assert (Hlen : Forall (fun sh => n <= List.length sh) (ranked_shapes T)).
  { rewrite Forall_forall in *. intros sh Hsh. apply Hmin. now apply in_map. }
  assert (Hdn : d < n).
  { apply in_map_iff in Hin. destruct Hin as [sh [<- Hsh]].
    rewrite Forall_forall in Hd. now apply Hd. }
  rewrite nth_error_map_seq by exact Hdn.
  f_equal. now apply consensus_dim_zero.
Qed.

Lemma shape_zero_dimension_witness :
  wfb (Dict [("a", Leaf (PyArray [0; 3]%Z)); ("b", Leaf (PyList []))]) = true
  /\ exists s,
       shape (Dict [("a", Leaf (PyArray [0; 3]%Z)); ("b", Leaf (PyList []))])
       = Ok s
       /\ nth_error s 0 = Some (Some (-1)%Z).
Proof.
  split; [reflexivity|].
  apply (shape_zero_dimension
           (Dict [("a", Leaf (PyArray [0; 3]%Z)); ("b", Leaf (PyList []))]) 0).
  - reflexivity.
  - discriminate.
  - discriminate.
  - repeat constructor.
  - repeat constructor.
Defined.

(** ** Writing one batch *)

(** X9: Writing a container with one leaf under a key the group does not have:
    the dataset is created with [max_batch_size] rows, or with
    [starting_index] plus the size of the batch when [max_batch_size] is
    not given; the first [min(this_batch_size, max_batch_size -
    starting_index)] rows of the batch are written from [starting_index]
    on, the rows before and after are left unwritten, and the other members
    of the group are untouched. *)
Theorem to_disk_new_dataset {R : Type} (key : string) (rows : list R)
  (starting_index : Z) (max_batch_size : option Z)
  (ms : list (string * h5 R)) :
  let this_batch_size := Z.of_nat (List.length rows) in
  let m := effective_max starting_index max_batch_size this_batch_size in
  let amount_to_write := Z.min this_batch_size (m - starting_index) in
  dict_contains key ms = false ->
  (0 <= starting_index <= m)%Z ->
  to_disk_as_hdf5 (Dict [(key, Leaf rows)]) (H5Group ms) starting_index
    max_batch_size
  = Ok (H5Group
          (ms ++ [(key,
                   H5Dataset
                     (repeat None (Z.to_nat starting_index)
                      ++ List.map Some
                           (firstn (Z.to_nat amount_to_write) rows)
                      ++ repeat None
                           (Z.to_nat (m - starting_index - amount_to_write))))])).
Proof.
  intros this_batch_size m amount_to_write Hfresh Hrange.
  cbn [to_disk_as_hdf5 List.map sorted fold_right insert_item fold_left
         fst snd bind].
  rewrite (write_leaf_fresh key rows starting_index max_batch_size ms Hfresh
             Hrange).
  reflexivity.
Qed.

Lemma to_disk_new_dataset_witness :
  dict_contains "a" [("z", H5Group (R := Z) [])] = false
  /\ (0 <= 2 <= effective_max 2 (Some 4%Z) 3)%Z
  /\ to_disk_as_hdf5 (Dict [("a", Leaf [10; 11; 12]%Z)])
       (H5Group [("z", H5Group [])]) 2 (Some 4%Z)
     = Ok (H5Group [("z", H5Group []);
                    ("a", H5Dataset [None; None; Some 10%Z; Some 11%Z])]).
Proof.
  split; [reflexivity|]. split; [vm_compute; split; discriminate|].
  apply (to_disk_new_dataset "a" [10; 11; 12]%Z 2 (Some 4%Z)
           [("z", H5Group [])]).
  - reflexivity.
  - vm_compute; split; discriminate.
Defined.

(** ** Loops that keep or drop each item *)

Lemma keeps_key_tail {V W : Type} (keep : string * V -> list (string * W))
  (kv : string * V) (l : list (string * V)) :
  keeps_key keep (kv :: l) -> keeps_key keep l.
Proof. intros H kv' Hin. apply H. now right. Qed.

Lemma kept_keys {V W : Type} (keep : string * V -> list (string * W))
  (l : list (string * V)) :
  keeps_key keep l ->
  incl (keys (flat_map keep l)) (keys l)
  /\ (increasing (keys l) -> increasing (keys (flat_map keep l))).
Proof.
  induction l as [|kv r IH]; intros Hk.
  - split; [apply incl_refl | auto].
  - destruct (IH (keeps_key_tail keep kv r Hk)) as [Hincl Hinc].
    assert (Hhead : incl (keys (keep kv)) [fst kv]).
    { destruct (Hk kv (or_introl eq_refl)) as [->|[x ->]]; simpl;
        auto using incl_nil_l, incl_refl. }
    simpl. unfold keys in *. rewrite map_app. split.
    + apply incl_app; [|now apply incl_tl].
      intros a Ha. apply Hhead in Ha. destruct Ha as [<-|[]]. now left.
    + intros Hi. inversion Hi as [|? ? HF Hr]; subst.
      destruct (Hk kv (or_introl eq_refl)) as [->|[x ->]]; simpl;
        [now apply Hinc|].
      constructor; [|now apply Hinc].
      rewrite Forall_forall in *. intros a Ha. apply HF. now apply Hincl.
Qed.

Lemma NoDup_keys_head2 {A B : Type} (acc : list (string * A))
  (r : list (string * B)) k x :
  NoDup (keys acc ++ keys ((k, x) :: r)) -> ~ In k (keys acc).
Proof.
  intros Hn. apply NoDup_remove_2 in Hn. intros Hin. apply Hn.
  apply in_or_app. now left.
Qed.

Lemma NoDup_keys_shift2 {A B : Type} (acc : list (string * A))
  (r : list (string * B)) k x y :
  NoDup (keys acc ++ keys ((k, x) :: r)) ->
  NoDup (keys (acc ++ [(k, y)]) ++ keys r).
Proof.
  unfold keys. rewrite map_app. simpl. now rewrite <- app_assoc.
Qed.

(** A loop that appends what it keeps of each item. *)
Lemma fold_keep {V W : Type}
  (step : list (string * W) -> string * V -> list (string * W))
  (keep : string * V -> list (string * W)) (l : list (string * V))
  (acc : list (string * W)) :
  (forall acc kv, In kv l -> ~ In (fst kv) (keys acc) ->
                  step acc kv = acc ++ keep kv) ->
  keeps_key keep l ->
  NoDup (keys acc ++ keys l) ->
  fold_left step l acc = acc ++ flat_map keep l.
Proof.
  revert acc. induction l as [|[k x] r IH]; intros acc Hstep Hk Hn; simpl.
  - now rewrite app_nil_r.
  - rewrite Hstep; [|now left | exact (NoDup_keys_head2 _ _ _ _ Hn)].
    rewrite IH.
    + now rewrite <- app_assoc.
    + intros acc' kv Hin. apply Hstep. now right.
    + exact (keeps_key_tail keep (k, x) r Hk).
    + destruct (Hk (k, x) (or_introl eq_refl)) as [->|[y ->]].
      * rewrite app_nil_r. unfold keys in *. simpl in Hn.
        now apply NoDup_remove_1 in Hn.
      * exact (NoDup_keys_shift2 _ _ _ _ _ Hn).
Qed.

(** The same for a loop that can fail. *)
Lemma fold_keep_ok {V W : Type}
  (step : result (list (string * W)) -> string * V
          -> result (list (string * W)))
  (keep : string * V -> list (string * W)) (l : list (string * V))
  (acc : list (string * W)) :
  (forall acc kv, In kv l -> ~ In (fst kv) (keys acc) ->
                  step (Ok acc) kv = Ok (acc ++ keep kv)) ->
  keeps_key keep l ->
  NoDup (keys acc ++ keys l) ->
  fold_left step l (Ok acc) = Ok (acc ++ flat_map keep l).
Proof.
  revert acc. induction l as [|[k x] r IH]; intros acc Hstep Hk Hn; simpl.
  - now rewrite app_nil_r.
  - rewrite Hstep; [|now left | exact (NoDup_keys_head2 _ _ _ _ Hn)].
    rewrite IH.
    + now rewrite <- app_assoc.
    + intros acc' kv Hin. apply Hstep. now right.
    + exact (keeps_key_tail keep (k, x) r Hk).
    + destruct (Hk (k, x) (or_introl eq_refl)) as [->|[y ->]].
      * rewrite app_nil_r. unfold keys in *. simpl in Hn.
        now apply NoDup_remove_1 in Hn.
      * exact (NoDup_keys_shift2 _ _ _ _ _ Hn).
Qed.

(** What is kept of the items of a well-formed container, when the nested
    containers that are kept are in constructor order, is in constructor
    order. *)
Lemma kept_canonical {V : Type}
  (keep : string * node V -> list (string * node V))
  (l : list (string * node V)) :
  keeps_key keep (sorted l) ->
  NoDup (keys l) ->
  (forall kv, In kv l -> has_slash (fst kv) = false) ->
  nested (fun c => canonicalb c = true) (flat_map keep (sorted l)) ->
  canonicalb (Dict (flat_map keep (sorted l))) = true.
Proof.
  intros Hk Hn Hs Hc. destruct (kept_keys keep (sorted l) Hk) as [Hincl Hinc].
  apply (canonical_items _ (sorted l)); auto.
  - now apply sorted_increasing.
  - intros kv Hin. apply Hs. now apply sorted_In1.
Qed.

(** ** Copies *)

Section CopyFacts.
Context {V : Type}.
Implicit Types (c : Container V) (l : list (string * node V)).

Lemma to_dict_keeps_key l : keeps_key (to_dict_keep (V := V)) l.
Proof.
  intros [k x] _. unfold to_dict_keep. destruct x as [v|c]; cbn [fst snd].
  - destruct (negb (String.eqb k "_f")); [right; eauto | now left].
  - right. eauto.
Qed.

Lemma to_dict_unfold l :
  to_dict (Dict l) = Dict (flat_map to_dict_keep (sorted l)) \/ ~ NoDup (keys l).
Proof.
  destruct (ListDec.NoDup_dec String.string_dec (keys l)) as [Hn|Hn];
    [left | now right].
  change (to_dict (Dict l))
    with (Dict
            (fold_left
               (fun return_dict
                  (kv : string
                        * (list (string * node V) -> list (string * node V))) =>
                  snd kv return_dict)
               (sorted
                  (List.map (fun kv => (fst kv, to_dict_item kv)) l))
               [])).
  rewrite sorted_map, fold_left_map. f_equal.
  apply (fold_keep (fun rd kv => to_dict_item kv rd) to_dict_keep
           (sorted l) []).
  - intros acc [k x] _ Hk. unfold to_dict_item, to_dict_keep. cbn [fst snd].
    destruct x as [v|c].
    + destruct (negb (String.eqb k "_f"));
        [now rewrite dict_set_fresh | now rewrite app_nil_r].
    + now rewrite dict_set_fresh.
  - apply to_dict_keeps_key.
  - now apply NoDup_keys_sorted.
Qed.

Lemma to_dict_sorted l :
  NoDup (keys l) -> to_dict (Dict l) = Dict (flat_map to_dict_keep (sorted l)).
Proof. intros Hn. destruct (to_dict_unfold l) as [H|H]; tauto. Qed.

(** The plain dict of a well-formed container is in constructor order and
    holds its leaves, those stored under ['_f'] apart. *)
Lemma to_dict_leaves c :
  wfb c = true ->
  canonicalb (to_dict c) = true
  /\ to_iterator (to_dict c)
     = filter (fun kv => negb (String.eqb (fst kv) "_f")) (to_iterator c).
Proof.
  induction c as [l IH] using Container_nested_ind.
  intros Hwf. apply wfb_inv in Hwf. destruct Hwf as [Hn [Hs Hc]].
  rewrite (to_dict_sorted l Hn).
  assert (Hcan : canonicalb (Dict (flat_map to_dict_keep (sorted l))) = true).
  { apply kept_canonical; auto using to_dict_keeps_key.
    intros k c Hin. apply in_flat_map in Hin.
    destruct Hin as [[k' x] [Hin Hk]]. apply sorted_In1 in Hin.
    unfold to_dict_keep in Hk. cbn [fst snd] in Hk. destruct x as [v|c'].
    - destruct (negb (String.eqb k' "_f")); [|destruct Hk].
      destruct Hk as [E|[]]. discriminate.
    - destruct Hk as [E|[]]. injection E as _ <-.
      apply (IH k' c' Hin). now apply (Hc k'). }
  split; [exact Hcan|].
  rewrite !to_iterator_unfold.
  rewrite increasing_sorted by (apply canonicalb_inv in Hcan; tauto).
  assert (Hin : forall kv, In kv (sorted l) -> In kv l)
    by (intros kv; apply sorted_In1).
  clear Hcan. revert Hin. generalize (sorted l) as s.
  induction s as [|[k x] r IHr]; intros Hin; [reflexivity|].
  cbn [flat_map]. rewrite flat_map_app, filter_app.
  rewrite IHr by (intros kv Hkv; apply Hin; now right). f_equal.
  unfold to_dict_keep, iter_item. cbn [fst snd].
  destruct x as [v|c]; cbn [fst snd].
  - cbn [filter fst]. destruct (negb (String.eqb k "_f")); reflexivity.
  - cbn [flat_map]. rewrite app_nil_r. cbn [snd].
    assert (Hkc : In (k, Sub c) l) by (apply Hin; now left).
    apply (IH k c Hkc). now apply (Hc k).
Qed.

Lemma no_f_leafb_inv l :
  no_f_leafb (Dict l) = true <->
  (forall k v, In (k, Leaf v) l -> k <> "_f")
  /\ nested (fun c => no_f_leafb c = true) l.
Proof.
  simpl. rewrite forallb_forall. split.
  - intros H. split.
    + intros k v Hin. apply H in Hin. simpl in Hin.
      apply negb_true_iff, String.eqb_neq in Hin. exact Hin.
    + intros k c Hin. now apply H in Hin.
  - intros [Hl Hc] [k x] Hin. destruct x as [v|c]; simpl.
    + apply negb_true_iff, String.eqb_neq. now apply (Hl k v).
    + now apply (Hc k).
Qed.

Lemma to_dict_canon c :
  wfb c = true -> no_f_leafb c = true -> to_dict c = canon c.
Proof.
  induction c as [l IH] using Container_nested_ind.
  intros Hwf Hf. apply wfb_inv in Hwf. destruct Hwf as [Hn [Hs Hc]].
  apply no_f_leafb_inv in Hf. destruct Hf as [Hfl Hfc].
  rewrite (to_dict_sorted l Hn), canon_unfold. f_equal.
  assert (Hin : forall kv, In kv (sorted l) -> In kv l)
    by (intros kv; apply sorted_In1).
  revert Hin. generalize (sorted l) as s.
  induction s as [|[k x] r IHr]; intros Hin; [reflexivity|].
  cbn [flat_map List.map].
  rewrite IHr by (intros kv Hkv; apply Hin; now right).
  assert (Hkx : In (k, x) l) by (apply Hin; now left).
  unfold to_dict_keep. cbn [fst snd]. destruct x as [v|c]; simpl.
  - destruct (String.eqb_spec k "_f") as [E|_]; [|reflexivity].
    exfalso. now apply (Hfl k v Hkx).
  - rewrite (IH k c Hkx); [reflexivity | now apply (Hc k) | now apply (Hfc k)].
Qed.

End CopyFacts.

(** X10: [copy] keeps every nested container and every leaf but those stored
    under the key ['_f'], which [to_dict] leaves out: the copy is in
    constructor order and its leaves are those of the container without the
    ['_f'] ones. *)
Theorem copy_drops_f_leaves {V : Type} (T : Container V) :
  wfb T = true ->
  exists T',
    copy T = Ok T'
    /\ canonicalb T' = true
    /\ to_iterator T'
       = filter (fun kv => negb (String.eqb (fst kv) "_f")) (to_iterator T).
Proof.
  intros Hwf. destruct (to_dict_leaves T Hwf) as [Hcan Hleaves].
  exists (to_dict T). unfold copy.
  split; [now apply init_canonical|]. split; assumption.
Qed.

Lemma copy_drops_f_leaves_witness :
  wfb (Dict [("_f", Leaf 1%Z); ("a", Sub (Dict [("_f", Leaf 2%Z)]));
             ("b", Leaf 3%Z)]) = true
  /\ exists T',
       copy (Dict [("_f", Leaf 1%Z); ("a", Sub (Dict [("_f", Leaf 2%Z)]));
                   ("b", Leaf 3%Z)]) = Ok T'
       /\ canonicalb T' = true
       /\ to_iterator T'
          = filter (fun kv => negb (String.eqb (fst kv) "_f"))
              (to_iterator
                 (Dict [("_f", Leaf 1%Z); ("a", Sub (Dict [("_f", Leaf 2%Z)]));
                        ("b", Leaf 3%Z)])).
Proof.
  split; [reflexivity|].
  apply (copy_drops_f_leaves
           (Dict [("_f", Leaf 1%Z); ("a", Sub (Dict [("_f", Leaf 2%Z)]));
                  ("b", Leaf 3%Z)])).
  reflexivity.
Defined.

(** X11: On a container with no leaf stored under ['_f'], [copy] returns a
    container that holds the same mapping, the container itself when its
    items are in constructor order. *)
Theorem copy_same_dict {V : Type} (T : Container V) :
  wfb T = true -> no_f_leafb T = true ->
  exists T',
    copy T = Ok T' /\ same_dict T' T /\ (canonicalb T = true -> T' = T).
Proof.
  intros Hwf Hf. exists (canon T). unfold copy.
  rewrite (to_dict_canon T Hwf Hf).
  split; [apply init_canonical; now apply canon_canonical|].
  split; [now apply canon_idem | apply canon_fixed].
Qed.

Lemma copy_same_dict_witness :
  wfb tree_ab = true
  /\ no_f_leafb tree_ab = true
  /\ exists T',
       copy tree_ab = Ok T'
       /\ same_dict T' tree_ab
       /\ (canonicalb tree_ab = true -> T' = tree_ab).
Proof.
  split; [reflexivity|]. split; [reflexivity|].
  apply (copy_same_dict tree_ab); reflexivity.
Defined.

(** ** Pruning empty containers *)

Lemma flat_map_keep {A B C : Type} (keep : A -> list B) (g : B -> list C)
  (g' : A -> list C) (l : list A) :
  (forall a, In a l -> flat_map g (keep a) = g' a) ->
  flat_map g (flat_map keep l) = flat_map g' l.
Proof.
  induction l as [|a r IH]; intros H; [reflexivity|].
  cbn [flat_map]. rewrite flat_map_app, H by now left.
  rewrite IH; [reflexivity|]. intros a' Hin. apply H. now right.
Qed.

Lemma nested_keep {A V : Type} (P : Container V -> Prop)
  (keep : A -> list (string * node V)) (l : list A) :
  (forall a, In a l -> nested P (keep a)) -> nested P (flat_map keep l).
Proof.
  intros H k c Hin. apply in_flat_map in Hin. destruct Hin as [a [Ha Hin]].
  exact (H a Ha k c Hin).
Qed.

Section PruneEmptyFacts.
Context {V : Type}.
Implicit Types (c : Container V) (l : list (string * node V)).

Lemma prune_empty_unfold l :
  prune_empty (Dict l)
  = (out_dict <- fold_left prune_empty_step (sorted l) (Ok []) ;;
     match out_dict with
     | [] => Ok None
     | _ :: _ => c <- __init__ (Dict out_dict) ;; Ok (Some c)
     end).
Proof.
  change (prune_empty (Dict l))
    with (out_dict <-
            fold_left
              (fun acc
                 (kv : string
                       * (list (string * node V)
                          -> result (list (string * node V)))) =>
                 out_dict <- acc ;; snd kv out_dict)
              (sorted
                 (List.map (fun kv => (fst kv, prune_empty_item kv)) l))
              (Ok []) ;;
          match out_dict with
          | [] => Ok None
          | _ :: _ => c <- __init__ (Dict out_dict) ;; Ok (Some c)
          end).
  rewrite sorted_map, fold_left_map. reflexivity.
Qed.

Lemma prune_empty_keeps_key l : keeps_key (prune_empty_keep (V := V)) l.
Proof.
  intros [k x] _. unfold prune_empty_keep. destruct x as [v|c]; cbn [fst snd].
  - right. eauto.
  - destruct (prune_empty c) as [[c'|]|e]; [|now left|now left].
    destruct (truthy c'); [right; eauto | now left].
Qed.

(** One item of the loop, when [prune_empty] is known on a nested
    container. *)
Lemma prune_empty_item_facts k (x : node V) key_chain :
  match x with
  | Sub c => exists r, prune_empty c = Ok r /\ pruned c r
  | Leaf _ => True
  end ->
  (forall acc, ~ In k (keys acc) ->
     prune_empty_item (k, x) acc = Ok (acc ++ prune_empty_keep (k, x)))
  /\ (forall acc, ~ In k (keys acc) ->
        map_item identity None true false key_chain (k, x) acc
        = Ok (acc ++ prune_empty_keep (k, x)))
  /\ flat_map iter_item (prune_empty_keep (k, x)) = iter_item (k, x)
  /\ nested kept_sub (prune_empty_keep (k, x)).
Proof.
  destruct x as [v|c]; unfold prune_empty_item, prune_empty_keep, map_item;
    cbn [fst snd].
  - intros _. split; [|split; [|split]].
    + intros acc Hk. now rewrite dict_set_fresh.
    + intros acc Hk. simpl unapplied. cbv iota. unfold identity.
      now rewrite dict_set_fresh.
    + reflexivity.
    + intros k0 c0 [E|[]]. discriminate.
  - intros [r [E [Hmap Hr]]]. rewrite E, Hmap. cbn [bind].
    destruct r as [c'|]; cbn [or_empty].
    + destruct Hr as [Ht [Hcan [Hne [Hit Hnn]]]]. rewrite Ht.
      split; [|split; [|split]].
      * intros acc Hk. now rewrite dict_set_fresh.
      * intros acc Hk. now rewrite dict_set_fresh.
      * cbn [flat_map]. unfold iter_item. cbn [fst snd].
        now rewrite app_nil_r.
      * intros k0 c0 [E0|[]]. injection E0 as _ <-.
        unfold kept_sub. rewrite Hit. auto.
    + split; [|split; [|split]].
      * intros acc Hk. now rewrite app_nil_r.
      * intros acc Hk. unfold truthy. cbn [items]. now rewrite app_nil_r.
      * unfold iter_item. cbn [fst snd flat_map]. now rewrite Hr.
      * intros k0 c0 [].
Qed.

Lemma kept_sub_leaves k (x : node V) l :
  nested kept_sub ((k, x) :: l) -> flat_map iter_item ((k, x) :: l) <> [].
Proof.
  intros H. cbn [flat_map]. unfold iter_item at 1. cbn [fst snd].
  destruct x as [v|c]; [discriminate|].
  destruct (H k c (or_introl eq_refl)) as [_ [_ [_ Hnn]]].
  destruct (to_iterator c); [now elim Hnn | discriminate].
Qed.

Lemma prune_empty_pruned c :
  wfb c = true -> exists r, prune_empty c = Ok r /\ pruned c r.
Proof.
  induction c as [l IH] using Container_nested_ind.
  intros Hwf. apply wfb_inv in Hwf. destruct Hwf as [Hn [Hs Hc]].
  assert (Hitem : forall kv, In kv (sorted l) ->
            match snd kv with
            | Sub c => exists r, prune_empty c = Ok r /\ pruned c r
            | Leaf _ => True
            end).
  { intros [k [v|c]] Hin; cbn [snd]; [exact I|]. apply sorted_In1 in Hin.
    apply (IH k c Hin). now apply (Hc k). }
  assert (Hloop : fold_left prune_empty_step (sorted l) (Ok [])
                  = Ok (flat_map prune_empty_keep (sorted l))).
  { apply (fold_keep_ok prune_empty_step prune_empty_keep (sorted l) []).
    - intros acc [k x] Hin Hk. unfold prune_empty_step. cbn [bind].
      now apply (prune_empty_item_facts k x "" (Hitem _ Hin)).
    - apply prune_empty_keeps_key.
    - now apply NoDup_keys_sorted. }
  assert (Hmap : forall kc,
            fold_left (map_step identity None true false kc) (sorted l)
              (Ok [])
            = Ok (flat_map prune_empty_keep (sorted l))).
  { intros kc.
    apply (fold_keep_ok (map_step identity None true false kc)
             prune_empty_keep (sorted l) []).
    - intros acc [k x] Hin Hk. unfold map_step. cbn [bind].
      now apply (prune_empty_item_facts k x kc (Hitem _ Hin)).
    - apply prune_empty_keeps_key.
    - now apply NoDup_keys_sorted. }
  assert (Hit : flat_map iter_item (flat_map prune_empty_keep (sorted l))
                = flat_map iter_item (sorted l)).
  { apply flat_map_keep. intros [k x] Hin.
    now apply (prune_empty_item_facts k x "" (Hitem _ Hin)). }
  assert (Hsub : nested kept_sub (flat_map prune_empty_keep (sorted l))).
  { apply nested_keep. intros [k x] Hin.
    now apply (prune_empty_item_facts k x "" (Hitem _ Hin)). }
  assert (Hcan : canonicalb (Dict (flat_map prune_empty_keep (sorted l)))
                 = true).
  { apply kept_canonical; auto using prune_empty_keeps_key.
    intros k c Hin. now apply (Hsub k c Hin). }
  rewrite prune_empty_unfold, Hloop. cbn [bind].
  unfold pruned. setoid_rewrite map_unfold. setoid_rewrite Hmap. cbn [bind].
  rewrite (init_canonical _ Hcan), to_iterator_unfold, <- Hit.
  revert Hsub Hcan.
  generalize (flat_map prune_empty_keep (sorted l)) as out.
  intros [|[k x] out] Hsub Hcan.
  - exists None. split; [reflexivity|]. split; reflexivity.
  - exists (Some (Dict ((k, x) :: out))). cbn [bind or_empty].
    split; [reflexivity|]. split; [reflexivity|].
    split; [reflexivity|]. split; [exact Hcan|]. split.
    + apply no_empty_subb_inv. intros k0 c0 Hin.
      destruct (Hsub k0 c0 Hin) as [Ht [_ [Hne _]]]. now split.
    + split; [|now apply kept_sub_leaves].
      rewrite to_iterator_unfold. rewrite increasing_sorted; [reflexivity|].
      apply canonicalb_inv in Hcan. tauto.
Qed.

End PruneEmptyFacts.

(** X12: [prune_empty] on a container that holds a leaf returns a container in
    constructor order with the same leaves in the same order and with no
    empty container nested in it; pruning that container again returns it
    unchanged. *)
Theorem prune_empty_keeps_leaves {V : Type} (T : Container V) :
  wfb T = true -> to_iterator T <> [] ->
  exists T',
    prune_empty T = Ok (Some T')
    /\ canonicalb T' = true
    /\ no_empty_subb T' = true
    /\ to_iterator T' = to_iterator T
    /\ prune_empty T' = Ok (Some T').
Proof.
  intros Hwf Hnn. destruct (prune_empty_pruned T Hwf) as [r [E [_ Hr]]].
  destruct r as [T'|]; [|contradiction].
  destruct Hr as [Ht [Hcan [Hne [Hit _]]]].
  exists T'. repeat (split; [assumption|]).
  assert (Hwf' := canonical_wf T' Hcan).
  destruct (prune_empty_pruned T' Hwf') as [r' [E' [Hmap _]]].
  rewrite E'. specialize (Hmap "").
  rewrite (map_identity_canon T' "" Hwf' Hne), (canon_fixed T' Hcan) in Hmap.
  injection Hmap as Hmap. destruct r' as [c|]; cbn [or_empty] in Hmap.
  - now subst.
  - subst T'. discriminate Ht.
Qed.

Lemma prune_empty_keeps_leaves_witness :
  wfb (Dict [("b", Sub (Dict [("c", Sub (Dict []))])); ("a", Leaf 1%Z)]) = true
  /\ to_iterator
       (Dict [("b", Sub (Dict [("c", Sub (Dict []))])); ("a", Leaf 1%Z)])
     <> []
  /\ exists T',
       prune_empty
         (Dict [("b", Sub (Dict [("c", Sub (Dict []))])); ("a", Leaf 1%Z)])
       = Ok (Some T')
       /\ canonicalb T' = true
       /\ no_empty_subb T' = true
       /\ to_iterator T'
          = to_iterator
              (Dict [("b", Sub (Dict [("c", Sub (Dict []))]));
                     ("a", Leaf 1%Z)])
       /\ prune_empty T' = Ok (Some T').
Proof.
  split; [reflexivity|]. split; [discriminate|].
  apply (prune_empty_keeps_leaves
           (Dict [("b", Sub (Dict [("c", Sub (Dict []))])); ("a", Leaf 1%Z)]));
    [reflexivity | discriminate].
Defined.

(** X13: [prune_empty] returns [None] exactly when the container holds no leaf,
    however many empty containers are nested in it. *)
Theorem prune_empty_none {V : Type} (T : Container V) :
  wfb T = true ->
  (prune_empty T = Ok None <-> n_leaves T = 0).
Proof.
  intros Hwf. destruct (prune_empty_pruned T Hwf) as [r [E [_ Hr]]].
  rewrite E, <- to_iterator_length. destruct r as [T'|].
  - destruct Hr as [_ [_ [_ [_ Hnn]]]]. split; [discriminate|].
    intros H. destruct (to_iterator T); [now elim Hnn | discriminate H].
  - rewrite Hr. split; reflexivity.
Qed.

Lemma prune_empty_none_witness :
  wfb (Dict [("a", Sub (Dict [("b", Sub (Dict []))]));
             ("c", Sub (Dict ([] : list (string * node Z))))]) = true
  /\ (prune_empty
        (Dict [("a", Sub (Dict [("b", Sub (Dict []))]));
               ("c", Sub (Dict ([] : list (string * node Z))))]) = Ok None
      <-> n_leaves
            (Dict [("a", Sub (Dict [("b", Sub (Dict []))]));
                   ("c", Sub (Dict ([] : list (string * node Z))))]) = 0).
Proof.
  split; [reflexivity|].
  apply (prune_empty_none
           (Dict [("a", Sub (Dict [("b", Sub (Dict []))]));
                  ("c", Sub (Dict ([] : list (string * node Z))))])).
  reflexivity.
Defined.

(** X14: [map] with the identity function and [prune_empty] make the same
    container, [map] returning the empty container where [prune_empty]
    returns [None]. *)
Theorem map_identity_prune_empty {V : Type} (T : Container V)
  (key_chain : string) :
  wfb T = true ->
  exists r,
    prune_empty T = Ok r
    /\ map identity None true false key_chain T = Ok (or_empty r).
Proof.
  intros Hwf. destruct (prune_empty_pruned T Hwf) as [r [E [Hmap _]]].
  exists r. split; [exact E | apply Hmap].
Qed.

Lemma map_identity_prune_empty_witness :
  wfb (Dict [("b", Sub (Dict [("c", Sub (Dict []))])); ("a", Leaf 1%Z)]) = true
  /\ exists r,
       prune_empty
         (Dict [("b", Sub (Dict [("c", Sub (Dict []))])); ("a", Leaf 1%Z)])
       = Ok r
       /\ map identity None true false ""
            (Dict [("b", Sub (Dict [("c", Sub (Dict []))])); ("a", Leaf 1%Z)])
          = Ok (or_empty r).
Proof.
  split; [reflexivity|].
  apply (map_identity_prune_empty
           (Dict [("b", Sub (Dict [("c", Sub (Dict []))])); ("a", Leaf 1%Z)])
           "").
  reflexivity.
Defined.

(** ** Pruning a key chain *)

Lemma split_slash_free (s : string) :
  Forall (fun k => has_slash k = false) (split s).
Proof.
  induction s as [|c s IH]; simpl.
  - constructor; [reflexivity | constructor].
  - destruct (Ascii.eqb c "/") eqn:Ec.
    + constructor; [reflexivity | exact IH].
    + destruct (split s) as [|seg segs].
      * constructor; [simpl; now rewrite Ec | constructor].
      * inversion IH; subst. constructor; [simpl; now rewrite Ec | assumption].
Qed.

Lemma split_app_slash (a t : string) :
  has_slash a = false ->
  split (String.append a (String.append "/" t)) = a :: split t.
Proof.
  induction a as [|c a IH]; simpl; intros H; [reflexivity|].
  apply orb_false_iff in H. destruct H as [Ec Ha].
  rewrite Ec. simpl in IH. now rewrite (IH Ha).
Qed.

Lemma split_no_slash (a : string) : has_slash a = false -> split a = [a].
Proof.
  induction a as [|c a IH]; simpl; intros H; [reflexivity|].
  apply orb_false_iff in H. destruct H as [Ec Ha].
  now rewrite Ec, (IH Ha).
Qed.

(** ['/'.join(keys).split('/') == keys] for the segments of a key chain. *)
Lemma split_concat (ks : list string) :
  ks <> [] -> Forall (fun k => has_slash k = false) ks ->
  split (String.concat "/" ks) = ks.
Proof.
  induction ks as [|a r IH]; intros Hne HF; [now elim Hne|].
  inversion HF as [|? ? Ha Hr]; subst.
  destruct r as [|b r].
  - simpl. now apply split_no_slash.
  - change (String.concat "/" (a :: b :: r))
      with (String.append a
              (String.append "/" (String.concat "/" (b :: r)))).
    rewrite (split_app_slash _ _ Ha), IH; [reflexivity | discriminate | exact Hr].
Qed.

Lemma dict_get_notin {A : Type} (k : string) (l : list (string * A)) :
  ~ In k (keys l) -> dict_get k l = None.
Proof.
  induction l as [|[k' x] r IH]; simpl; intros Hn; [reflexivity|].
  destruct (String.eqb_spec k k') as [E|N]; [elim Hn; now left|].
  apply IH. tauto.
Qed.

Lemma dict_get_In {A : Type} (k : string) (x : A) (l : list (string * A)) :
  dict_get k l = Some x -> In (k, x) l.
Proof.
  induction l as [|[k' x'] r IH]; simpl; intros H; [discriminate|].
  destruct (String.eqb_spec k k') as [E|N].
  - injection H as <-. subst. now left.
  - right. now apply IH.
Qed.

(** A lookup in what a loop has kept. *)
Lemma dict_get_kept {V W : Type} (keep : string * V -> list (string * W))
  (l : list (string * V)) (k : string) :
  keeps_key keep l -> NoDup (keys l) ->
  dict_get k (flat_map keep l)
  = match dict_get k l with
    | Some x => match keep (k, x) with
                | [] => None
                | kv :: _ => Some (snd kv)
                end
    | None => None
    end.
Proof.
  induction l as [|[k' x'] r IH]; intros Hk Hn; [reflexivity|].
  cbn [flat_map dict_get]. inversion Hn as [|? ? Hnin Hn']; subst.
  specialize (IH (keeps_key_tail keep (k', x') r Hk) Hn').
  destruct (Hk (k', x') (or_introl eq_refl)) as [E|[y E]]; rewrite E.
  - cbn [app]. rewrite IH.
    destruct (String.eqb_spec k k') as [Ek|N]; [|reflexivity].
    subst k'. rewrite E. now rewrite (dict_get_notin k r Hnin).
  - cbn [app dict_get fst].
    destruct (String.eqb_spec k k') as [Ek|N]; [|exact IH].
    subst k'. now rewrite E.
Qed.

Section PruneKeyChainFacts.
Context {V : Type}.
Implicit Types (c : Container V) (l : list (string * node V)).

Lemma prune_key_chain_unfold l (key_chain : string) :
  prune_key_chain (Dict l) key_chain
  = (out_dict <-
       fold_left (prune_key_chain_step (split key_chain)) (sorted l) (Ok []) ;;
     __init__ (Dict out_dict)).
Proof.
  change (prune_key_chain (Dict l) key_chain)
    with (out_dict <-
            fold_left
              (fun acc
                 (kv : string
                       * (list (string * node V)
                          -> result (list (string * node V)))) =>
                 out_dict <- acc ;; snd kv out_dict)
              (sorted
                 (List.map
                    (fun kv =>
                       (fst kv,
                        prune_key_chain_item (split key_chain) kv)) l))
              (Ok []) ;;
          __init__ (Dict out_dict)).
  rewrite sorted_map, fold_left_map. reflexivity.
Qed.

Lemma prune_key_chain_keeps_key (ks : list string) l :
  keeps_key (prune_key_chain_keep (V := V) ks) l.
Proof.
  intros [k x] _. unfold prune_key_chain_keep.
  destruct x as [v|c]; cbn [fst snd].
  - destruct (negb (Nat.eqb (List.length ks) 1)
              || negb (String.eqb k (hd "" ks))); [right; eauto | now left].
  - destruct (String.eqb k (hd "" ks)).
    + destruct (Nat.eqb (List.length ks) 1); [now left|].
      destruct (prune_key_chain c (String.concat "/" (tl ks))) as [c'|e];
        [|now left].
      destruct (truthy c'); [right; eauto | now left].
    + destruct (truthy (to_dict c)); [right; eauto | now left].
Qed.

(** One item of the loop, when [prune_key_chain] is known on a nested
    container. *)
Lemma prune_key_chain_item_facts (ks : list string) k (x : node V) :
  match x with
  | Sub c =>
      wfb c = true
      /\ exists c',
           prune_key_chain c (String.concat "/" (tl ks)) = Ok c'
           /\ canonicalb c' = true
  | Leaf _ => True
  end ->
  (forall acc, ~ In k (keys acc) ->
     prune_key_chain_item ks (k, x) acc
     = Ok (acc ++ prune_key_chain_keep ks (k, x)))
  /\ nested (fun c => canonicalb c = true) (prune_key_chain_keep ks (k, x)).
Proof.
  destruct x as [v|c];
    unfold prune_key_chain_item, prune_key_chain_keep; cbn [fst snd].
  - intros _.
    destruct (negb (Nat.eqb (List.length ks) 1)
              || negb (String.eqb k (hd "" ks))).
    + split; [intros acc Hk; now rewrite dict_set_fresh|].
      intros k0 c0 [E|[]]. discriminate.
    + split; [intros acc Hk; now rewrite app_nil_r | intros k0 c0 []].
  - intros [Hwf [c' [E Hcan]]].
    destruct (String.eqb k (hd "" ks)).
    + destruct (Nat.eqb (List.length ks) 1).
      * split; [intros acc Hk; now rewrite app_nil_r | intros k0 c0 []].
      * rewrite E. cbn [bind]. destruct (truthy c').
        -- split; [intros acc Hk; now rewrite dict_set_fresh|].
           intros k0 c0 [E0|[]]. now injection E0 as _ <-.
        -- split; [intros acc Hk; now rewrite app_nil_r | intros k0 c0 []].
    + cbv zeta. destruct (truthy (to_dict c)).
      * split; [intros acc Hk; now rewrite dict_set_fresh|].
        intros k0 c0 [E0|[]]. injection E0 as _ <-.
        now apply to_dict_leaves.
      * split; [intros acc Hk; now rewrite app_nil_r | intros k0 c0 []].
Qed.

(** The loop of [prune_key_chain] and the container made of what it
    keeps. *)
Lemma prune_key_chain_items l (key_chain : string) :
  NoDup (keys l) ->
  (forall kv, In kv l -> has_slash (fst kv) = false) ->
  nested (fun c =>
            wfb c = true
            /\ exists c',
                 prune_key_chain c
                   (String.concat "/" (tl (split key_chain))) = Ok c'
                 /\ canonicalb c' = true) l ->
  prune_key_chain (Dict l) key_chain
  = Ok (Dict (flat_map (prune_key_chain_keep (split key_chain)) (sorted l)))
  /\ canonicalb
       (Dict (flat_map (prune_key_chain_keep (split key_chain)) (sorted l)))
     = true.
Proof.
  intros Hn Hs Hc.
  assert (Hitem : forall kv, In kv (sorted l) ->
            match snd kv with
            | Sub c =>
                wfb c = true
                /\ exists c',
                     prune_key_chain c
                       (String.concat "/" (tl (split key_chain))) = Ok c'
                     /\ canonicalb c' = true
            | Leaf _ => True
            end).
  { intros [k [v|c]] Hin; cbn [snd]; [exact I|]. apply sorted_In1 in Hin.
    exact (Hc k c Hin). }
  assert (Hcan : canonicalb
                   (Dict (flat_map (prune_key_chain_keep (split key_chain))
                            (sorted l))) = true).
  { apply kept_canonical; auto using prune_key_chain_keeps_key.
    apply nested_keep. intros [k x] Hin.
    now apply (prune_key_chain_item_facts (split key_chain) k x
                 (Hitem _ Hin)). }
  split; [|exact Hcan].
  rewrite prune_key_chain_unfold.
  rewrite (fold_keep_ok (prune_key_chain_step (split key_chain))
             (prune_key_chain_keep (split key_chain)) (sorted l) []).
  - cbn [bind app]. now apply init_canonical.
  - intros acc [k x] Hin Hk. unfold prune_key_chain_step. cbn [bind].
    now apply (prune_key_chain_item_facts (split key_chain) k x
                 (Hitem _ Hin)).
  - apply prune_key_chain_keeps_key.
  - now apply NoDup_keys_sorted.
Qed.

Lemma prune_key_chain_pruned c :
  wfb c = true ->
  forall key_chain : string,
  exists c',
    prune_key_chain c key_chain = Ok c'
    /\ chain_pruned (split key_chain) c c'.
Proof.
  induction c as [l IH] using Container_nested_ind.
  intros Hwf key_chain. apply wfb_inv in Hwf. destruct Hwf as [Hn [Hs Hc]].
  assert (Hsub : forall k c (kc : string), In (k, Sub c) l ->
            exists c',
              prune_key_chain c kc = Ok c' /\ chain_pruned (split kc) c c').
  { intros k c kc Hin. apply (IH k c Hin). now apply (Hc k). }
  destruct (prune_key_chain_items l key_chain Hn Hs) as [E Hcan].
  { intros k c Hin. split; [now apply (Hc k)|].
    destruct (Hsub k c (String.concat "/" (tl (split key_chain))) Hin)
      as [c' [E [Hcan _]]].
    exists c'. now split. }
  eexists. split; [exact E|]. split; [exact Hcan|]. clear E Hcan.
  assert (HF := split_slash_free key_chain).
  assert (Hget : forall k, dict_get k (sorted l) = dict_get k l).
  { intros k. symmetry. apply dict_get_perm; [exact Hn|].
    apply Permutation_sym, sorted_perm. }
  assert (Hns : NoDup (keys (sorted l))) by exact (NoDup_keys_sorted l Hn).
  revert HF.
  destruct (split key_chain) as [|k0 rest] eqn:Hks;
    [now elim (split_nonempty key_chain)|].
  intros HF. inversion HF as [|? ? _ HFr]; subst.
  cbn [at_keys subscript items].
  rewrite (dict_get_kept (prune_key_chain_keep (k0 :: rest)) (sorted l) k0
             (prune_key_chain_keeps_key (k0 :: rest) (sorted l)) Hns), Hget.
  destruct (dict_get k0 l) as [[v|c]|] eqn:Eg.
  - unfold prune_key_chain_keep. cbn [fst snd hd]. rewrite String.eqb_refl.
    destruct rest as [|k1 rest]; simpl.
    + split; [eauto | reflexivity].
    + split; [eauto | discriminate].
  - unfold prune_key_chain_keep. cbn [fst snd hd tl]. rewrite String.eqb_refl.
    destruct rest as [|k1 rest]; [simpl; split; [eauto | reflexivity]|].
    cbn [List.length Nat.eqb].
    destruct (Hsub k0 c (String.concat "/" (k1 :: rest)) (dict_get_In _ _ _ Eg))
      as [c' [E [_ [[e He] Hok]]]].
    rewrite split_concat in He, Hok by (discriminate || assumption).
    rewrite E. destruct (truthy c'); cbn [bind snd].
    + split; [eauto | exact Hok].
    + split; [eauto | reflexivity].
  - simpl. split; [eauto | reflexivity].
Qed.

End PruneKeyChainFacts.

Lemma filter_flat_map {A B : Type} (P : B -> bool) (f : A -> list B)
  (l : list A) :
  filter P (flat_map f l) = flat_map (fun a => filter P (f a)) l.
Proof.
  induction l as [|a r IH]; [reflexivity|].
  cbn [flat_map]. now rewrite filter_app, IH.
Qed.

Section PruneKeyChainLeaves.
Context {V : Type}.
Implicit Types (c : Container V) (l : list (string * node V)).

Lemma outside_nil (L : list (list string * V)) : filter (outside []) L = [].
Proof. induction L as [|pv L IH]; [reflexivity | exact IH]. Qed.

Lemma outside_cons (k0 k : string) (rest : list string)
  (L : list (list string * V)) :
  filter (outside (k0 :: rest))
    (List.map (fun pv => (k :: fst pv, snd pv)) L)
  = if String.eqb k k0
    then List.map (fun pv => (k :: fst pv, snd pv)) (filter (outside rest) L)
    else List.map (fun pv => (k :: fst pv, snd pv)) L.
Proof.
  rewrite (String.eqb_sym k k0).
  destruct (String.eqb k0 k) eqn:Ek;
    induction L as [|pv L IH]; try reflexivity;
    cbn [List.map filter]; rewrite IH; unfold outside;
    cbn [fst under_chain]; rewrite Ek; cbn [andb negb]; [|reflexivity].
  now destruct (under_chain rest (fst pv)).
Qed.

Lemma leaf_paths_falsy c : truthy c = false -> leaf_paths c = [].
Proof. destruct c as [[|i l]]; [reflexivity | discriminate]. Qed.

Lemma path_item_kept k c (b : bool) :
  (b = false -> leaf_paths c = []) ->
  flat_map path_item (if b then [(k, Sub c)] else [])
  = List.map (fun pv => (k :: fst pv, snd pv)) (leaf_paths c).
Proof.
  destruct b; intros H.
  - cbn [flat_map]. unfold path_item. cbn [fst snd]. now rewrite app_nil_r.
  - now rewrite H.
Qed.

Lemma prune_key_chain_paths c :
  wfb c = true -> no_f_leafb c = true ->
  forall key_chain : string,
  exists c',
    prune_key_chain c key_chain = Ok c'
    /\ leaf_paths c' = filter (outside (split key_chain)) (leaf_paths c).
Proof.
  induction c as [l IH] using Container_nested_ind.
  intros Hwf Hf key_chain. apply wfb_inv in Hwf. destruct Hwf as [Hn [Hs Hc]].
  apply no_f_leafb_inv in Hf. destruct Hf as [Hfl Hfc].
  destruct (prune_key_chain_items l key_chain Hn Hs) as [E Hcan].
  { intros k c Hin. split; [now apply (Hc k)|].
    destruct (prune_key_chain_pruned c (Hc k c Hin)
                (String.concat "/" (tl (split key_chain))))
      as [c' [E [Hcan _]]].
    exists c'. now split. }
  eexists. split; [exact E|].
  rewrite !leaf_paths_unfold, filter_flat_map.
  rewrite increasing_sorted by (apply canonicalb_inv in Hcan; tauto).
  clear E Hcan. apply flat_map_keep. intros [k x] Hin.
  apply sorted_In1 in Hin.
  assert (HF := split_slash_free key_chain). revert HF.
  destruct (split key_chain) as [|k0 rest] eqn:Hks;
    [now elim (split_nonempty key_chain)|].
  intros HF. inversion HF as [|? ? _ HFr]; subst.
  unfold prune_key_chain_keep, path_item at 2. cbn [fst snd hd tl].
  destruct x as [v|c].
  - cbn [filter]. unfold outside. cbn [fst under_chain].
    rewrite (String.eqb_sym k0 k).
    destruct rest as [|k1 rest]; cbn [List.length Nat.eqb negb orb].
    + destruct (String.eqb k k0); reflexivity.
    + rewrite andb_false_r. reflexivity.
  - rewrite outside_cons.
    assert (Hwc := Hc k c Hin). assert (Hfc' := Hfc k c Hin).
    destruct (String.eqb k k0).
    + destruct rest as [|k1 rest]; cbn [List.length Nat.eqb].
      * now rewrite outside_nil.
      * destruct (IH k c Hin Hwc Hfc' (String.concat "/" (k1 :: rest)))
          as [c' [E Hp]].
        rewrite split_concat in Hp by (discriminate || assumption).
        rewrite E, <- Hp. apply path_item_kept. apply leaf_paths_falsy.
    + rewrite (to_dict_canon c Hwc Hfc').
      rewrite <- (leaf_paths_canon c Hwc).
      apply path_item_kept. apply leaf_paths_falsy.
Qed.

End PruneKeyChainLeaves.

(** X15: After [prune_key_chain] the key chain is not in the container: looking
    it up there never returns a value, and [has_key_chain] is [False] for a
    key chain that was in the container. *)
Theorem prune_key_chain_removes {V : Type} (T : Container V)
  (key_chain : string) :
  wfb T = true ->
  exists T',
    prune_key_chain T key_chain = Ok T'
    /\ canonicalb T' = true
    /\ (forall x, at_key_chain T' key_chain <> Ok x)
    /\ (forall x, at_key_chain T key_chain = Ok x ->
                  has_key_chain T' key_chain = Ok false).
Proof.
  intros Hwf.
  destruct (prune_key_chain_pruned T Hwf key_chain)
    as [T' [E [Hcan [[e He] Hok]]]].
  exists T'. split; [exact E|]. split; [exact Hcan|]. split.
  - intros x Hx. unfold at_key_chain in Hx. rewrite He in Hx. discriminate.
  - intros x Hx. rewrite has_key_chain_at_key_chain.
    unfold at_key_chain in *. now rewrite (Hok x Hx).
Qed.

Lemma prune_key_chain_removes_witness :
  wfb tree_abc = true
  /\ exists T',
       prune_key_chain tree_abc "a/b" = Ok T'
       /\ canonicalb T' = true
       /\ (forall x, at_key_chain T' "a/b" <> Ok x)
       /\ (forall x, at_key_chain tree_abc "a/b" = Ok x ->
                     has_key_chain T' "a/b" = Ok false).
Proof.
  split; [reflexivity|].
  apply (prune_key_chain_removes tree_abc "a/b"). reflexivity.
Defined.

(** X16: On a container with no leaf stored under ['_f'], [prune_key_chain]
    removes the leaves whose path begins with the key chain and keeps every
    other leaf, with its path, in the same order. *)
Theorem prune_key_chain_keeps_others {V : Type} (T : Container V)
  (key_chain : string) :
  wfb T = true -> no_f_leafb T = true ->
  exists T',
    prune_key_chain T key_chain = Ok T'
    /\ leaf_paths T' = filter (outside (split key_chain)) (leaf_paths T).
Proof.
  intros Hwf Hf. exact (prune_key_chain_paths T Hwf Hf key_chain).
Qed.

Lemma prune_key_chain_keeps_others_witness :
  wfb tree_abc = true
  /\ no_f_leafb tree_abc = true
  /\ exists T',
       prune_key_chain tree_abc "a/b" = Ok T'
       /\ leaf_paths T' = filter (outside (split "a/b")) (leaf_paths tree_abc).
Proof.
  split; [reflexivity|]. split; [reflexivity|].
  apply (prune_key_chain_keeps_others tree_abc "a/b"); reflexivity.
Defined.

(** ** Selecting one key chain *)

Lemma branches_along_empty {V : Type} (ks : list string) :
  branches_along ks (Dict ([] : list (string * node V))) = true.
Proof. now destruct ks. Qed.

(** X17: [at_key_chains] with one key chain, which it passes on as
    [[key_chains]]: when the key chain is in the container, the result holds
    what the container has there, at the same key chain, and nothing off
    it; when the lookup raises, so does [at_key_chains]. *)
Theorem at_key_chains_single {V : Type} (self : Container V)
  (key_chain : string) :
  match at_key_chain self key_chain with
  | Ok x =>
      exists T',
        _at_key_chains_input_as_seq self [key_chain] = Ok T'
        /\ at_key_chain T' key_chain = Ok x
        /\ (forall q, diverges (split key_chain) q = true ->
                      at_keys q (Sub T') = Raise KeyError)
  | Raise e => _at_key_chains_input_as_seq self [key_chain] = Raise e
  end.
Proof.
  unfold _at_key_chains_input_as_seq. cbn [fold_left bind].
  destruct (at_key_chain self key_chain) as [x|e]; [|reflexivity].
  cbn [bind]. unfold set_at_key_chain, at_key_chain.
  destruct (set_keys_sets (removelast (split key_chain))
              (last (split key_chain) "") x (Dict [])
              (branches_along_empty _)) as [T' [Es Ha]].
  rewrite <- app_removelast_last in Ha by apply split_nonempty.
  exists T'. split; [exact Es|]. split; [exact Ha|].
  intros q Hd.
  rewrite (set_keys_frame (removelast (split key_chain))
             (last (split key_chain) "") x (Dict []) T' q Es).
  - destruct q as [|b q]; [|reflexivity].
    destruct (split key_chain); discriminate.
  - now rewrite <- app_removelast_last by apply split_nonempty.
Qed.

(** ** Writing and reading back *)

Section Hdf5RoundTrip.
Context {R : Type}.
Implicit Types (c : Container (list R)) (l : list (string * node (list R)))
  (ms : list (string * h5 R)) (rows : list R).

Lemma to_disk_unfold l (h5_obj : h5 R) (starting_index : Z)
  (max_batch_size : option Z) :
  to_disk_as_hdf5 (Dict l) h5_obj starting_index max_batch_size
  = (st <- fold_left (to_disk_step starting_index) (sorted l)
             (Ok (h5_obj, max_batch_size)) ;;
     Ok (fst st)).
Proof.
  change (to_disk_as_hdf5 (Dict l) h5_obj starting_index max_batch_size)
    with (st <-
            fold_left
              (fun acc
                 (kv : string
                       * (h5 R * option Z -> result (h5 R * option Z))) =>
                 st <- acc ;; snd kv st)
              (sorted
                 (List.map
                    (fun kv => (fst kv, to_disk_item starting_index kv)) l))
              (Ok (h5_obj, max_batch_size)) ;;
          Ok (fst st)).
  rewrite sorted_map, fold_left_map. reflexivity.
Qed.

Lemma dict_contains_notin {A : Type} (k : string) (d : list (string * A)) :
  ~ In k (keys d) -> dict_contains k d = false.
Proof. intros H. unfold dict_contains. now rewrite dict_get_notin. Qed.

Lemma fits_effective_max (n : nat) (max_batch_size : option Z) :
  fits n max_batch_size ->
  effective_max 0 max_batch_size (Z.of_nat n) = Z.of_nat n.
Proof.
  unfold fits, effective_max. intros [H| ->]; [now rewrite H|].
  cbn [unspecified]. destruct (Z.eqb_spec (Z.of_nat n) 0); lia.
Qed.

(** A batch written from row 0 under a new key, when [max_batch_size] is
    not given or is the size of the batch, is written in full. *)
Lemma write_leaf_full (key : string) rows (max_batch_size : option Z) ms :
  dict_contains key ms = false ->
  fits (List.length rows) max_batch_size ->
  write_leaf key rows 0 (H5Group ms, max_batch_size)
  = Ok (H5Group (ms ++ [(key, H5Dataset (List.map Some rows))]),
        Some (Z.of_nat (List.length rows))).
Proof.
  intros Hfresh Hfit.
  assert (Hw := write_leaf_fresh key rows 0 max_batch_size ms).
  cbv zeta in Hw. rewrite (fits_effective_max _ _ Hfit) in Hw.
  rewrite Hw; [|exact Hfresh | lia].
  replace (Z.min (Z.of_nat (List.length rows)) (Z.of_nat (List.length rows) - 0))
    with (Z.of_nat (List.length rows)) by lia.
  replace (Z.of_nat (List.length rows) - 0 - Z.of_nat (List.length rows))%Z
    with 0%Z by lia.
  rewrite Nat2Z.id, firstn_all. cbn [Z.to_nat repeat app].
  now rewrite app_nil_r.
Qed.

Lemma to_flat_list_Forall (P : list R -> Prop) l :
  Forall P (to_flat_list (Dict l)) ->
  (forall k rows, In (k, Leaf rows) l -> P rows)
  /\ nested (fun c => Forall P (to_flat_list c)) l.
Proof.
  unfold to_flat_list. rewrite to_iterator_unfold, Forall_forall.
  intros H. split.
  - intros k rows Hin. apply H. apply in_map_iff.
    exists (k, rows). split; [reflexivity|]. apply in_flat_map.
    exists (k, Leaf rows). split; [now apply sorted_In | now left].
  - intros k c Hin. apply Forall_forall. intros rows Hr. apply H.
    apply in_map_iff in Hr. destruct Hr as [kv [E Hkv]].
    apply in_map_iff. exists kv. split; [exact E|]. apply in_flat_map.
    exists (k, Sub c). split; [now apply sorted_In | exact Hkv].
Qed.

(** The loop of [to_disk_as_hdf5] over items that are new to the group. *)
Lemma to_disk_loop (n : nat) l ms (max_batch_size : option Z) :
  NoDup (keys ms ++ keys l) ->
  fits n max_batch_size ->
  (forall k rows, In (k, Leaf rows) l -> List.length rows = n) ->
  nested (fun c => forall mb, fits n mb ->
            to_disk_as_hdf5 c (H5Group []) 0 mb = Ok (h5_of c)) l ->
  exists mb',
    fold_left (to_disk_step 0) l (Ok (H5Group ms, max_batch_size))
    = Ok (H5Group (ms ++ List.map (fun kv => (fst kv, h5_item kv)) l), mb').
Proof.
  revert ms max_batch_size.
  induction l as [|[k x] r IHr]; intros ms mb Hn Hfit Hlen IH.
  - exists mb. simpl. now rewrite app_nil_r.
  - assert (Hfresh : dict_contains k ms = false).
    { apply dict_contains_notin. exact (NoDup_keys_head2 _ _ _ _ Hn). }
    assert (Hx : exists mb1,
               to_disk_item 0 (k, x) (H5Group ms, mb)
               = Ok (H5Group (ms ++ [(k, h5_item (k, x))]), mb1)
               /\ fits n mb1).
    { destruct x as [rows|c]; unfold to_disk_item, h5_item; cbn [fst snd].
      - assert (Hr : List.length rows = n)
          by (apply (Hlen k); now left).
        subst n. rewrite (write_leaf_full k rows mb ms Hfresh Hfit).
        eexists. split; [reflexivity | now right].
      - cbn [members_of bind]. rewrite Hfresh.
        rewrite (dict_get_app_fresh k _ ms Hfresh).
        rewrite (IH k c (or_introl eq_refl) mb Hfit). cbn [bind].
        rewrite (dict_set_app_fresh k _ _ ms Hfresh).
        exists mb. now split. }
    destruct Hx as [mb1 [Ex Hfit1]].
    cbn [fold_left List.map]. unfold to_disk_step at 2. cbn [bind].
    rewrite Ex.
    destruct (IHr (ms ++ [(k, h5_item (k, x))]) mb1) as [mb' E].
    + exact (NoDup_keys_shift2 _ _ _ _ _ Hn).
    + exact Hfit1.
    + intros k' rows Hin. apply (Hlen k'). now right.
    + intros k' c' Hin. apply (IH k'). now right.
    + exists mb'. rewrite E, <- app_assoc. reflexivity.
Qed.

Lemma h5_of_unfold l :
  h5_of (Dict l)
  = H5Group (List.map (fun kv => (fst kv, h5_item kv)) (sorted l)).
Proof.
  change (h5_of (Dict l))
    with (H5Group (sorted (List.map (fun kv => (fst kv, h5_item kv)) l))).
  now rewrite sorted_map.
Qed.

(** Batches of one size, written from row 0 into an empty group. *)
Lemma to_disk_h5_of (n : nat) c :
  wfb c = true ->
  Forall (fun rows => List.length rows = n) (to_flat_list c) ->
  forall mb, fits n mb ->
  to_disk_as_hdf5 c (H5Group []) 0 mb = Ok (h5_of c).
Proof.
  induction c as [l IH] using Container_nested_ind.
  intros Hwf HF mb Hfit. apply wfb_inv in Hwf. destruct Hwf as [Hn [Hs Hc]].
  apply to_flat_list_Forall in HF. destruct HF as [Hlen Hsub].
  rewrite to_disk_unfold, h5_of_unfold.
  destruct (to_disk_loop n (sorted l) [] mb) as [mb' E].
  - exact (NoDup_keys_sorted l Hn).
  - exact Hfit.
  - intros k rows Hin. apply sorted_In1 in Hin. now apply (Hlen k).
  - intros k c Hin. apply sorted_In1 in Hin.
    apply (IH k c Hin); [now apply (Hc k) | now apply (Hsub k)].
  - rewrite E. reflexivity.
Qed.

Variable fill : R.

Lemma from_disk_unfold ms (slice_obj : option Z * option Z) :
  from_disk_as_hdf5 fill (H5Group ms) slice_obj
  = (container_dict <-
       fold_left (from_disk_step fill slice_obj) (sorted ms) (Ok []) ;;
     __init__ (Dict container_dict)).
Proof.
  change (from_disk_as_hdf5 fill (H5Group ms) slice_obj)
    with (container_dict <-
            fold_left
              (fun acc (kv : string * result (node (list R))) =>
                 container_dict <- acc ;;
                 x <- snd kv ;;
                 Ok (dict_set (fst kv) x container_dict))
              (sorted
                 (List.map
                    (fun kv => (fst kv, from_disk_item fill slice_obj kv))
                    ms))
              (Ok []) ;;
          __init__ (Dict container_dict)).
  rewrite sorted_map, fold_left_map. reflexivity.
Qed.

(** The whole of a dataset whose rows are all written. *)
Lemma read_rows_all rows :
  read_rows fill (List.map Some rows) (None, None) = rows.
Proof.
  unfold read_rows. cbn [fst snd Z.to_nat skipn].
  rewrite Nat2Z.id, firstn_all, map_map. apply map_id.
Qed.

Lemma from_disk_item_group k c (slice_obj : option Z * option Z) :
  from_disk_item fill slice_obj (k, h5_of c)
  = (c' <- from_disk_as_hdf5 fill (h5_of c) slice_obj ;; Ok (Sub c')).
Proof. destruct c as [l]. reflexivity. Qed.

Lemma from_disk_loop l (acc : list (string * node (list R))) :
  NoDup (keys acc ++ keys l) ->
  nested (fun c => from_disk_as_hdf5 fill (h5_of c) (None, None)
                   = Ok (canon c)) l ->
  fold_left (from_disk_step fill (None, None))
    (List.map (fun kv => (fst kv, h5_item kv)) l) (Ok acc)
  = Ok (acc ++ List.map (fun kv => (fst kv, canon_node (snd kv))) l).
Proof.
  revert acc. induction l as [|[k x] r IHr]; intros acc Hn IH.
  - simpl. now rewrite app_nil_r.
  - cbn [List.map fold_left fst snd].
    assert (Hx : from_disk_item fill (None, None) (k, h5_item (k, x))
                 = Ok (canon_node x)).
    { destruct x as [rows|c]; unfold h5_item; cbn [snd].
      - unfold from_disk_item. cbn [snd]. now rewrite read_rows_all.
      - rewrite from_disk_item_group, (IH k c (or_introl eq_refl)).
        reflexivity. }
    unfold from_disk_step at 2. cbn [bind fst]. rewrite Hx. cbn [bind].
    rewrite dict_set_fresh by exact (NoDup_keys_head _ _ _ _ Hn).
    rewrite IHr.
    + now rewrite <- app_assoc.
    + exact (NoDup_keys_shift _ _ _ _ _ Hn).
    + intros k' c' Hin. apply (IH k'). now right.
Qed.

Lemma from_disk_h5_of c :
  wfb c = true ->
  from_disk_as_hdf5 fill (h5_of c) (None, None) = Ok (canon c).
Proof.
  induction c as [l IH] using Container_nested_ind.
  intros Hwf. assert (Hwf' := Hwf).
  apply wfb_inv in Hwf. destruct Hwf as [Hn [Hs Hc]].
  rewrite h5_of_unfold, from_disk_unfold, sorted_map.
  rewrite (increasing_sorted (sorted l)) by now apply sorted_increasing.
  rewrite (from_disk_loop (sorted l) []).
  - cbn [bind app]. rewrite <- canon_unfold.
    apply init_canonical. now apply canon_canonical.
  - now apply NoDup_keys_sorted.
  - intros k c Hin. apply sorted_In1 in Hin.
    apply (IH k c Hin). now apply (Hc k).
Qed.

End Hdf5RoundTrip.

(** X18: A container whose batches all have [n] rows, written to an empty h5
    group from row 0 with [max_batch_size] left out and read back with the
    slice [slice(None)], comes back: the container read holds the same
    mapping, and is the container written when that one is in constructor
    order. *)
Theorem hdf5_round_trip {R : Type} (fill : R) (T : Container (list R))
  (n : nat) :
  wfb T = true ->
  Forall (fun rows => List.length rows = n) (to_flat_list T) ->
  exists h5_obj T',
    to_disk_as_hdf5 T (H5Group []) 0 None = Ok h5_obj
    /\ from_disk_as_hdf5 fill h5_obj (None, None) = Ok T'
    /\ same_dict T' T
    /\ to_flat_list T' = to_flat_list T
    /\ (canonicalb T = true -> T' = T).
Proof.
  intros Hwf HF. exists (h5_of T), (canon T).
  split; [apply (to_disk_h5_of n T Hwf HF); now left|].
  split; [now apply from_disk_h5_of|].
  split; [now apply canon_idem|].
  split; [|apply canon_fixed].
  unfold to_flat_list. now rewrite to_iterator_canon.
Qed.

Lemma hdf5_round_trip_witness :
  wfb (Dict [("b", Leaf [20; 21]%Z);
             ("a", Sub (Dict [("x", Leaf [1; 2]%Z)]))]) = true
  /\ Forall (fun rows => List.length rows = 2)
       (to_flat_list
          (Dict [("b", Leaf [20; 21]%Z);
                 ("a", Sub (Dict [("x", Leaf [1; 2]%Z)]))]))
  /\ exists h5_obj T',
       to_disk_as_hdf5
         (Dict [("b", Leaf [20; 21]%Z);
                ("a", Sub (Dict [("x", Leaf [1; 2]%Z)]))])
         (H5Group []) 0 None = Ok h5_obj
       /\ from_disk_as_hdf5 0%Z h5_obj (None, None) = Ok T'
       /\ same_dict T'
            (Dict [("b", Leaf [20; 21]%Z);
                   ("a", Sub (Dict [("x", Leaf [1; 2]%Z)]))])
       /\ to_flat_list T'
          = to_flat_list
              (Dict [("b", Leaf [20; 21]%Z);
                     ("a", Sub (Dict [("x", Leaf [1; 2]%Z)]))])
       /\ (canonicalb
             (Dict [("b", Leaf [20; 21]%Z);
                    ("a", Sub (Dict [("x", Leaf [1; 2]%Z)]))]) = true ->
           T' = Dict [("b", Leaf [20; 21]%Z);
                      ("a", Sub (Dict [("x", Leaf [1; 2]%Z)]))]).
Proof.
  split; [reflexivity|]. split; [repeat constructor|].
  apply (hdf5_round_trip 0%Z
           (Dict [("b", Leaf [20; 21]%Z);
                  ("a", Sub (Dict [("x", Leaf [1; 2]%Z)]))]) 2).
  - reflexivity.
  - repeat constructor.
Defined.

(** ** Pruning several key chains *)

Lemma filter_filter {A : Type} (P Q : A -> bool) (l : list A) :
  filter Q (filter P l) = filter (fun a => P a && Q a) l.
Proof.
  induction l as [|a l IH]; [reflexivity|]. cbn [filter].
  destruct (P a); cbn [filter andb]; [|exact IH].
  destruct (Q a); now rewrite IH.
Qed.

Lemma filter_all {A : Type} (l : list A) : filter (fun _ => true) l = l.
Proof. induction l as [|a l IH]; [reflexivity|]. cbn [filter]. now rewrite IH. Qed.

Section PruneKeyChainsFacts.
Context {V : Type}.
Implicit Types (c : Container V) (l : list (string * node V)).

Lemma last_cons_nonempty (k : string) (p : list string) :
  p <> [] -> last (k :: p) "" = last p "".
Proof. destruct p; [congruence | reflexivity]. Qed.

(** The two ways of saying that no leaf is stored under ['_f']. *)
Lemma no_f_leafb_paths c :
  no_f_leafb c = true <-> Forall no_f_path (leaf_paths c).
Proof.
  induction c as [l IH] using Container_nested_ind.
  rewrite no_f_leafb_inv, leaf_paths_unfold, Forall_forall. split.
  - intros [Hfl Hfc] pv Hin. apply in_flat_map in Hin.
    destruct Hin as [[k x] [Hkx Hin]]. apply sorted_In1 in Hkx.
    unfold path_item in Hin. cbn [fst snd] in Hin. destruct x as [v|c].
    + destruct Hin as [<-|[]]. unfold no_f_path. cbn [fst last].
      now apply (Hfl k v).
    + apply in_map_iff in Hin. destruct Hin as [pv' [<- Hin]].
      unfold no_f_path. cbn [fst].
      rewrite last_cons_nonempty by exact (leaf_paths_nonempty c pv' Hin).
      assert (H := proj1 (IH k c Hkx) (Hfc k c Hkx)).
      rewrite Forall_forall in H. now apply H.
  - intros H. split.
    + intros k v Hin.
      apply (H ([k], v)). apply in_flat_map. exists (k, Leaf v).
      split; [now apply sorted_In | now left].
    + intros k c Hin. apply (IH k c Hin). apply Forall_forall.
      intros pv Hpv. unfold no_f_path.
      rewrite <- (last_cons_nonempty k)
        by exact (leaf_paths_nonempty c pv Hpv).
      apply (H (k :: fst pv, snd pv)). apply in_flat_map. exists (k, Sub c).
      split; [now apply sorted_In|].
      unfold path_item. cbn [fst snd]. apply in_map_iff. now exists pv.
Qed.

Lemma prune_key_chains_loop (key_chains : list string) c :
  wfb c = true -> no_f_leafb c = true ->
  exists c',
    fold_left
      (fun acc kc => return_cont <- acc ;; prune_key_chain return_cont kc)
      key_chains (Ok c) = Ok c'
    /\ leaf_paths c' = filter (outside_all key_chains) (leaf_paths c).
Proof.
  revert c. induction key_chains as [|kc r IH]; intros c Hwf Hf.
  - exists c. split; [reflexivity|]. symmetry. apply filter_all.
  - cbn [fold_left bind].
    destruct (prune_key_chain_pruned c Hwf kc) as [c1 [E1 [Hcan _]]].
    destruct (prune_key_chain_paths c Hwf Hf kc) as [c1' [E1' Hp]].
    rewrite E1 in E1'. injection E1' as <-. rewrite E1.
    destruct (IH c1) as [c' [E Hp']].
    + now apply canonical_wf.
    + apply no_f_leafb_paths. rewrite Hp.
      apply no_f_leafb_paths in Hf. rewrite Forall_forall in *.
      intros pv Hin. apply filter_In in Hin. now apply Hf.
    + exists c'. split; [exact E|].
      rewrite Hp', Hp, filter_filter. reflexivity.
Qed.

End PruneKeyChainsFacts.

(** X19: [prune_key_chains] with a list of key chains, on a container with no
    leaf stored under ['_f']: the leaves whose path begins with one of the
    key chains are removed, every other leaf is kept with its path, in the
    same order. *)
Theorem prune_key_chains_seq {V : Type} (T : Container V)
  (key_chains : list string) :
  wfb T = true -> no_f_leafb T = true ->
  exists T',
    _prune_key_chains_input_as_seq T key_chains = Ok T'
    /\ leaf_paths T' = filter (outside_all key_chains) (leaf_paths T).
Proof.
  intros Hwf Hf. unfold _prune_key_chains_input_as_seq, copy.
  rewrite (to_dict_canon T Hwf Hf).
  rewrite (init_canonical _ (canon_canonical T Hwf)). cbn [bind].
  destruct (prune_key_chains_loop key_chains (canon T)) as [T' [E Hp]].
  - apply canonical_wf. now apply canon_canonical.
  - apply no_f_leafb_paths. rewrite leaf_paths_canon by exact Hwf.
    now apply no_f_leafb_paths.
  - exists T'. split; [exact E|]. now rewrite Hp, leaf_paths_canon.
Qed.

Lemma prune_key_chains_seq_witness :
  wfb tree_abc = true
  /\ no_f_leafb tree_abc = true
  /\ exists T',
       _prune_key_chains_input_as_seq tree_abc ["a/b"; "e"] = Ok T'
       /\ leaf_paths T'
          = filter (outside_all ["a/b"; "e"]) (leaf_paths tree_abc).
Proof.
  split; [reflexivity|]. split; [reflexivity|].
  apply (prune_key_chains_seq tree_abc ["a/b"; "e"]); reflexivity.
Defined.

(** ** Slicing at a key *)

Section SliceFacts.
Context {V : Type}.
Implicit Types (c : Container V) (l : list (string * node V)).
Variable slice_key : string.

Lemma slice_via_key_unfold l :
  slice_via_key (Dict l) slice_key
  = (st <- fold_left (slice_step slice_key) (sorted l) (Ok ([], None)) ;;
     match snd st with
     | Some value => Ok value
     | None => c <- __init__ (Dict (fst st)) ;; Ok (Sub c)
     end).
Proof.
  change (slice_via_key (Dict l) slice_key)
    with (st <-
            fold_left
              (fun acc
                 (kv : string
                       * (list (string * node V)
                          -> result (list (string * node V)
                                     * option (node V)))) =>
                 st <- acc ;;
                 match snd st with
                 | Some _ => Ok st
                 | None => snd kv (fst st)
                 end)
              (sorted
                 (List.map (fun kv => (fst kv, slice_item slice_key kv)) l))
              (Ok ([], None)) ;;
          match snd st with
          | Some value => Ok value
          | None => c <- __init__ (Dict (fst st)) ;; Ok (Sub c)
          end).
  rewrite sorted_map, fold_left_map. reflexivity.
Qed.

(** Once the loop has returned, the items that follow are not looked at. *)
Lemma slice_done l (d : list (string * node V)) (x : node V) :
  fold_left (slice_step slice_key) l (Ok (d, Some x)) = Ok (d, Some x).
Proof. induction l as [|kv r IH]; [reflexivity | exact IH]. Qed.

Lemma slice_item_hit k (x : node V) (acc : list (string * node V)) :
  String.eqb k slice_key = true ->
  slice_item slice_key (k, x) acc = Ok (acc, Some x).
Proof.
  intros H. unfold slice_item. cbn [fst snd]. destruct x; now rewrite H.
Qed.

Lemma fold_left_from {A B : Type} (f : A -> B -> A) (l : list B) (a b r : A) :
  a = b -> fold_left f l b = r -> fold_left f l a = r.
Proof. now intros ->. Qed.

Lemma slice_loop l (acc : list (string * node V)) :
  NoDup (keys acc ++ keys l) ->
  nested (fun c => exists r,
            slice_via_key c slice_key = Ok r /\ sliced slice_key c r) l ->
  match dict_get slice_key l with
  | Some x =>
      exists d,
        fold_left (slice_step slice_key) l (Ok (acc, None)) = Ok (d, Some x)
  | None =>
      exists d,
        fold_left (slice_step slice_key) l (Ok (acc, None))
        = Ok (acc ++ d, None)
        /\ keys d = keys l
        /\ nested (fun c => wfb c = true) d
        /\ (forallb (absent_item slice_key) l = true ->
            d = List.map (fun kv => (fst kv, canon_node (snd kv))) l)
  end.
Proof.
  revert acc. induction l as [|[k x] r IHr]; intros acc Hn IH.
  - exists []. simpl. rewrite app_nil_r. repeat split; auto.
    intros k c [].
  - cbn [dict_get fold_left]. unfold slice_step at 2. cbn [bind fst snd].
    assert (Hk := NoDup_keys_head _ _ _ _ Hn).
    rewrite (String.eqb_sym slice_key k).
    destruct (String.eqb k slice_key) eqn:Ek.
    + exists acc.
      apply (fold_left_from _ _ _ _ _ (slice_item_hit k x acc Ek)).
      apply slice_done.
    + assert (Hx : exists y,
                 slice_item slice_key (k, x) acc
                 = Ok (acc ++ [(k, y)], None)
                 /\ (forall c', y = Sub c' -> wfb c' = true)
                 /\ (absent_item slice_key (k, x) = true ->
                     y = canon_node x)).
      { unfold slice_item. cbn [fst snd]. rewrite Ek. destruct x as [v|c].
        - exists (Leaf v). rewrite dict_set_fresh by exact Hk.
          split; [reflexivity|]. split; [discriminate | reflexivity].
        - destruct (IH k c (or_introl eq_refl)) as [r0 [E [Hw [_ Ha]]]].
          exists r0. rewrite E. cbn [bind].
          rewrite dict_set_fresh by exact Hk.
          split; [reflexivity|]. split; [exact Hw|].
          unfold absent_item. cbn [fst snd]. rewrite Ek. cbn [negb andb].
          exact Ha. }
      destruct Hx as [y [Ey [Hwy Hay]]].
      assert (Hr := IHr (acc ++ [(k, y)]) (NoDup_keys_shift _ _ _ _ _ Hn)
                      (fun k' c' Hin => IH k' c' (or_intror Hin))).
      destruct (dict_get slice_key r) as [x0|].
      * destruct Hr as [d E]. exists d.
        exact (fold_left_from _ _ _ _ _ Ey E).
      * destruct Hr as [d [E [Hkd [Hwd Had]]]].
        exists ((k, y) :: d). split; [|split; [|split]].
        -- apply (fold_left_from _ _ _ _ _ Ey).
           rewrite E, <- app_assoc. reflexivity.
        -- simpl. now rewrite Hkd.
        -- intros k' c' [E'|Hin]; [|now apply (Hwd k')].
           injection E' as _ ->. now apply Hwy.
        -- intros Hall. cbn [forallb] in Hall.
           apply andb_true_iff in Hall. destruct Hall as [H1 H2].
           cbn [List.map fst snd]. now rewrite (Hay H1), (Had H2).
Qed.

Lemma slice_via_key_sliced c :
  wfb c = true ->
  exists r, slice_via_key c slice_key = Ok r /\ sliced slice_key c r.
Proof.
  induction c as [l IH] using Container_nested_ind.
  intros Hwf. apply wfb_inv in Hwf. destruct Hwf as [Hn [Hs Hc]].
  rewrite slice_via_key_unfold.
  assert (Hns : NoDup (keys (sorted l))) by exact (NoDup_keys_sorted l Hn).
  assert (Hloop := slice_loop (sorted l) [] Hns).
  assert (Hnest : nested (fun c => exists r,
                            slice_via_key c slice_key = Ok r
                            /\ sliced slice_key c r) (sorted l)).
  { intros k c Hin. apply sorted_In1 in Hin.
    apply (IH k c Hin). now apply (Hc k). }
  specialize (Hloop Hnest).
  assert (Hget : dict_get slice_key (sorted l) = dict_get slice_key l).
  { symmetry. apply dict_get_perm; [exact Hn|].
    apply Permutation_sym, sorted_perm. }
  rewrite Hget in Hloop.
  destruct (dict_get slice_key l) as [x|] eqn:Eg.
  - destruct Hloop as [d E]. rewrite E. cbn [bind snd].
    exists x. split; [reflexivity|]. split; [|split].
    + intros c' ->. apply (Hc slice_key). now apply dict_get_In.
    + cbn [items]. rewrite Eg. intros x0 Hx0. now injection Hx0.
    + intros Ha. exfalso.
      change (forallb (absent_item slice_key) l = true) in Ha.
      rewrite forallb_forall in Ha.
      specialize (Ha _ (dict_get_In _ _ _ Eg)).
      unfold absent_item in Ha. cbn [fst] in Ha.
      rewrite String.eqb_refl in Ha. discriminate.
  - destruct Hloop as [d [E [Hkd [Hwd Had]]]]. rewrite E.
    cbn [bind snd fst app].
    assert (Hwfd : wfb (Dict d) = true).
    { apply wfb_inv. split; [now rewrite Hkd|]. split; [|exact Hwd].
      intros kv Hin.
      assert (H : In (fst kv) (keys (sorted l)))
        by (rewrite <- Hkd; now apply in_map).
      apply in_map_iff in H. destruct H as [kv' [<- Hin']].
      apply Hs. now apply sorted_In1. }
    rewrite (init_canon _ Hwfd). cbn [bind].
    exists (Sub (canon (Dict d))). split; [reflexivity|]. split; [|split].
    + assert (Hcc := canonical_wf _ (canon_canonical _ Hwfd)).
      intros c' Hc'. injection Hc' as <-. exact Hcc.
    + cbn [items]. rewrite Eg. discriminate.
    + intros Ha. change (forallb (absent_item slice_key) l = true) in Ha.
      rewrite Had.
      * rewrite <- canon_unfold. rewrite canon_idem; [reflexivity|].
        apply wfb_inv. auto.
      * rewrite forallb_forall in *. intros kv Hin.
        apply Ha. now apply sorted_In1.
Qed.

End SliceFacts.

(** X20: [slice_via_key] on a container that has the key returns the item that
    is stored there, a leaf or a container, whatever the other items
    are. *)
Theorem slice_via_key_found {V : Type} (T : Container V) (slice_key : string)
  (x : node V) :
  wfb T = true ->
  dict_get slice_key (items T) = Some x ->
  slice_via_key T slice_key = Ok x.
Proof.
  intros Hwf Hg.
  destruct (slice_via_key_sliced slice_key T Hwf) as [r [E [_ [Hx _]]]].
  now rewrite E, (Hx x Hg).
Qed.

Lemma slice_via_key_found_witness :
  wfb tree_abc = true
  /\ dict_get "e" (items tree_abc) = Some (Leaf 3%Z)
  /\ slice_via_key tree_abc "e" = Ok (Leaf 3%Z).
Proof.
  split; [reflexivity|]. split; [reflexivity|].
  apply (slice_via_key_found tree_abc "e" (Leaf 3%Z)); reflexivity.
Defined.

(** X21: [slice_via_key] with a key that no item has, in the container or
    below it, returns the container, in constructor order. *)
Theorem slice_via_key_absent {V : Type} (T : Container V)
  (slice_key : string) :
  wfb T = true ->
  absentb slice_key T = true ->
  slice_via_key T slice_key = Ok (Sub (canon T)).
Proof.
  intros Hwf Ha.
  destruct (slice_via_key_sliced slice_key T Hwf) as [r [E [_ [_ Hr]]]].
  now rewrite E, (Hr Ha).
Qed.

Lemma slice_via_key_absent_witness :
  wfb tree_ab = true
  /\ absentb "c" tree_ab = true
  /\ slice_via_key tree_ab "c" = Ok (Sub (canon tree_ab)).
Proof.
  split; [reflexivity|]. split; [reflexivity|].
  apply (slice_via_key_absent tree_ab "c"); reflexivity.
Defined.

(** ** The selection policy of map *)

Lemma append_assoc (a b c : string) :
  String.append (String.append a b) c = String.append a (String.append b c).
Proof. induction a as [|x a IH]; simpl; [reflexivity | now rewrite IH]. Qed.

Lemma append_slash_nonempty (a b : string) :
  String.append a (String.append "/" b) <> "".
Proof. destruct a; discriminate. Qed.

(** ['/'.join(keys + [key])] *)
Lemma concat_app_single (pre : list string) (k : string) :
  pre <> [] ->
  String.concat "/" (pre ++ [k])
  = String.append (String.concat "/" pre) (String.append "/" k).
Proof.
  induction pre as [|a r IH]; intros Hne; [contradiction|].
  destruct r as [|b r]; [reflexivity|].
  change (String.concat "/" ((a :: b :: r) ++ [k]))
    with (String.append a
            (String.append "/" (String.concat "/" ((b :: r) ++ [k])))).
  rewrite IH by discriminate.
  change (String.concat "/" (a :: b :: r))
    with (String.append a (String.append "/" (String.concat "/" (b :: r)))).
  now rewrite !append_assoc.
Qed.

(** The key chain that [map] accumulates is the path joined by ['/'],
    except below a key that is the empty string at the root. *)
Lemma join_chain_concat (pre : list string) (k : string) :
  (pre <> [] -> String.concat "/" pre <> "") ->
  join_chain (String.concat "/" pre) k = String.concat "/" (pre ++ [k]).
Proof.
  intros H. unfold join_chain. destruct pre as [|a r]; [reflexivity|].
  rewrite concat_app_single by discriminate.
  destruct (String.eqb_spec (String.concat "/" (a :: r)) "") as [E|_];
    [|reflexivity].
  elim (H ltac:(discriminate) E).
Qed.

Lemma unapplied_operated (key_chains : option (list string))
  (to_apply : bool) (p : string) :
  unapplied key_chains to_apply p = negb (operated key_chains to_apply p).
Proof.
  unfold unapplied, operated. destruct key_chains as [kcs|]; [|reflexivity].
  unfold in_chains.
  destruct (in_dec String.string_dec p kcs) as [Hin|Hin].
  - apply existsb_eqb_In in Hin. rewrite Hin. now destruct to_apply.
  - destruct (existsb (String.eqb p) kcs) eqn:E.
    + apply existsb_eqb_In in E. contradiction.
    + now destruct to_apply.
Qed.

Lemma flat_map_nested {A B C : Type} (g : A -> list B) (f : B -> list C)
  (l : list A) :
  flat_map f (flat_map g l) = flat_map (fun a => flat_map f (g a)) l.
Proof.
  induction l as [|a l IH]; [reflexivity|].
  cbn [flat_map]. now rewrite flat_map_app, IH.
Qed.

Section MapPaths.
Context {V : Type}.
Implicit Types (c : Container V) (l : list (string * node V)).
Variable func : V -> string -> V.
Variable key_chains : option (list string).
Variables to_apply prune_unapplied : bool.

Lemma map_keeps_key (key_chain : string) l :
  keeps_key (map_keep func key_chains to_apply prune_unapplied key_chain) l.
Proof.
  intros [k x] _. unfold map_keep. destruct x as [v|c]; cbn [fst snd].
  - destruct (unapplied key_chains to_apply (join_chain key_chain k));
      [destruct prune_unapplied; [now left | right; eauto] | right; eauto].
  - destruct (map func key_chains to_apply prune_unapplied
                (join_chain key_chain k) c) as [ret|e]; [|now left].
    destruct (truthy ret); [right; eauto | now left].
Qed.

(** The policy on the leaves of a nested container, seen from the container
    that holds it under [k]. *)
Lemma selection_policy_under (pre : list string) (k : string)
  (L : list (list string * V)) :
  flat_map (selection_policy func key_chains to_apply prune_unapplied pre)
    (List.map (fun pv => (k :: fst pv, snd pv)) L)
  = List.map (fun pv => (k :: fst pv, snd pv))
      (flat_map
         (selection_policy func key_chains to_apply prune_unapplied
            (pre ++ [k])) L).
Proof.
  induction L as [|[q v] L IH]; [reflexivity|].
  cbn [List.map flat_map]. rewrite map_app, IH. f_equal.
  unfold selection_policy. cbn [fst snd]. rewrite <- app_assoc. cbn [app].
  destruct (operated key_chains to_apply (String.concat "/" (pre ++ k :: q)));
    [reflexivity|].
  now destruct prune_unapplied.
Qed.

(** One item of the loop of [map], when [map] is known on a nested
    container. *)
Lemma map_item_facts (pre : list string) k (x : node V) :
  (pre <> [] -> String.concat "/" pre <> "") ->
  match x with
  | Sub c =>
      exists ret,
        map func key_chains to_apply prune_unapplied
          (String.concat "/" (pre ++ [k])) c = Ok ret
        /\ canonicalb ret = true
        /\ leaf_paths ret
           = flat_map
               (selection_policy func key_chains to_apply prune_unapplied
                  (pre ++ [k])) (leaf_paths c)
  | Leaf _ => True
  end ->
  (forall acc, ~ In k (keys acc) ->
     map_item func key_chains to_apply prune_unapplied
       (String.concat "/" pre) (k, x) acc
     = Ok (acc ++ map_keep func key_chains to_apply prune_unapplied
                    (String.concat "/" pre) (k, x)))
  /\ nested (fun c => canonicalb c = true)
       (map_keep func key_chains to_apply prune_unapplied
          (String.concat "/" pre) (k, x))
  /\ flat_map path_item
       (map_keep func key_chains to_apply prune_unapplied
          (String.concat "/" pre) (k, x))
     = flat_map (selection_policy func key_chains to_apply prune_unapplied pre)
         (path_item (k, x)).
Proof.
  intros Hpre. unfold map_item, map_keep. cbn [fst snd].
  rewrite (join_chain_concat pre k Hpre). destruct x as [v|c].
  - intros _. rewrite unapplied_operated.
    unfold path_item. cbn [fst snd flat_map].
    unfold selection_policy. cbn [fst snd].
    destruct (operated key_chains to_apply (String.concat "/" (pre ++ [k])));
      cbn [negb].
    + split; [intros acc Hk; now rewrite dict_set_fresh|].
      split; [|reflexivity]. intros k0 c0 [E|[]]. discriminate.
    + destruct prune_unapplied.
      * split; [intros acc Hk; now rewrite app_nil_r|].
        split; [|reflexivity]. intros k0 c0 [].
      * split; [intros acc Hk; now rewrite dict_set_fresh|].
        split; [|reflexivity]. intros k0 c0 [E|[]]. discriminate.
  - intros [ret [E [Hcan Hp]]]. rewrite E. cbn [bind].
    assert (H3 : flat_map path_item
                   (if truthy ret then [(k, Sub ret)] else [])
                 = flat_map
                     (selection_policy func key_chains to_apply
                        prune_unapplied pre) (path_item (k, Sub c))).
    { rewrite path_item_kept by apply leaf_paths_falsy.
      unfold path_item at 1. cbn [fst snd].
      now rewrite selection_policy_under, Hp. }
    destruct (truthy ret).
    + split; [intros acc Hk; now rewrite dict_set_fresh|].
      split; [|exact H3]. intros k0 c0 [E0|[]]. now injection E0 as _ <-.
    + split; [intros acc Hk; now rewrite app_nil_r|].
      split; [|exact H3]. intros k0 c0 [].
Qed.

Lemma dict_contains_In {A : Type} (k : string) (x : A)
  (d : list (string * A)) :
  In (k, x) d -> dict_contains k d = true.
Proof.
  unfold dict_contains. induction d as [|[k' x'] r IH]; [intros []|].
  intros [E|Hin]; simpl.
  - injection E as -> _. now rewrite String.eqb_refl.
  - destruct (String.eqb k k'); [reflexivity | now apply IH].
Qed.

Lemma map_paths c :
  forall pre : list string,
  wfb c = true ->
  (pre = [] -> dict_contains "" (items c) = false) ->
  (pre <> [] -> String.concat "/" pre <> "") ->
  exists c',
    map func key_chains to_apply prune_unapplied (String.concat "/" pre) c
    = Ok c'
    /\ canonicalb c' = true
    /\ leaf_paths c'
       = flat_map
           (selection_policy func key_chains to_apply prune_unapplied pre)
           (leaf_paths c).
Proof.
  induction c as [l IH] using Container_nested_ind.
  intros pre Hwf Hroot Hpre. apply wfb_inv in Hwf.
  destruct Hwf as [Hn [Hs Hc]]. cbn [items] in Hroot.
  assert (Hitem : forall kv, In kv (sorted l) ->
            match snd kv with
            | Sub c =>
                exists ret,
                  map func key_chains to_apply prune_unapplied
                    (String.concat "/" (pre ++ [fst kv])) c = Ok ret
                  /\ canonicalb ret = true
                  /\ leaf_paths ret
                     = flat_map
                         (selection_policy func key_chains to_apply
                            prune_unapplied (pre ++ [fst kv]))
                         (leaf_paths c)
            | Leaf _ => True
            end).
  { intros [k [v|c]] Hin; cbn [fst snd]; [exact I|].
    apply sorted_In1 in Hin.
    apply (IH k c Hin (pre ++ [k])); [now apply (Hc k) | |].
    - intros E. destruct pre; discriminate E.
    - intros _. destruct pre as [|a r].
      + cbn [app String.concat]. intros ->. specialize (Hroot eq_refl).
        discriminate
          (eq_trans (eq_sym (dict_contains_In "" (Sub c) l Hin)) Hroot).
      + rewrite concat_app_single by discriminate.
        apply append_slash_nonempty. }
  assert (Hcan : canonicalb
                   (Dict (flat_map
                            (map_keep func key_chains to_apply
                               prune_unapplied (String.concat "/" pre))
                            (sorted l))) = true).
  { apply kept_canonical; auto using map_keeps_key.
    apply nested_keep. intros [k x] Hin.
    now apply (map_item_facts pre k x Hpre (Hitem _ Hin)). }
  rewrite map_unfold.
  rewrite (fold_keep_ok
             (map_step func key_chains to_apply prune_unapplied
                (String.concat "/" pre))
             (map_keep func key_chains to_apply prune_unapplied
                (String.concat "/" pre)) (sorted l) []).
  - cbn [bind app]. rewrite (init_canonical _ Hcan).
    eexists. split; [reflexivity|]. split; [exact Hcan|].
    rewrite !leaf_paths_unfold.
    rewrite increasing_sorted by (apply canonicalb_inv in Hcan; tauto).
    rewrite (flat_map_nested path_item).
    apply flat_map_keep. intros [k x] Hin.
    now apply (map_item_facts pre k x Hpre (Hitem _ Hin)).
  - intros acc [k x] Hin Hk. unfold map_step. cbn [bind].
    now apply (map_item_facts pre k x Hpre (Hitem _ Hin)).
  - apply map_keeps_key.
  - now apply NoDup_keys_sorted.
Qed.

End MapPaths.

(** C5: a leaf reached through the keys [k1, ..., kn], at the accumulated
    path [p = k1/.../kn], is given to the function, with [p], when
    [key_chains] is [None] or when [(p in key_chains) == to_apply]; a leaf
    that is skipped is left out when [prune_unapplied] is true and kept as
    it is otherwise.  The leaves of the result, each with the keys that lead
    to it, are those the policy makes of the leaves of the container, in
    order.  (Below a key that is the empty string at the root, [map]
    accumulates [k2/.../kn].) *)
Theorem map_selection_policy {V : Type} (func : V -> string -> V)
  (key_chains : option (list string)) (to_apply prune_unapplied : bool)
  (T : Container V) :
  wfb T = true ->
  dict_contains "" (items T) = false ->
  exists T',
    map func key_chains to_apply prune_unapplied "" T = Ok T'
    /\ leaf_paths T'
       = flat_map
           (selection_policy func key_chains to_apply prune_unapplied [])
           (leaf_paths T).
Proof.
  intros Hwf Hroot.
  destruct (map_paths func key_chains to_apply prune_unapplied T [] Hwf)
    as [T' [E [_ Hp]]]; [auto | congruence |].
  exists T'. split; [exact E | exact Hp].
Qed.

Lemma map_selection_policy_witness :
  wfb tree_names = true
  /\ dict_contains "" (items tree_names) = false
  /\ exists T',
       map (fun v kc => String.append v (String.append "@" kc))
         (Some ["a/x"]) true false "" tree_names = Ok T'
       /\ leaf_paths T' = [(["a"; "x"], "u@a/x"); (["b"], "v")].
Proof.
  split; [reflexivity|]. split; [reflexivity|].
  apply (map_selection_policy
           (fun v kc => String.append v (String.append "@" kc))
           (Some ["a/x"]) true false tree_names); reflexivity.
Defined.

(** The four cases of the policy on [{"a": {"x": "u"}, "b": "v"}], the
    function writing the key chain it is given after the leaf. *)
Example map_selection_cases :
  map (fun v kc => String.append v (String.append "@" kc)) None true false ""
    tree_names
  = Ok (Dict [("a", Sub (Dict [("x", Leaf "u@a/x")])); ("b", Leaf "v@b")])
  /\ map (fun v kc => String.append v (String.append "@" kc))
       (Some ["a/x"]) true true "" tree_names
     = Ok (Dict [("a", Sub (Dict [("x", Leaf "u@a/x")]))])
  /\ map (fun v kc => String.append v (String.append "@" kc))
       (Some ["a/x"]) false false "" tree_names
     = Ok (Dict [("a", Sub (Dict [("x", Leaf "u")])); ("b", Leaf "v@b")])
  /\ map (fun v kc => String.append v (String.append "@" kc))
       (Some ["a/x"]) false true "" tree_names
     = Ok (Dict [("b", Leaf "v@b")]).
Proof. repeat split. Qed.
